(** * FreeYOLO: the decoding and selection pipeline

    A shallow embedding of [models/yolo_free/yolo_free.py]: anchor
    generation, box decoding, per-level score filtering, aggregation and
    the final normalisation of [inference_single_image].

    Numeric model.  Tensor entries are real numbers: [float32] arithmetic is
    idealised as arithmetic in [R] ([exp], [sqrt] and the sigmoid are the
    real functions), so rounding, overflow and NaN are outside this
    reading; module [F32] is the same pipeline over IEEE 754 binary32 and
    shows where the two part.  Integer data keep their integer types:
    feature-map sizes, flat indices and labels are [nat], strides and
    [topk] are [Z].

    The network itself (backbone, neck, FPN, heads and the three prediction
    convolutions) is an external collaborator: a call is modelled from the
    point where the per-level prediction maps exist. *)

From Stdlib Require Import Reals Lra Lia List ZArith Bool Permutation Sorted.
From Stdlib Require Import SpecFloat.
From Stdlib Require QArith String.
Import String.StringSyntax.
From Equations Require Import Equations.
Import ListNotations.
Open Scope R_scope.

Set Implicit Arguments.

(** ** Exceptions

    The Python code has no [raise] of its own; what can fail are list and
    tensor subscripts, an integer division and [torch.cat] on an empty list.  An [outcome] is either the returned value or the
    exception that escaped. *)

Inductive exn : Type :=
| IndexError
| TypeError
| ZeroDivisionError
| RuntimeError.

Inductive outcome (A : Type) : Type :=
| Returns (a : A)
| Raises (e : exn).

Arguments Returns {A} a.
Arguments Raises {A} e.

Definition bind {A B : Type} (c : outcome A) (k : A -> outcome B) : outcome B :=
  match c with
  | Returns a => k a
  | Raises e => Raises e
  end.

Notation "x <- c ;; k" := (bind c (fun x => k))
  (at level 61, c at next level, right associativity).
Notation "' p <- c ;; k" := (bind c (fun x => let p := x in k))
  (at level 61, p pattern, c at next level, right associativity).

Fixpoint mapM {A B : Type} (f : A -> outcome B) (l : list A) : outcome (list B) :=
  match l with
  | [] => Returns []
  | a :: l' => b <- f a ;; bs <- mapM f l' ;; Returns (b :: bs)
  end.

(** ** Tensors

    A 2-D tensor [[M, k]] is the list of its [M] rows, a 1-D tensor the list
    of its entries. *)

Definition tensor : Type := list (list R).

(** Element-wise unary operation. *)
Definition tmap (f : R -> R) (t : tensor) : tensor := map (map f) t.

(** Element-wise binary operation on two tensors of one shape. *)
Definition tzip (f : R -> R -> R) (a b : tensor) : tensor :=
  map (fun rr => map (fun xy => f (fst xy) (snd xy)) (combine (fst rr) (snd rr)))
      (combine a b).

(** [t[..., :n]] and [t[..., n:]]. *)
Definition cols_to (n : nat) (t : tensor) : tensor := map (firstn n) t.
Definition cols_from (n : nat) (t : tensor) : tensor := map (skipn n) t.

(** [torch.cat([a, b], dim=-1)] on tensors with the same number of rows. *)
Definition cat_cols (a b : tensor) : tensor :=
  map (fun rr => fst rr ++ snd rr) (combine a b).

(** [torch.cat(ts)] along the first dimension; an empty list of tensors is
    refused. *)
Definition torch_cat {A : Type} (ts : list (list A)) : outcome (list A) :=
  match ts with
  | [] => Raises RuntimeError
  | _ :: _ => Returns (concat ts)
  end.

(** [t.flatten()]: row-major. *)
Definition flatten (t : tensor) : list R := concat t.

(** [t[idxs]] with an index tensor: row [i] of the result is row [idxs[i]]
    of [t]; an index past the end raises. *)
Definition lookup {A : Type} (t : list A) (i : nat) : outcome A :=
  match nth_error t i with
  | Some a => Returns a
  | None => Raises IndexError
  end.

Definition index_select {A : Type} (t : list A) (idxs : list nat) : outcome (list A) :=
  mapM (lookup t) idxs.

(** Python's [l[:k]]: a negative [k] counts from the end. *)
Definition slice_to {A : Type} (k : Z) (l : list A) : list A :=
  if (0 <=? k)%Z then firstn (Z.to_nat k) l
  else firstn (length l - Z.to_nat (- k)) l.

(** Boolean-mask selection [t[mask]]. *)
Fixpoint mask_select {A : Type} (t : list A) (mask : list bool) : list A :=
  match t, mask with
  | a :: t', b :: mask' => if b then a :: mask_select t' mask' else mask_select t' mask'
  | _, _ => []
  end.

(** Comparison of floats, as a boolean. *)
Definition Rgtb (a b : R) : bool := if Rgt_dec a b then true else false.

Definition sigmoid (x : R) : R := 1 / (1 + exp (- x)).

(** ** Configuration: the fields [__init__] stores *)

Record config : Type := {
  stride : list Z;
  num_classes : nat;
  conf_thresh : R;
  nms_thresh : R;
  topk : Z;
  no_decode : bool
}.

(** [self.stride[level]] *)
Definition stride_at (cfg : config) (level : nat) : outcome Z :=
  lookup (stride cfg) level.

(** ** generate_anchors *)

(** [torch.stack([anchor_x, anchor_y], dim=-1).float().view(-1, 2)] where
    [anchor_y, anchor_x = torch.meshgrid([arange(fmp_h), arange(fmp_w)])]:
    entry [(i, j)] of [anchor_y] is [i] and of [anchor_x] is [j]. *)
Definition meshgrid_xy (fmp_h fmp_w : nat) : tensor :=
  flat_map (fun i => map (fun j => [INR j; INR i]) (seq 0 fmp_w)) (seq 0 fmp_h).

Definition generate_anchors (cfg : config) (level : nat) (fmp_size : nat * nat)
  : outcome tensor :=
  let (fmp_h, fmp_w) := fmp_size in
  let anchor_xy := tmap (fun v => v + 0.5) (meshgrid_xy fmp_h fmp_w) in
  s <- stride_at cfg level ;;
  Returns (tmap (fun v => v * IZR s) anchor_xy).

(** ** decode_boxes *)

Definition decode_boxes (anchors pred_regs : tensor) (stride : Z) : tensor :=
  (* center of bbox *)
  let pred_ctr_xy :=
    tzip Rplus anchors (tmap (fun v => v * IZR stride) (cols_to 2 pred_regs)) in
  (* size of bbox *)
  let pred_box_wh :=
    tmap (fun v => v * IZR stride) (tmap exp (cols_from 2 pred_regs)) in
  let pred_x1y1 := tzip Rminus pred_ctr_xy (tmap (fun v => 0.5 * v) pred_box_wh) in
  let pred_x2y2 := tzip Rplus pred_ctr_xy (tmap (fun v => 0.5 * v) pred_box_wh) in
  cat_cols pred_x1y1 pred_x2y2.

(** ** Sorting

    [scores_i.sort(descending=True)] is PyTorch's sort, called without
    [stable=True]; the code relies on what its documentation promises: the
    returned indices are a rearrangement of the positions of the input and
    the values read at them are in descending order.  The order it gives to
    equal values is not fixed by the call, so the sort is a parameter of
    the model, constrained by [sort_contract]. *)

Definition sort_contract (argsort : list R -> list nat) : Prop :=
  forall scores : list R,
    Permutation (argsort scores) (seq 0 (length scores)) /\
    StronglySorted Rge (map (fun i => nth i scores 0) (argsort scores)).

(** Two sorts that meet the contract, built on insertion into an index list
    ordered by [before]. *)

Fixpoint insert_by (before : nat -> nat -> bool) (i : nat) (l : list nat) : list nat :=
  match l with
  | [] => [i]
  | j :: l' => if before i j then i :: j :: l' else j :: insert_by before i l'
  end.

Definition isort_by (before : nat -> nat -> bool) (l : list nat) : list nat :=
  fold_right (insert_by before) [] l.

Definition Reqb (a b : R) : bool := if Req_dec_T a b then true else false.

(** Higher score first; among equal scores the lower index first. *)
Definition score_desc_index_asc (scores : list R) (i j : nat) : bool :=
  Rgtb (nth i scores 0) (nth j scores 0)
  || (Reqb (nth i scores 0) (nth j scores 0) && (i <=? j)%nat).

(** Higher score first; among equal scores the higher index first. *)
Definition score_desc_index_desc (scores : list R) (i j : nat) : bool :=
  Rgtb (nth i scores 0) (nth j scores 0)
  || (Reqb (nth i scores 0) (nth j scores 0) && (j <=? i)%nat).

Definition argsort_first_wins (scores : list R) : list nat :=
  isort_by (score_desc_index_asc scores) (seq 0 (length scores)).

Definition argsort_last_wins (scores : list R) : list nat :=
  isort_by (score_desc_index_desc scores) (seq 0 (length scores)).

(** ** multiclass_nms *)

Module NMS.

(** [utils/nms.py], which defines [multiclass_nms], is not among the
    sources.  The definitions of this module follow the MulticlassNMS
    component of the specification: per class, gather the candidates of the
    class, sort them by score descending (ties by original index
    ascending), walk the sorted list greedily, and concatenate what is kept
    over the classes in increasing class order. *)

(** Modelled from the spec: the coordinates [(x1, y1, x2, y2)] of a box, a
    row of the box tensor handed to [multiclass_nms] (not among the
    sources). *)
Definition coord (b : list R) (k : nat) : R := nth k b 0.

(** Modelled from the spec: the area of a box in the IoU of
    [multiclass_nms]; a box with zero or negative area contributes area 0. *)
Definition box_area (b : list R) : R :=
  Rmax 0 ((coord b 2 - coord b 0) * (coord b 3 - coord b 1)).

(** Modelled from the spec: the intersection area in the IoU of
    [multiclass_nms]; it is at least 0, and 0 when the boxes do not
    overlap. *)
Definition inter_area (a b : list R) : R :=
  Rmax 0 (Rmin (coord a 2) (coord b 2) - Rmax (coord a 0) (coord b 0))
  * Rmax 0 (Rmin (coord a 3) (coord b 3) - Rmax (coord a 1) (coord b 1)).

(** Modelled from the spec: the union area in the IoU of [multiclass_nms],
    defined to be at least the intersection area. *)
Definition union_area (a b : list R) : R :=
  Rmax (inter_area a b) (box_area a + box_area b - inter_area a b).

(** Modelled from the spec: the IoU of [multiclass_nms], intersection area
    over union area, and 0 when the union area is 0. *)
Definition iou (a b : list R) : R :=
  if Req_dec_T (union_area a b) 0 then 0 else inter_area a b / union_area a b.

(** Modelled from the spec: step 1 of MulticlassNMS in [multiclass_nms]
    (not among the sources), the positions of the candidates of class [c]. *)
Definition gather_class (classIds : list nat) (c : nat) : list nat :=
  filter (fun i => (nth i classIds 0%nat =? c)%nat) (seq 0 (length classIds)).

(** Modelled from the spec: step 3 of MulticlassNMS in [multiclass_nms]
    (not among the sources), the greedy walk over the sorted candidates of
    one class: the first remaining candidate is kept and every other
    remaining candidate whose IoU with it exceeds [iouThresh] is removed. *)
Equations? greedy (boxes : tensor) (iouThresh : R) (remaining : list nat)
  : list nat by wf (length remaining) lt :=
  greedy boxes iouThresh [] := [];
  greedy boxes iouThresh (i :: rest) :=
    i :: greedy boxes iouThresh
           (filter (fun j => negb (Rgtb (iou (nth i boxes []) (nth j boxes [])) iouThresh))
                   rest).
Proof.
  simpl. apply Nat.lt_succ_r, filter_length_le.
Qed.

(** Modelled from the spec: the contract
    [suppress(boxes, scores, classIds, iouThresh, numClasses) -> retained indices]
    of [multiclass_nms] (not among the sources); step 2, the sort of a
    class by score descending with ties by original index ascending, is
    the insertion sort by [score_desc_index_asc]. *)
Definition suppress (boxes : tensor) (scores : list R) (classIds : list nat)
                    (iouThresh : R) (numClasses : nat) : list nat :=
  flat_map (fun c =>
              greedy boxes iouThresh
                (isort_by (score_desc_index_asc scores) (gather_class classIds c)))
           (seq 0 numClasses).

(** Modelled from the spec: [multiclass_nms] of [utils/nms.py] (not among
    the sources), as [post_process] calls it,
    [multiclass_nms(scores, labels, bboxes, nms_thresh, num_classes, False)]:
    it returns the scores, labels and boxes of the retained candidates. *)
Definition multiclass_nms (scores : list R) (labels : list nat) (bboxes : tensor)
                          (nms_thresh : R) (num_classes : nat)
  : list R * list nat * tensor :=
  let keep := suppress bboxes scores labels nms_thresh num_classes in
  (map (fun i => nth i scores 0) keep,
   map (fun i => nth i labels 0%nat) keep,
   map (fun i => nth i bboxes []) keep).

End NMS.

(** ** post_process *)

(** [a * b] for [a] of shape [[M, 1]] and [b] of shape [[M, C]]: the single
    column of [a] is broadcast over the columns of [b]. *)
Definition tmul_bcast (a b : tensor) : tensor :=
  map (fun rr => map (fun v => nth 0 (fst rr) 0 * v) (snd rr)) (combine a b).

(** [torch.div(idxs, d, rounding_mode='floor')] on an integer index tensor. *)
Definition floor_div_all (idxs : list nat) (d : nat) : outcome (list nat) :=
  match idxs, d with
  | _ :: _, O => Raises ZeroDivisionError
  | _, _ => Returns (map (fun i => (i / d)%nat) idxs)
  end.

Definition enumerate {A : Type} (l : list A) : list (nat * A) :=
  combine (seq 0 (length l)) l.

Definition zip4 {A B C D : Type} (a : list A) (b : list B) (c : list C) (d : list D)
  : list (A * B * C * D) :=
  combine (combine (combine a b) c) d.

Section Pipeline.

(** The index half of [torch.sort(descending=True)]. *)
Variable argsort : list R -> list nat.

(** [predicted_prob, topk_idxs = scores_i.sort(descending=True)] *)
Definition sort_descending (scores : list R) : list R * list nat :=
  let idxs := argsort scores in
  (map (fun i => nth i scores 0) idxs, idxs).

(** [(torch.sqrt(obj_pred_i.sigmoid() * cls_pred_i.sigmoid())).flatten()] *)
Definition fused_scores (obj_pred_i cls_pred_i : tensor) : list R :=
  flatten (tmap sqrt (tmul_bcast (tmap sigmoid obj_pred_i) (tmap sigmoid cls_pred_i))).

(** Keep top k top scoring indices only: [topk_scores] and [topk_idxs]. *)
Definition topk_select (cfg : config) (scores_i : list R) (reg_pred_i : tensor)
  : list R * list nat :=
  let num_topk := Z.min (topk cfg) (Z.of_nat (length reg_pred_i)) in
  let (predicted_prob, topk_idxs) := sort_descending scores_i in
  (slice_to num_topk predicted_prob, slice_to num_topk topk_idxs).

(** The body of the loop over the levels. *)
Definition post_process_level (cfg : config) (level : nat)
    (obj_pred_i cls_pred_i reg_pred_i : tensor) (anchors_i : option tensor)
  : outcome (list R * list nat * tensor) :=
  let scores_i := fused_scores obj_pred_i cls_pred_i in
  let (topk_scores, topk_idxs) := topk_select cfg scores_i reg_pred_i in
  (* filter out the proposals with low confidence score *)
  let keep_idxs := map (fun s => Rgtb s (conf_thresh cfg)) topk_scores in
  let scores := mask_select topk_scores keep_idxs in
  let topk_idxs := mask_select topk_idxs keep_idxs in
  anchor_idxs <- floor_div_all topk_idxs (num_classes cfg) ;;
  let labels := map (fun i => (i mod num_classes cfg)%nat) topk_idxs in
  reg_pred_i <- index_select reg_pred_i anchor_idxs ;;
  anchors_i <- match anchors_i with
               | Some a => index_select a anchor_idxs
               | None => Raises TypeError
               end ;;
  (* decode box: [M, 4] *)
  s <- stride_at cfg level ;;
  Returns (scores, labels, decode_boxes anchors_i reg_pred_i s).

Definition post_process (cfg : config) (obj_preds cls_preds reg_preds : list tensor)
    (anchors : list (option tensor)) : outcome (tensor * list R * list nat) :=
  per_level <- mapM (fun lv =>
                       match lv with
                       | (level, (obj_pred_i, cls_pred_i, reg_pred_i, anchors_i)) =>
                           post_process_level cfg level
                             obj_pred_i cls_pred_i reg_pred_i anchors_i
                       end)
                    (enumerate (zip4 obj_preds cls_preds reg_preds anchors)) ;;
  scores <- torch_cat (map (fun r => fst (fst r)) per_level) ;;
  labels <- torch_cat (map (fun r => snd (fst r)) per_level) ;;
  bboxes <- torch_cat (map (fun r => snd r) per_level) ;;
  (* nms *)
  match NMS.multiclass_nms scores labels bboxes (nms_thresh cfg) (num_classes cfg) with
  | (scores, labels, bboxes) => Returns (bboxes, scores, labels)
  end.

(** ** inference_single_image *)

(** The prediction maps of one pyramid level.  The three prediction
    convolutions are built with 1, [num_classes] and 4 output channels, and
    they read feature maps of one spatial size, so a level is its size
    [(fmp_h, fmp_w)] and the entries of the three maps, addressed by
    channel, row and column (only the channels below 1, [num_classes] and
    4 are read). *)
Record head_out : Type := {
  fmp_h : nat;
  fmp_w : nat;
  obj_at : nat -> nat -> nat -> R;
  cls_at : nat -> nat -> nat -> R;
  reg_at : nat -> nat -> nat -> R
}.

(** [pred[0].permute(1, 2, 0).contiguous()] for a map of [C] channels,
    [[1, C, H, W] -> [H, W, C]], read cell by cell in row-major order: one
    row of [C] entries per cell. *)
Definition permute_rows (H W C : nat) (pred : nat -> nat -> nat -> R) : tensor :=
  flat_map (fun h => map (fun w => map (fun c => pred c h w) (seq 0 C)) (seq 0 W))
           (seq 0 H).

(** [t.view(-1, C)] on the [[H, W, C]] tensor: [[H, W, C] -> [M, C]].  With
    [C = 0] the tensor has no element, the size that [-1] stands for cannot
    be inferred and the call is refused. *)
Definition view_cols (C : nat) (t : tensor) : outcome tensor :=
  match C with
  | O => Raises RuntimeError
  | S _ => Returns t
  end.

(** What a call returns: the raw rows in no-decode mode, the triple
    [(bboxes, scores, labels)] otherwise. *)
Inductive output : Type :=
| Outputs (outputs : tensor)
| Detections (bboxes : tensor) (scores : list R) (labels : list nat).

(** [a.clip(0., 1.)] *)
Definition clip01 (v : R) : R := Rmin (Rmax v 0) 1.

(** The loop body over [zip(pyramid_feats, self.non_shared_heads)]. *)
Definition level_preds (cfg : config) (level : nat) (p : head_out)
  : outcome (tensor * tensor * tensor * option tensor) :=
  anchors <- (if no_decode cfg then Returns None
              else a <- generate_anchors cfg level (fmp_h p, fmp_w p) ;;
                   Returns (Some a)) ;;
  obj_pred <- view_cols 1 (permute_rows (fmp_h p) (fmp_w p) 1 (obj_at p)) ;;
  cls_pred <- view_cols (num_classes cfg)
                (permute_rows (fmp_h p) (fmp_w p) (num_classes cfg) (cls_at p)) ;;
  reg_pred <- view_cols 4 (permute_rows (fmp_h p) (fmp_w p) 4 (reg_at p)) ;;
  Returns (obj_pred, cls_pred, reg_pred, anchors).

(** [inference_single_image], from the loop over the levels on.  [preds]
    holds the prediction maps of the pyramid levels; there is one head per
    stride and [zip] stops at the shorter of the two lists. *)
Definition inference_single_image (cfg : config) (img_h img_w : nat)
    (preds : list head_out) : outcome output :=
  levels <- mapM (fun lp => level_preds cfg (fst lp) (snd lp))
                 (enumerate (firstn (length (stride cfg)) preds)) ;;
  let all_obj_preds := map (fun l => fst (fst (fst l))) levels in
  let all_cls_preds := map (fun l => snd (fst (fst l))) levels in
  let all_reg_preds := map (fun l => snd (fst l)) levels in
  let all_anchors := map (fun l => snd l) levels in
  if no_decode cfg then
    (* no post process *)
    obj_preds <- torch_cat all_obj_preds ;;
    cls_preds <- torch_cat all_cls_preds ;;
    reg_preds <- torch_cat all_reg_preds ;;
    Returns (Outputs (cat_cols (cat_cols reg_preds (tmap sigmoid obj_preds))
                               (tmap sigmoid cls_preds)))
  else
    r <- post_process cfg all_obj_preds all_cls_preds all_reg_preds all_anchors ;;
    match r with
    | (bboxes, scores, labels) =>
        (* normalize bbox *)
        let bboxes := tmap (fun v => v / INR (Nat.max img_h img_w)) bboxes in
        let bboxes := tmap clip01 bboxes in
        Returns (Detections bboxes scores labels)
    end.

End Pipeline.

(** ** The no-decode rows, as the specification words them

    For one cell, the concatenation
    [[box_regression, sigmoid(objectness), sigmoid(class scores)]] with the
    box regression left as the network produced it; for one level, the rows
    of its cells in row-major order; for a call, the rows of all levels. *)

Definition raw_cell_row (C : nat) (p : head_out) (h w : nat) : list R :=
  map (fun k => reg_at p k h w) (seq 0 4)
  ++ map (fun k => sigmoid (obj_at p k h w)) (seq 0 1)
  ++ map (fun c => sigmoid (cls_at p c h w)) (seq 0 C).

Definition raw_level_rows (C : nat) (p : head_out) : tensor :=
  flat_map (fun h => map (fun w => raw_cell_row C p h w) (seq 0 (fmp_w p)))
           (seq 0 (fmp_h p)).

Definition raw_rows (C : nat) (levels : list head_out) : tensor :=
  flat_map (raw_level_rows C) levels.

(** ** Auxiliary notions for the statements

    The candidates of a level (or of all levels) are three lists read in
    parallel.  [candidates_ok] says that they are aligned, that every score
    lies above the confidence threshold and is at most 1, and that every
    label is a class.  [level_tensors] is what the loop of
    [inference_single_image] appends for one level when it decodes. *)

Definition candidates_ok (cfg : config) (r : list R * list nat * tensor) : Prop :=
  length (fst (fst r)) = length (snd (fst r)) /\
  length (snd r) = length (snd (fst r)) /\
  Forall (fun sc => conf_thresh cfg < sc <= 1) (fst (fst r)) /\
  Forall (fun l => (l < num_classes cfg)%nat) (snd (fst r)).

Definition level_tensors (cfg : config) (lp : nat * head_out)
  : tensor * tensor * tensor * option tensor :=
  let p := snd lp in
  (permute_rows (fmp_h p) (fmp_w p) 1 (obj_at p),
   permute_rows (fmp_h p) (fmp_w p) (num_classes cfg) (cls_at p),
   permute_rows (fmp_h p) (fmp_w p) 4 (reg_at p),
   Some (tmap (fun v => v * IZR (nth (fst lp) (stride cfg) 0%Z))
              (tmap (fun v => v + 0.5) (meshgrid_xy (fmp_h p) (fmp_w p))))).

(** The configurations the specification calls invalid: an NMS threshold
    outside [[0, 1]] or a negative [topk]. *)
Definition invalid_configuration (cfg : config) : Prop :=
  ~ (0 <= nms_thresh cfg <= 1) \/ (topk cfg < 0)%Z.

(** ** Sample data

    The defaults of [__init__] with the three strides of the pyramid, and
    small inputs on which the statements below are exercised. *)

Definition default_config : config := {|
  stride := [8; 16; 32]%Z;
  num_classes := 20;
  conf_thresh := 0.05;
  nms_thresh := 0.6;
  topk := 1000;
  no_decode := false
|}.

(** One level of stride 8 with a single cell and two classes: objectness
    logit 10, class logits [10] and [-10], regression [(0, 0, 0, 0)]. *)
Definition one_cell_config : config := {|
  stride := [8]%Z;
  num_classes := 2;
  conf_thresh := 0.05;
  nms_thresh := 0.6;
  topk := 1000;
  no_decode := false
|}.

Definition one_cell_head : head_out := {|
  fmp_h := 1;
  fmp_w := 1;
  obj_at := fun _ _ _ => 10;
  cls_at := fun c _ _ => if (c =? 0)%nat then 10 else -10;
  reg_at := fun _ _ _ => 0
|}.

Definition one_cell_obj : tensor := permute_rows 1 1 1 (obj_at one_cell_head).
Definition one_cell_cls : tensor := permute_rows 1 1 2 (cls_at one_cell_head).
Definition one_cell_reg : tensor := permute_rows 1 1 4 (reg_at one_cell_head).
Definition one_cell_anchors : tensor := [[4; 4]].

(** The scoring surface of that level and its top-k selection under the
    sort that lets the lower index win ties. *)
Definition one_cell_scores : list R :=
  fused_scores (permute_rows 1 1 1 (obj_at one_cell_head))
               (permute_rows 1 1 2 (cls_at one_cell_head)).

Definition one_cell_topk : list R * list nat :=
  topk_select argsort_first_wins one_cell_config one_cell_scores
              (permute_rows 1 1 4 (reg_at one_cell_head)).

(** Two candidates of one class with disjoint boxes. *)
Definition two_scores : list R := [0.9; 0.5].
Definition two_labels : list nat := [0%nat; 0%nat].
Definition two_boxes : tensor := [[0; 0; 1; 1]; [2; 2; 3; 3]].

(** One cell whose two classes tie: all logits are 0. *)
Definition tie_head : head_out := {|
  fmp_h := 1;
  fmp_w := 1;
  obj_at := fun _ _ _ => 0;
  cls_at := fun _ _ _ => 0;
  reg_at := fun _ _ _ => 0
|}.

Definition tie_scores : list R :=
  fused_scores (permute_rows 1 1 1 (obj_at tie_head))
               (permute_rows 1 1 2 (cls_at tie_head)).

(** A configuration with an NMS threshold outside [[0, 1]] and a negative
    [topk]. *)
Definition out_of_range_config : config := {|
  stride := [8]%Z;
  num_classes := 2;
  conf_thresh := 0.05;
  nms_thresh := 2;
  topk := -1;
  no_decode := false
|}.

Definition one_cell_no_decode_config : config := {|
  stride := [8]%Z;
  num_classes := 2;
  conf_thresh := 0.05;
  nms_thresh := 0.6;
  topk := 1000;
  no_decode := true
|}.

(** ** The candidates of a level, in closed form

    [surviving_idxs] are the flat indices of the scoring surface that a
    level keeps: the top-k indices whose score exceeds [conf_thresh], in
    the order of the sort.  [level_candidates] is the triple
    [(scores, labels, bboxes)] that the loop of [post_process] appends for
    a level of the pyramid. *)

Definition surviving_idxs (argsort : list R -> list nat) (cfg : config)
    (obj cls reg : tensor) : list nat :=
  filter (fun i => Rgtb (nth i (fused_scores obj cls) 0) (conf_thresh cfg))
         (snd (topk_select argsort cfg (fused_scores obj cls) reg)).

Definition level_candidates (argsort : list R -> list nat) (cfg : config)
    (lp : nat * head_out) : list R * list nat * tensor :=
  let p := snd lp in
  let obj := permute_rows (fmp_h p) (fmp_w p) 1 (obj_at p) in
  let cls := permute_rows (fmp_h p) (fmp_w p) (num_classes cfg) (cls_at p) in
  let reg := permute_rows (fmp_h p) (fmp_w p) 4 (reg_at p) in
  let anchors := tmap (fun v => v * IZR (nth (fst lp) (stride cfg) 0%Z))
                      (tmap (fun v => v + 0.5) (meshgrid_xy (fmp_h p) (fmp_w p))) in
  let idxs := surviving_idxs argsort cfg obj cls reg in
  (map (fun i => nth i (fused_scores obj cls) 0) idxs,
   map (fun i => (i mod num_classes cfg)%nat) idxs,
   decode_boxes (map (fun i => nth (i / num_classes cfg) anchors []) idxs)
                (map (fun i => nth (i / num_classes cfg) reg []) idxs)
                (nth (fst lp) (stride cfg) 0%Z)).

(** Further sample configurations: a negative confidence threshold, and a
    confidence threshold of 1. *)
Definition negative_thresh_config : config := {|
  stride := [8]%Z;
  num_classes := 2;
  conf_thresh := -1;
  nms_thresh := 0.6;
  topk := 1000;
  no_decode := false
|}.

Definition unit_thresh_config : config := {|
  stride := [8]%Z;
  num_classes := 2;
  conf_thresh := 1;
  nms_thresh := 0.6;
  topk := 1000;
  no_decode := false
|}.

(** ** forward

    [forward] serves a whole batch.  When the model is not trainable it
    hands the batch to [inference_single_image], which reads image 0 of
    every prediction map ([obj_pred[0]] and the like); when it is trainable
    it decodes the boxes of every cell of every image and returns the raw
    predictions with them. *)

(** The prediction maps of one pyramid level for a batch, addressed by
    image, channel, row and column. *)
Record level_batch : Type := {
  lb_h : nat;
  lb_w : nat;
  lb_obj : nat -> nat -> nat -> nat -> R;
  lb_cls : nat -> nat -> nat -> nat -> R;
  lb_reg : nat -> nat -> nat -> nat -> R
}.

(** The maps of image [b] of the batch. *)
Definition image_of (b : nat) (lb : level_batch) : head_out := {|
  fmp_h := lb_h lb;
  fmp_w := lb_w lb;
  obj_at := lb_obj lb b;
  cls_at := lb_cls lb b;
  reg_at := lb_reg lb b
|}.

(** [pred.permute(0, 2, 3, 1).contiguous()]: [[B, C, H, W] -> [B, H, W, C]],
    one tensor of rows per image. *)
Definition permute_batch (B H W C : nat) (pred : nat -> nat -> nat -> nat -> R)
  : list tensor :=
  map (fun b => permute_rows H W C (pred b)) (seq 0 B).

(** [t.view(B, -1, C)]: with [B = 0] or [C = 0] the tensor has no element
    and the size that [-1] stands for cannot be inferred. *)
Definition view_batch (B C : nat) (t : list tensor) : outcome (list tensor) :=
  match B, C with
  | O, _ => Raises RuntimeError
  | _, O => Raises RuntimeError
  | _, _ => Returns t
  end.

(** The dictionary [forward] returns when the model is trainable. *)
Record train_outputs : Type := {
  pred_obj : list (list tensor);
  pred_cls : list (list tensor);
  pred_box : list (list tensor);
  out_anchors : list tensor;
  out_strides : list Z
}.

(** The body of the loop over the levels in the trainable branch.  In
    [decode_boxes] the anchors [[M, 2]] are broadcast over the images of
    [reg_pred], of shape [[B, M, 4]]. *)
Definition train_level (cfg : config) (B level : nat) (lb : level_batch)
  : outcome (list tensor * list tensor * list tensor * tensor) :=
  anchors <- generate_anchors cfg level (lb_h lb, lb_w lb) ;;
  obj_pred <- view_batch B 1 (permute_batch B (lb_h lb) (lb_w lb) 1 (lb_obj lb)) ;;
  cls_pred <- view_batch B (num_classes cfg)
                (permute_batch B (lb_h lb) (lb_w lb) (num_classes cfg) (lb_cls lb)) ;;
  reg_pred <- view_batch B 4 (permute_batch B (lb_h lb) (lb_w lb) 4 (lb_reg lb)) ;;
  (* decode box: [M, 4] *)
  s <- stride_at cfg level ;;
  let box_pred := map (fun reg_b => decode_boxes anchors reg_b s) reg_pred in
  Returns (obj_pred, cls_pred, box_pred, anchors).

(** [forward] on a batch of [B] images of size [img_h x img_w] whose
    prediction maps are [feats].  [obj_pred[0]] needs a first image. *)
Definition forward (argsort : list R -> list nat) (cfg : config) (trainable : bool)
    (img_h img_w B : nat) (feats : list level_batch)
  : outcome (output + train_outputs) :=
  if negb trainable then
    r <- match firstn (length (stride cfg)) feats, B with
         | _ :: _, O => Raises IndexError
         | _, _ => inference_single_image argsort cfg img_h img_w
                     (map (image_of 0) feats)
         end ;;
    Returns (inl r)
  else
    levels <- mapM (fun lp => train_level cfg B (fst lp) (snd lp))
                   (enumerate (firstn (length (stride cfg)) feats)) ;;
    Returns (inr {| pred_obj := map (fun l => fst (fst (fst l))) levels;
                    pred_cls := map (fun l => snd (fst (fst l))) levels;
                    pred_box := map (fun l => snd (fst l)) levels;
                    out_anchors := map (fun l => snd l) levels;
                    out_strides := stride cfg |}).

(** ** init_yolo

    The parameters [init_yolo] touches: [eps] and [momentum] of every
    batch-normalisation layer and the bias vectors of the objectness and
    class prediction convolutions of every level; the bias vectors of the
    regression convolutions are carried along untouched. *)

Record net_params : Type := {
  batch_norms : list (R * R);
  obj_bias : list (list R);
  cls_bias : list (list R);
  reg_bias : list (list R)
}.

Definition init_prob : R := 0.01.

(** [-torch.log(torch.tensor((1. - init_prob) / init_prob))] *)
Definition bias_value : R := - ln ((1 - init_prob) / init_prob).

(** [b.data.fill_(v)] *)
Definition fill_ (v : R) (b : list R) : list R := map (fun _ => v) b.

Definition init_yolo (np : net_params) : net_params := {|
  batch_norms := map (fun _ => (0.001, 0.03)) (batch_norms np);
  obj_bias := map (fill_ bias_value) (obj_bias np);
  cls_bias := map (fill_ bias_value) (cls_bias np);
  reg_bias := reg_bias np
|}.

(** A level whose objectness and class logits are the initial bias. *)
Definition bias_only_head (H W : nat) (reg : nat -> nat -> nat -> R) : head_out := {|
  fmp_h := H;
  fmp_w := W;
  obj_at := fun _ _ _ => bias_value;
  cls_at := fun _ _ _ => bias_value;
  reg_at := reg
|}.

(** Sample data for the batch: two images over one cell. *)
Definition two_image_level : level_batch := {|
  lb_h := 1;
  lb_w := 1;
  lb_obj := fun b _ _ _ => INR b;
  lb_cls := fun b c _ _ => INR b + INR c;
  lb_reg := fun b k _ _ => INR b - INR k
|}.

Definition sample_params : net_params := {|
  batch_norms := [(0.00001, 0.1); (0.00001, 0.1)];
  obj_bias := [[0]; [0.5]; [1]];
  cls_bias := [[0; 0]; [1; 2]; [3; 4]];
  reg_bias := [[0; 0; 0; 0]; [1; 1; 1; 1]; [2; 2; 2; 2]]
|}.

(** What the loop of the trainable branch appends for a level, in closed
    form. *)
Definition train_level_result (cfg : config) (B : nat) (lp : nat * level_batch)
  : list tensor * list tensor * list tensor * tensor :=
  let lb := snd lp in
  let s := nth (fst lp) (stride cfg) 0%Z in
  let anchors := tmap (fun v => v * IZR s)
                      (tmap (fun v => v + 0.5) (meshgrid_xy (lb_h lb) (lb_w lb))) in
  (permute_batch B (lb_h lb) (lb_w lb) 1 (lb_obj lb),
   permute_batch B (lb_h lb) (lb_w lb) (num_classes cfg) (lb_cls lb),
   map (fun reg_b => decode_boxes anchors reg_b s)
       (permute_batch B (lb_h lb) (lb_w lb) 4 (lb_reg lb)),
   anchors).

(** Two batches of prediction maps of a level that have the same size and
    the same image 0. *)
Definition same_first_image (lb lb' : level_batch) : Prop :=
  lb_h lb = lb_h lb' /\ lb_w lb = lb_w lb' /\
  (forall c h w, lb_obj lb 0 c h w = lb_obj lb' 0 c h w) /\
  (forall c h w, lb_cls lb 0 c h w = lb_cls lb' 0 c h w) /\
  (forall c h w, lb_reg lb 0 c h w = lb_reg lb' 0 c h w).

(** The level [two_image_level] with another second image. *)
Definition two_image_level' : level_batch := {|
  lb_h := 1;
  lb_w := 1;
  lb_obj := fun b _ _ _ => INR b * 7;
  lb_cls := fun b c _ _ => INR b * 5 + INR c;
  lb_reg := fun b k _ _ => INR b * 3 - INR k
|}.

(** * The backbone: [models/backbone/elannet.py]

    The layers of the backbone carry weights that are not part of the
    sources, so the backbone is modelled by what its code fixes: which
    layers are built with which arguments, how [forward] wires them, and
    the shape [[B, C, H, W]] of the tensor each layer returns or the error
    it raises.  The shape rules of [nn.Conv2d], [nn.BatchNorm2d], [nn.SiLU],
    [nn.MaxPool2d] and [torch.cat] are those of PyTorch. *)

Module ELAN.

Inductive error : Type :=
| ValueError
| AssertionError
| ShapeError.   (* a RuntimeError raised by a layer or by torch.cat *)

Inductive result (A : Type) : Type :=
| Ok (a : A)
| Err (e : error).

Arguments Ok {A} a.
Arguments Err {A} e.

Definition rbind {A B : Type} (c : result A) (k : A -> result B) : result B :=
  match c with
  | Ok a => k a
  | Err e => Err e
  end.

Notation "x <~ c ;; k" := (rbind c (fun x => k))
  (at level 61, c at next level, right associativity).

(** The shape [[B, C, H, W]] of a tensor. *)
Record shape : Type := {
  sB : nat;
  sC : nat;
  sH : nat;
  sW : nat
}.

Inductive layer : Type :=
| Conv2d (in_channels out_channels kernel_size stride padding dilation groups : nat)
| BatchNorm2d (num_features : nat)
| SiLU
| MaxPool2d (kernel_size stride : nat).

(** [nn.Conv2d(c_in, c_out, kernel_size=k, stride=s, padding=p, dilation=d,
    groups=g, bias=False)]: the constructor refuses a number of groups that
    is not positive or does not divide both channel counts. *)
Definition mk_Conv2d (c_in c_out k s p d g : nat) : result layer :=
  if (g =? 0)%nat then Err ValueError
  else if negb (c_in mod g =? 0)%nat then Err ValueError
  else if negb (c_out mod g =? 0)%nat then Err ValueError
  else Ok (Conv2d c_in c_out k s p d g).

(** The size of one spatial dimension after a convolution:
    [floor((n + 2p - d(k-1) - 1) / s) + 1], refused when the padded input
    is smaller than the dilated kernel or an argument is 0. *)
Definition conv_out (n k s p d : nat) : result nat :=
  if ((k =? 0) || (s =? 0) || (d =? 0))%nat then Err ShapeError
  else if (n + 2 * p <? d * (k - 1) + 1)%nat then Err ShapeError
  else Ok ((n + 2 * p - (d * (k - 1) + 1)) / s + 1)%nat.

(** The size of one spatial dimension after [nn.MaxPool2d((k, k), s)]
    (no padding, no dilation, floor mode). *)
Definition pool_out (n k s : nat) : result nat :=
  if ((k =? 0) || (s =? 0))%nat then Err ShapeError
  else if (n <? k)%nat then Err ShapeError
  else Ok ((n - k) / s + 1)%nat.

(** The shape a layer returns.  A convolution refuses a weight with fewer
    output channels than groups (so one with no output channel) and an
    input whose channels are not those of the weight.  [training] is the
    mode of the module: a batch normalisation in training mode first
    refuses an input with a single value per channel. *)
Definition layer_forward (training : bool) (l : layer) (x : shape) : result shape :=
  match l with
  | Conv2d c_in c_out k s p d g =>
      if (c_out <? g)%nat then Err ShapeError
      else if negb (sC x =? c_in)%nat then Err ShapeError
      else h <~ conv_out (sH x) k s p d ;;
           w <~ conv_out (sW x) k s p d ;;
           Ok {| sB := sB x; sC := c_out; sH := h; sW := w |}
  | BatchNorm2d c =>
      if training && (sB x * sH x * sW x =? 1)%nat then Err ValueError
      else if negb (sC x =? c)%nat then Err ShapeError
      else Ok x
  | SiLU => Ok x
  | MaxPool2d k s =>
      h <~ pool_out (sH x) k s ;;
      w <~ pool_out (sW x) k s ;;
      Ok {| sB := sB x; sC := sC x; sH := h; sW := w |}
  end.

(** [nn.Sequential] of the layers, applied to [x]. *)
Fixpoint run (training : bool) (layers : list layer) (x : shape) : result shape :=
  match layers with
  | [] => Ok x
  | l :: layers' => y <~ layer_forward training l x ;; run training layers' y
  end.

(** [torch.cat(xs, dim=1)]: every other dimension has to agree. *)
Definition same_but_channels (x y : shape) : bool :=
  ((sB x =? sB y) && (sH x =? sH y) && (sW x =? sW y))%nat.

Definition cat_channels (xs : list shape) : result shape :=
  match xs with
  | [] => Err ShapeError
  | x :: rest =>
      if forallb (same_but_channels x) rest
      then Ok {| sB := sB x; sC := list_sum (map sC xs); sH := sH x; sW := sW x |}
      else Err ShapeError
  end.

(** ** Conv: the basic conv layer *)

Definition act_layers (act : bool) : list layer := if act then [SiLU] else [].

(** [Conv(c1, c2, k, p, s, d, act, depthwise).__init__]: the list handed to
    [nn.Sequential].  Note that the pointwise convolution of the depthwise
    variant is built with [stride=s] as well. *)
Definition Conv (c1 c2 k p s d : nat) (act depthwise : bool) : result (list layer) :=
  if depthwise then
    (* depthwise conv *)
    dw <~ mk_Conv2d c1 c1 k s p d c1 ;;
    (* pointwise conv *)
    pw <~ mk_Conv2d c1 c2 1 s 0 d 1 ;;
    Ok ([dw; BatchNorm2d c1] ++ act_layers act
        ++ [pw; BatchNorm2d c2] ++ act_layers act)
  else
    cv <~ mk_Conv2d c1 c2 k s p d 1 ;;
    Ok ([cv; BatchNorm2d c2] ++ act_layers act).

(** ** ELANBlock *)

Record ELANBlock : Type := {
  eb_cv1 : list layer;
  eb_cv2 : list layer;
  eb_cv3 : list layer;
  eb_cv4 : list layer;
  eb_out : list layer
}.

(** [int(in_dim * expand_ratio)]: the product, then truncation toward 0.
    The ratio is a rational number and the product is exact.  Python
    rounds the product to a float before it truncates, which makes no
    difference for a ratio that is a power of two, [2^-k], as 0.5 and
    0.25, the ratios the code uses, are: the properties of the blocks are
    stated for those ratios. *)
Definition int_times (in_dim : nat) (expand_ratio : QArith_base.Q) : Z :=
  let q := QArith_base.Qmult (QArith_base.inject_Z (Z.of_nat in_dim)) expand_ratio in
  if QArith_base.Qle_bool (QArith_base.inject_Z 0) q then Qround.Qfloor q
  else (- Qround.Qfloor (QArith_base.Qopp q))%Z.

(** [ELANBlock(in_dim, out_dim, expand_ratio, depthwise).__init__].  A
    negative [inter_dim] is refused by the first convolution built with
    it; [assert inter_dim*4 == out_dim] comes after the four branches. *)
Definition mk_ELANBlock (in_dim out_dim : nat) (expand_ratio : QArith_base.Q)
    (depthwise : bool) : result ELANBlock :=
  let inter := int_times in_dim expand_ratio in
  if (inter <? 0)%Z then Err ShapeError
  else
    let inter_dim := Z.to_nat inter in
    cv1 <~ Conv in_dim inter_dim 1 0 1 1 true false ;;
    cv2 <~ Conv in_dim inter_dim 1 0 1 1 true false ;;
    cv3a <~ Conv inter_dim inter_dim 3 1 1 1 true depthwise ;;
    cv3b <~ Conv inter_dim inter_dim 3 1 1 1 true depthwise ;;
    cv4a <~ Conv inter_dim inter_dim 3 1 1 1 true depthwise ;;
    cv4b <~ Conv inter_dim inter_dim 3 1 1 1 true depthwise ;;
    if negb (inter_dim * 4 =? out_dim)%nat then Err AssertionError
    else
      out <~ Conv (inter_dim * 4) out_dim 1 0 1 1 true false ;;
      Ok {| eb_cv1 := cv1; eb_cv2 := cv2; eb_cv3 := cv3a ++ cv3b;
            eb_cv4 := cv4a ++ cv4b; eb_out := out |}.

Definition ELANBlock_forward (training : bool) (m : ELANBlock) (x : shape)
  : result shape :=
  x1 <~ run training (eb_cv1 m) x ;;
  x2 <~ run training (eb_cv2 m) x ;;
  x3 <~ run training (eb_cv3 m) x2 ;;
  x4 <~ run training (eb_cv4 m) x3 ;;
  c <~ cat_channels [x1; x2; x3; x4] ;;
  run training (eb_out m) c.

(** ** DownSample *)

Record DownSample : Type := {
  ds_mp : list layer;
  ds_cv1 : list layer;
  ds_cv2 : list layer
}.

Definition mk_DownSample (in_dim : nat) : result DownSample :=
  let inter_dim := (in_dim / 2)%nat in
  cv1 <~ Conv in_dim inter_dim 1 0 1 1 true false ;;
  cv2a <~ Conv in_dim inter_dim 1 0 1 1 true false ;;
  cv2b <~ Conv inter_dim inter_dim 3 1 2 1 true false ;;
  Ok {| ds_mp := [MaxPool2d 2 2]; ds_cv1 := cv1; ds_cv2 := cv2a ++ cv2b |}.

Definition DownSample_forward (training : bool) (m : DownSample) (x : shape)
  : result shape :=
  p <~ run training (ds_mp m) x ;;
  x1 <~ run training (ds_cv1 m) p ;;
  x2 <~ run training (ds_cv2 m) x ;;
  cat_channels [x1; x2].

(** ** ELANNet *)

Record ELANNet : Type := {
  layer_1 : list layer;
  layer_2_conv : list layer;
  layer_2_elan : ELANBlock;
  layer_3_down : DownSample;
  layer_3_elan : ELANBlock;
  layer_4_down : DownSample;
  layer_4_elan : ELANBlock;
  layer_5_down : DownSample;
  layer_5_elan : ELANBlock
}.

Definition half : QArith_base.Q := QArith_base.Qmake 1 2.
Definition quarter : QArith_base.Q := QArith_base.Qmake 1 4.

Definition mk_ELANNet (depthwise : bool) : result ELANNet :=
  l1a <~ Conv 3 32 3 1 1 1 true depthwise ;;
  l1b <~ Conv 32 64 3 1 2 1 true depthwise ;;
  l1c <~ Conv 64 64 3 1 1 1 true depthwise ;;
  l2a <~ Conv 64 128 3 1 2 1 true depthwise ;;
  l2b <~ mk_ELANBlock 128 256 half depthwise ;;
  l3a <~ mk_DownSample 256 ;;
  l3b <~ mk_ELANBlock 256 512 half depthwise ;;
  l4a <~ mk_DownSample 512 ;;
  l4b <~ mk_ELANBlock 512 1024 half depthwise ;;
  l5a <~ mk_DownSample 1024 ;;
  l5b <~ mk_ELANBlock 1024 1024 quarter depthwise ;;
  Ok {| layer_1 := l1a ++ l1b ++ l1c;
        layer_2_conv := l2a; layer_2_elan := l2b;
        layer_3_down := l3a; layer_3_elan := l3b;
        layer_4_down := l4a; layer_4_elan := l4b;
        layer_5_down := l5a; layer_5_elan := l5b |}.

(** The dictionary [forward] returns. *)
Record outputs : Type := {
  out_layer2 : shape;
  out_layer3 : shape;
  out_layer4 : shape
}.

Definition ELANNet_forward (training : bool) (m : ELANNet) (x : shape)
  : result outputs :=
  c1 <~ run training (layer_1 m) x ;;
  c2 <~ (y <~ run training (layer_2_conv m) c1 ;;
         ELANBlock_forward training (layer_2_elan m) y) ;;
  c3 <~ (y <~ DownSample_forward training (layer_3_down m) c2 ;;
         ELANBlock_forward training (layer_3_elan m) y) ;;
  c4 <~ (y <~ DownSample_forward training (layer_4_down m) c3 ;;
         ELANBlock_forward training (layer_4_elan m) y) ;;
  c5 <~ (y <~ DownSample_forward training (layer_5_down m) c4 ;;
         ELANBlock_forward training (layer_5_elan m) y) ;;
  Ok {| out_layer2 := c3; out_layer3 := c4; out_layer4 := c5 |}.

(** [build_elannet(pretrained=False)]: the backbone and [feat_dims].  The
    branch for [pretrained=True] downloads a checkpoint and is left out,
    but for its loop over the keys of the checkpoint, modelled below. *)
Definition build_elannet : result (ELANNet * list nat) :=
  backbone <~ mk_ELANNet false ;;
  Ok (backbone, [512; 1024; 1024]%nat).

(** ** The check of a checkpoint in [build_elannet]

    A state dict maps the names of the parameters to tensors, of which the
    check reads the shape only; it is a list of entries with distinct
    names, in insertion order. *)

Definition state_dict : Type := list (String.string * list nat).

Definition dict_get (d : state_dict) (k : String.string) : option (list nat) :=
  option_map snd (find (fun e => String.eqb (fst e) k) d).

(** [d.pop(k)] for a key that is present. *)
Definition dict_pop (d : state_dict) (k : String.string) : state_dict :=
  filter (fun e => negb (String.eqb (fst e) k)) d.

Definition shape_eqb (a b : list nat) : bool :=
  if list_eq_dec Nat.eq_dec a b then true else false.

(** One turn of [for k in list(checkpoint_state_dict.keys())].  The key
    comes from the checkpoint, whose names are distinct, so it is still
    there when its shape is read. *)
Definition check_key (model_state_dict : state_dict) (checkpoint : state_dict)
    (k : String.string) : state_dict :=
  match dict_get model_state_dict k with
  | Some shape_model =>
      match dict_get checkpoint k with
      | Some shape_checkpoint =>
          if negb (shape_eqb shape_model shape_checkpoint)
          then dict_pop checkpoint k
          else checkpoint
      | None => checkpoint
      end
  | None => dict_pop checkpoint k
  end.

(** The loop, over the keys the checkpoint has when the loop starts. *)
Definition check_checkpoint (model_state_dict checkpoint : state_dict) : state_dict :=
  fold_left (check_key model_state_dict) (map fst checkpoint) checkpoint.

(** A model and a checkpoint for it: one tensor of the checkpoint agrees
    with the model, one has another shape, one has a name the model
    lacks. *)
Section Samples.
Local Open Scope string_scope.

Definition sample_model_state : state_dict :=
  [("cv1.weight", [32; 3; 3; 3]%nat); ("cv1.bias", [64]%nat)].

Definition sample_checkpoint : state_dict :=
  [("cv1.weight", [32; 3; 3; 3]%nat); ("cv1.bias", [32]%nat);
   ("head.weight", [80; 256]%nat)].

End Samples.

End ELAN.

(** * The pipeline over float32

    The definitions above read the arithmetic of the code over the real
    numbers.  The tensors of the code hold [float32] values, whose
    arithmetic rounds, overflows to an infinity and has a NaN.  This module
    is the same code, operation by operation, over IEEE 754 binary32
    ([SpecFloat] with a precision of 24 bits and [emax = 128], rounding to
    nearest even): it shows where the code leaves the real-number
    reading. *)

Module F32.

Local Open Scope Z_scope.

Definition prec : Z := 24.
Definition emax : Z := 128.

Definition float32 : Type := spec_float.

(** The float32 nearest to [m * 2^e]. *)
Definition dyadic (m e : Z) : float32 := binary_normalize prec emax m e false.

(** An integer as a float32: [.float()] of an integer tensor, a Python
    [int] that meets a float32 tensor. *)
Definition of_Z (z : Z) : float32 := dyadic z 0.
Definition of_nat (n : nat) : float32 := of_Z (Z.of_nat n).

Definition zero : float32 := S754_zero false.
Definition one : float32 := of_Z 1.
Definition half : float32 := dyadic 1 (-1).
Definition inf : float32 := S754_infinity false.
Definition nan : float32 := S754_nan.

Definition add : float32 -> float32 -> float32 := SFadd prec emax.
Definition sub : float32 -> float32 -> float32 := SFsub prec emax.
Definition mul : float32 -> float32 -> float32 := SFmul prec emax.
Definition div : float32 -> float32 -> float32 := SFdiv prec emax.
Definition sqrt : float32 -> float32 := SFsqrt prec emax.

(** [a > b], [a <= b] and [a == b]: false when an operand is NaN. *)
Definition gtb (a b : float32) : bool := SFltb b a.
Definition leb (a b : float32) : bool := SFleb a b.
Definition eqb (a b : float32) : bool := SFeqb a b.

Definition is_nan (x : float32) : bool :=
  match x with
  | S754_nan => true
  | _ => false
  end.

Definition is_finite (x : float32) : bool :=
  match x with
  | S754_zero _ | S754_finite _ _ _ => true
  | _ => false
  end.

(** ** The kernels [exp] and [sigmoid]

    [torch.exp] and [torch.sigmoid] are library kernels.  They are
    modelled by the value of the real function, computed in fixed point
    with 256 fractional bits and then rounded to the nearest float32; a
    kernel of the library returns this float32 or a neighbour of it.  What
    the format itself fixes is the same for every kernel: [exp 0 = 1],
    [sigmoid 0 = 0.5], [exp x] is [+inf] from [x = 89] on (e^89 is larger
    than the largest float32, about 3.4e38) and [0] up to [x = -104]
    (e^-104 is less than half the smallest positive float32, 2^-149). *)

Definition frac_bits : Z := 256.
Definition fx_one : Z := 2 ^ frac_bits.

(** [± m * 2^e] in fixed point. *)
Definition to_fixed (s : bool) (m : positive) (e : Z) : Z :=
  let a := Z.shiftl (Zpos m) (e + frac_bits) in
  if s then - a else a.

(** The Taylor series of the exponential at [y], [|y| <= 1/2]:
    [n] further terms after [term], the term of index [k - 1]. *)
Fixpoint taylor (n : nat) (y k term acc : Z) : Z :=
  match n with
  | O => acc
  | S n' =>
      let term' := term * y / fx_one / k in
      taylor n' y (k + 1) term' (acc + term')
  end.

Definition square (z : Z) : Z := z * z / fx_one.

(** [e^x] for [|x| <= 128]: [(e^(x / 256))^256]. *)
Definition exp_fixed (x : Z) : Z :=
  Nat.iter 8 square (taylor 60 (Z.shiftr x 8) 1 fx_one fx_one).

Definition exp (x : float32) : float32 :=
  match x with
  | S754_nan => nan
  | S754_infinity false => inf
  | S754_infinity true => zero
  | S754_zero _ => one
  | S754_finite s m e =>
      if leb (of_Z 89) x then inf
      else if leb x (of_Z (-104)) then zero
      else dyadic (exp_fixed (to_fixed s m e)) (- frac_bits)
  end.

(** [1 / (1 + e^-x)]; it rounds to 1 from [x = 128] on and to 0 up to
    [x = -128]. *)
Definition sigmoid (x : float32) : float32 :=
  match x with
  | S754_nan => nan
  | S754_infinity false => one
  | S754_infinity true => zero
  | S754_zero _ => half
  | S754_finite s m e =>
      if leb (of_Z 128) x then one
      else if leb x (of_Z (-128)) then zero
      else dyadic (fx_one * fx_one / (fx_one + exp_fixed (- to_fixed s m e)))
                  (- frac_bits)
  end.

(** ** Tensors *)

Definition tensor : Type := list (list float32).

Definition tmap (f : float32 -> float32) (t : tensor) : tensor := map (map f) t.

Definition tzip (f : float32 -> float32 -> float32) (a b : tensor) : tensor :=
  map (fun rr => map (fun xy => f (fst xy) (snd xy)) (combine (fst rr) (snd rr)))
      (combine a b).

Definition cols_to (n : nat) (t : tensor) : tensor := map (firstn n) t.
Definition cols_from (n : nat) (t : tensor) : tensor := map (skipn n) t.

Definition cat_cols (a b : tensor) : tensor :=
  map (fun rr => fst rr ++ snd rr) (combine a b).

Definition flatten (t : tensor) : list float32 := concat t.

(** ** Configuration

    The two thresholds are Python floats; they meet float32 tensors and
    are given here as the float32 values of those comparisons. *)

Record config : Type := {
  stride : list Z;
  num_classes : nat;
  conf_thresh : float32;
  nms_thresh : float32;
  topk : Z;
  no_decode : bool
}.

Definition stride_at (cfg : config) (level : nat) : outcome Z :=
  lookup (stride cfg) level.

(** ** generate_anchors *)

Definition meshgrid_xy (fmp_h fmp_w : nat) : tensor :=
  flat_map (fun i => map (fun j => [of_nat j; of_nat i]) (seq 0 fmp_w)) (seq 0 fmp_h).

Definition generate_anchors (cfg : config) (level : nat) (fmp_size : nat * nat)
  : outcome tensor :=
  let (fmp_h, fmp_w) := fmp_size in
  let anchor_xy := tmap (fun v => add v half) (meshgrid_xy fmp_h fmp_w) in
  s <- stride_at cfg level ;;
  Returns (tmap (fun v => mul v (of_Z s)) anchor_xy).

(** ** decode_boxes *)

Definition decode_boxes (anchors pred_regs : tensor) (stride : Z) : tensor :=
  (* center of bbox *)
  let pred_ctr_xy :=
    tzip add anchors (tmap (fun v => mul v (of_Z stride)) (cols_to 2 pred_regs)) in
  (* size of bbox *)
  let pred_box_wh :=
    tmap (fun v => mul v (of_Z stride)) (tmap exp (cols_from 2 pred_regs)) in
  let pred_x1y1 := tzip sub pred_ctr_xy (tmap (fun v => mul half v) pred_box_wh) in
  let pred_x2y2 := tzip add pred_ctr_xy (tmap (fun v => mul half v) pred_box_wh) in
  cat_cols pred_x1y1 pred_x2y2.

(** ** Sorting

    As above, the sort is a parameter of the pipeline.  The instance below
    puts the higher score first and, among equal scores, the lower index
    first. *)

Definition score_desc_index_asc (scores : list float32) (i j : nat) : bool :=
  gtb (nth i scores nan) (nth j scores nan)
  || (eqb (nth i scores nan) (nth j scores nan) && (i <=? j)%nat).

Definition argsort_first_wins (scores : list float32) : list nat :=
  isort_by (score_desc_index_asc scores) (seq 0 (length scores)).

(** ** multiclass_nms *)

(** Modelled from the spec: the larger and the smaller of two numbers, as
    the IoU of [multiclass_nms] (not among the sources) needs them. *)
Definition fmax (a b : float32) : float32 := if SFltb a b then b else a.
Definition fmin (a b : float32) : float32 := if SFltb b a then b else a.

(** Modelled from the spec: the coordinates [(x1, y1, x2, y2)] of a box, a
    row of the box array handed to [multiclass_nms] (not among the
    sources). *)
Definition coord (b : list float32) (k : nat) : float32 := nth k b zero.

(** Modelled from the spec: the area of a box in the IoU of
    [multiclass_nms]; a box with zero or negative area contributes area 0. *)
Definition box_area (b : list float32) : float32 :=
  fmax zero (mul (sub (coord b 2) (coord b 0)) (sub (coord b 3) (coord b 1))).

(** Modelled from the spec: the intersection area in the IoU of
    [multiclass_nms]. *)
Definition inter_area (a b : list float32) : float32 :=
  mul (fmax zero (sub (fmin (coord a 2) (coord b 2)) (fmax (coord a 0) (coord b 0))))
      (fmax zero (sub (fmin (coord a 3) (coord b 3)) (fmax (coord a 1) (coord b 1)))).

(** Modelled from the spec: the union area in the IoU of [multiclass_nms],
    at least the intersection area. *)
Definition union_area (a b : list float32) : float32 :=
  fmax (inter_area a b) (sub (add (box_area a) (box_area b)) (inter_area a b)).

(** Modelled from the spec: the IoU of [multiclass_nms], and 0 when the
    union area is 0. *)
Definition iou (a b : list float32) : float32 :=
  if eqb (union_area a b) zero then zero else div (inter_area a b) (union_area a b).

(** Modelled from the spec: the greedy walk of [multiclass_nms] (not among
    the sources) over the sorted candidates of one class; [fuel] bounds
    the number of candidates kept, which is at most the number of
    candidates. *)
Fixpoint greedy_walk (fuel : nat) (boxes : tensor) (iouThresh : float32)
    (remaining : list nat) : list nat :=
  match fuel, remaining with
  | S fuel', i :: rest =>
      i :: greedy_walk fuel' boxes iouThresh
             (filter (fun j => negb (gtb (iou (nth i boxes []) (nth j boxes [])) iouThresh))
                     rest)
  | _, _ => []
  end.

Definition greedy (boxes : tensor) (iouThresh : float32) (remaining : list nat)
  : list nat :=
  greedy_walk (length remaining) boxes iouThresh remaining.

(** Modelled from the spec: the retained indices of [multiclass_nms] (not
    among the sources): per class, the candidates of the class sorted by
    score descending (ties by index ascending), then the greedy walk. *)
Definition suppress (boxes : tensor) (scores : list float32) (classIds : list nat)
                    (iouThresh : float32) (numClasses : nat) : list nat :=
  flat_map (fun c =>
              greedy boxes iouThresh
                (isort_by (score_desc_index_asc scores) (NMS.gather_class classIds c)))
           (seq 0 numClasses).

(** Modelled from the spec: [multiclass_nms] of [utils/nms.py] (not among
    the sources), as [post_process] calls it. *)
Definition multiclass_nms (scores : list float32) (labels : list nat) (bboxes : tensor)
                          (nms_thresh : float32) (num_classes : nat)
  : list float32 * list nat * tensor :=
  let keep := suppress bboxes scores labels nms_thresh num_classes in
  (map (fun i => nth i scores nan) keep,
   map (fun i => nth i labels 0%nat) keep,
   map (fun i => nth i bboxes []) keep).

(** ** post_process *)

Definition tmul_bcast (a b : tensor) : tensor :=
  map (fun rr => map (fun v => mul (nth 0 (fst rr) nan) v) (snd rr)) (combine a b).

Section Pipeline.

Variable argsort : list float32 -> list nat.

Definition sort_descending (scores : list float32) : list float32 * list nat :=
  let idxs := argsort scores in
  (map (fun i => nth i scores nan) idxs, idxs).

Definition fused_scores (obj_pred_i cls_pred_i : tensor) : list float32 :=
  flatten (tmap sqrt (tmul_bcast (tmap sigmoid obj_pred_i) (tmap sigmoid cls_pred_i))).

Definition topk_select (cfg : config) (scores_i : list float32) (reg_pred_i : tensor)
  : list float32 * list nat :=
  let num_topk := Z.min (topk cfg) (Z.of_nat (length reg_pred_i)) in
  let (predicted_prob, topk_idxs) := sort_descending scores_i in
  (slice_to num_topk predicted_prob, slice_to num_topk topk_idxs).

Definition post_process_level (cfg : config) (level : nat)
    (obj_pred_i cls_pred_i reg_pred_i : tensor) (anchors_i : option tensor)
  : outcome (list float32 * list nat * tensor) :=
  let scores_i := fused_scores obj_pred_i cls_pred_i in
  let (topk_scores, topk_idxs) := topk_select cfg scores_i reg_pred_i in
  (* filter out the proposals with low confidence score *)
  let keep_idxs := map (fun s => gtb s (conf_thresh cfg)) topk_scores in
  let scores := mask_select topk_scores keep_idxs in
  let topk_idxs := mask_select topk_idxs keep_idxs in
  anchor_idxs <- floor_div_all topk_idxs (num_classes cfg) ;;
  let labels := map (fun i => (i mod num_classes cfg)%nat) topk_idxs in
  reg_pred_i <- index_select reg_pred_i anchor_idxs ;;
  anchors_i <- match anchors_i with
               | Some a => index_select a anchor_idxs
               | None => Raises TypeError
               end ;;
  (* decode box: [M, 4] *)
  s <- stride_at cfg level ;;
  Returns (scores, labels, decode_boxes anchors_i reg_pred_i s).

Definition post_process (cfg : config) (obj_preds cls_preds reg_preds : list tensor)
    (anchors : list (option tensor)) : outcome (tensor * list float32 * list nat) :=
  per_level <- mapM (fun lv =>
                       match lv with
                       | (level, (obj_pred_i, cls_pred_i, reg_pred_i, anchors_i)) =>
                           post_process_level cfg level
                             obj_pred_i cls_pred_i reg_pred_i anchors_i
                       end)
                    (enumerate (zip4 obj_preds cls_preds reg_preds anchors)) ;;
  scores <- torch_cat (map (fun r => fst (fst r)) per_level) ;;
  labels <- torch_cat (map (fun r => snd (fst r)) per_level) ;;
  bboxes <- torch_cat (map (fun r => snd r) per_level) ;;
  (* nms *)
  match multiclass_nms scores labels bboxes (nms_thresh cfg) (num_classes cfg) with
  | (scores, labels, bboxes) => Returns (bboxes, scores, labels)
  end.

(** ** inference_single_image *)

Record head_out : Type := {
  fmp_h : nat;
  fmp_w : nat;
  obj_at : nat -> nat -> nat -> float32;
  cls_at : nat -> nat -> nat -> float32;
  reg_at : nat -> nat -> nat -> float32
}.

Definition permute_rows (H W C : nat) (pred : nat -> nat -> nat -> float32) : tensor :=
  flat_map (fun h => map (fun w => map (fun c => pred c h w) (seq 0 C)) (seq 0 W))
           (seq 0 H).

Definition view_cols (C : nat) (t : tensor) : outcome tensor :=
  match C with
  | O => Raises RuntimeError
  | S _ => Returns t
  end.

Inductive output : Type :=
| Outputs (outputs : tensor)
| Detections (bboxes : tensor) (scores : list float32) (labels : list nat).

(** [a.clip(0., 1.)] on a NumPy array: the smaller of 1 and the larger of
    0 and the entry, and NaN for a NaN. *)
Definition clip01 (v : float32) : float32 :=
  match v with
  | S754_nan => nan
  | _ => if SFltb v zero then zero else if SFltb one v then one else v
  end.

Definition level_preds (cfg : config) (level : nat) (p : head_out)
  : outcome (tensor * tensor * tensor * option tensor) :=
  anchors <- (if no_decode cfg then Returns None
              else a <- generate_anchors cfg level (fmp_h p, fmp_w p) ;;
                   Returns (Some a)) ;;
  obj_pred <- view_cols 1 (permute_rows (fmp_h p) (fmp_w p) 1 (obj_at p)) ;;
  cls_pred <- view_cols (num_classes cfg)
                (permute_rows (fmp_h p) (fmp_w p) (num_classes cfg) (cls_at p)) ;;
  reg_pred <- view_cols 4 (permute_rows (fmp_h p) (fmp_w p) 4 (reg_at p)) ;;
  Returns (obj_pred, cls_pred, reg_pred, anchors).

Definition inference_single_image (cfg : config) (img_h img_w : nat)
    (preds : list head_out) : outcome output :=
  levels <- mapM (fun lp => level_preds cfg (fst lp) (snd lp))
                 (enumerate (firstn (length (stride cfg)) preds)) ;;
  let all_obj_preds := map (fun l => fst (fst (fst l))) levels in
  let all_cls_preds := map (fun l => snd (fst (fst l))) levels in
  let all_reg_preds := map (fun l => snd (fst l)) levels in
  let all_anchors := map (fun l => snd l) levels in
  if no_decode cfg then
    (* no post process *)
    obj_preds <- torch_cat all_obj_preds ;;
    cls_preds <- torch_cat all_cls_preds ;;
    reg_preds <- torch_cat all_reg_preds ;;
    Returns (Outputs (cat_cols (cat_cols reg_preds (tmap sigmoid obj_preds))
                               (tmap sigmoid cls_preds)))
  else
    r <- post_process cfg all_obj_preds all_cls_preds all_reg_preds all_anchors ;;
    match r with
    | (bboxes, scores, labels) =>
        (* normalize bbox *)
        let bboxes := tmap (fun v => div v (of_nat (Nat.max img_h img_w))) bboxes in
        let bboxes := tmap clip01 bboxes in
        Returns (Detections bboxes scores labels)
    end.

End Pipeline.

(** ** Sample data

    One level of stride 8 with one cell and one class.  The logits of the
    cell are 0, so its score is [sqrt (0.5 * 0.5) = 0.5], above the
    threshold 0.25.  Its regression is finite: [tx = 2^126], [ty = 0],
    [tw = 100], [th = 0]. *)

Definition overflow_config : config := {|
  stride := [8];
  num_classes := 1;
  conf_thresh := dyadic 1 (-2);
  nms_thresh := half;
  topk := 1000;
  no_decode := false
|}.

Definition overflow_reg : list float32 := [dyadic 1 126; zero; of_Z 100; zero].

Definition overflow_head : head_out := {|
  fmp_h := 1;
  fmp_w := 1;
  obj_at := fun _ _ _ => zero;
  cls_at := fun _ _ _ => zero;
  reg_at := fun k _ _ => nth k overflow_reg nan
|}.

End F32.

(** * Properties *)

(** ** Lists laid out as grids *)

Lemma grid_length (A : Type) (g : nat -> nat -> A) (W H a : nat) :
  length (flat_map (fun h => map (g h) (seq 0 W)) (seq a H)) = (H * W)%nat.
Proof.
  revert a. induction H as [|H IH]; intro a; simpl.
  - reflexivity.
  - rewrite length_app, length_map, length_seq, IH. reflexivity.
Qed.

Lemma grid_nth_error (A : Type) (g : nat -> nat -> A) (W H a row col : nat) :
  (row < H)%nat -> (col < W)%nat ->
  nth_error (flat_map (fun h => map (g h) (seq 0 W)) (seq a H)) (row * W + col)
  = Some (g (a + row)%nat col).
Proof.
  revert a row. induction H as [|H IH]; intros a row Hrow Hcol.
  - lia.
  - simpl. destruct row as [|row].
    + simpl. rewrite nth_error_app1 by (rewrite length_map, length_seq; exact Hcol).
      rewrite nth_error_map, nth_error_seq.
      apply Nat.ltb_lt in Hcol. rewrite Hcol. simpl.
      rewrite Nat.add_0_r. reflexivity.
    + rewrite nth_error_app2 by (rewrite length_map, length_seq; simpl; lia).
      rewrite length_map, length_seq.
      replace (S row * W + col - W)%nat with (row * W + col)%nat by (simpl; lia).
      rewrite IH by lia. f_equal. f_equal. lia.
Qed.

Lemma permute_rows_length (H W C : nat) (pred : nat -> nat -> nat -> R) :
  length (permute_rows H W C pred) = (H * W)%nat.
Proof.
  unfold permute_rows.
  apply (grid_length (fun h w => map (fun c => pred c h w) (seq 0 C))).
Qed.

Lemma permute_rows_nth_error (H W C : nat) (pred : nat -> nat -> nat -> R) (row col : nat) :
  (row < H)%nat -> (col < W)%nat ->
  nth_error (permute_rows H W C pred) (row * W + col)
  = Some (map (fun c => pred c row col) (seq 0 C)).
Proof.
  intros Hrow Hcol. unfold permute_rows.
  apply (grid_nth_error (fun h w => map (fun c => pred c h w) (seq 0 C)) 0 Hrow Hcol).
Qed.

Lemma tmap_length (f : R -> R) (t : tensor) : length (tmap f t) = length t.
Proof. apply length_map. Qed.

Lemma tmap_nth_error (f : R -> R) (t : tensor) (k : nat) :
  nth_error (tmap f t) k = option_map (map f) (nth_error t k).
Proof. apply nth_error_map. Qed.

(** ** generate_anchors *)

Lemma meshgrid_xy_length (H W : nat) : length (meshgrid_xy H W) = (H * W)%nat.
Proof. apply (grid_length (fun i j => [INR j; INR i])). Qed.

Lemma meshgrid_xy_nth_error (H W row col : nat) :
  (row < H)%nat -> (col < W)%nat ->
  nth_error (meshgrid_xy H W) (row * W + col) = Some [INR col; INR row].
Proof.
  intros Hrow Hcol.
  apply (grid_nth_error (fun i j => [INR j; INR i]) 0 Hrow Hcol).
Qed.

Lemma generate_anchors_returns (cfg : config) (level : nat) (s : Z) (H W : nat) :
  nth_error (stride cfg) level = Some s ->
  generate_anchors cfg level (H, W)
  = Returns (tmap (fun v => v * IZR s) (tmap (fun v => v + 0.5) (meshgrid_xy H W))).
Proof.
  intro Hs. unfold generate_anchors, stride_at, lookup. rewrite Hs. reflexivity.
Qed.

(** C5.  For a level of feature-map size [(H, W)] and stride [s],
    [generate_anchors] returns exactly [H * W] grid points; the point of
    cell [(row, col)] is [((col + 0.5) * s, (row + 0.5) * s)] and sits at
    position [row * W + col] (row-major order), which is also the position
    of the row of cell [(row, col)] in a prediction map flattened by
    [permute(1, 2, 0).view(-1, C)]. *)
Theorem generate_anchors_row_major
    (cfg : config) (level : nat) (s : Z) (H W C : nat)
    (pred : nat -> nat -> nat -> R) :
  nth_error (stride cfg) level = Some s ->
  exists anchors : tensor,
    generate_anchors cfg level (H, W) = Returns anchors /\
    length anchors = (H * W)%nat /\
    length (permute_rows H W C pred) = (H * W)%nat /\
    forall row col : nat, (row < H)%nat -> (col < W)%nat ->
      nth_error anchors (row * W + col)
        = Some [(INR col + 0.5) * IZR s; (INR row + 0.5) * IZR s] /\
      nth_error (permute_rows H W C pred) (row * W + col)
        = Some (map (fun c => pred c row col) (seq 0 C)).
Proof.
  intro Hs. eexists. split; [apply (generate_anchors_returns _ _ _ _ Hs)|].
  split; [rewrite !tmap_length; apply meshgrid_xy_length|].
  split; [apply permute_rows_length|].
  intros row col Hrow Hcol. split.
  - rewrite !tmap_nth_error, (meshgrid_xy_nth_error Hrow Hcol). reflexivity.
  - apply permute_rows_nth_error; assumption.
Qed.

Lemma generate_anchors_row_major_witness :
  nth_error (stride default_config) 1 = Some 16%Z /\
  exists anchors : tensor,
    generate_anchors default_config 1 (2, 3)%nat = Returns anchors /\
    length anchors = (2 * 3)%nat /\
    length (permute_rows 2 3 20 (fun _ _ _ => 0)) = (2 * 3)%nat /\
    forall row col : nat, (row < 2)%nat -> (col < 3)%nat ->
      nth_error anchors (row * 3 + col)
        = Some [(INR col + 0.5) * IZR 16; (INR row + 0.5) * IZR 16] /\
      nth_error (permute_rows 2 3 20 (fun _ _ _ => 0)) (row * 3 + col)
        = Some (map (fun c => 0) (seq 0 20)).
Proof.
  split; [reflexivity|].
  apply (@generate_anchors_row_major default_config 1 16 2 3 20 (fun _ _ _ => 0)).
  reflexivity.
Defined.

(** ** decode_boxes *)

Lemma decode_boxes_cons (a r : list R) (anchors pred_regs : tensor) (s : Z) :
  decode_boxes (a :: anchors) (r :: pred_regs) s
  = decode_boxes [a] [r] s ++ decode_boxes anchors pred_regs s.
Proof. reflexivity. Qed.

Lemma decode_boxes_length (anchors pred_regs : tensor) (s : Z) :
  length anchors = length pred_regs ->
  length (decode_boxes anchors pred_regs s) = length anchors.
Proof.
  intro Hlen. unfold decode_boxes, cat_cols, tzip, tmap, cols_to, cols_from.
  repeat rewrite ?length_map, ?length_combine, ?Hlen, ?Nat.min_id.
  reflexivity.
Qed.

(** One row of the result, written with the operations of the source. *)
Lemma decode_boxes_nth_error (anchors pred_regs : tensor) (s : Z) (k : nat)
    (ax ay tx ty tw th : R) :
  nth_error anchors k = Some [ax; ay] ->
  nth_error pred_regs k = Some [tx; ty; tw; th] ->
  nth_error (decode_boxes anchors pred_regs s) k
  = Some [ (ax + tx * IZR s) - 0.5 * (exp tw * IZR s);
           (ay + ty * IZR s) - 0.5 * (exp th * IZR s);
           (ax + tx * IZR s) + 0.5 * (exp tw * IZR s);
           (ay + ty * IZR s) + 0.5 * (exp th * IZR s) ].
Proof.
  revert anchors pred_regs.
  induction k as [|k IH]; intros [|a anchors] [|r pred_regs] Ha Hr;
    simpl in Ha, Hr; try discriminate.
  - injection Ha as ->. injection Hr as ->. reflexivity.
  - rewrite decode_boxes_cons.
    destruct (decode_boxes [a] [r] s) as [|row [|row' rest]] eqn:Hone.
    + apply (f_equal (@length _)) in Hone. rewrite decode_boxes_length in Hone by reflexivity.
      discriminate.
    + simpl. apply IH; assumption.
    + apply (f_equal (@length _)) in Hone. rewrite decode_boxes_length in Hone by reflexivity.
      discriminate.
Qed.

(** C4.  For every grid point [(ax, ay)], regression 4-tuple
    [(tx, ty, tw, th)] and stride [s] (at any position [k] of the tensors
    handed to [decode_boxes]), the decoded box has centre
    [cx = ax + tx * s], [cy = ay + ty * s], size [w = exp tw * s],
    [h = exp th * s] and corners [x1 = cx - w/2], [y1 = cy - h/2],
    [x2 = cx + w/2], [y2 = cy + h/2]; the corners are returned as they
    are, without clamping. *)
Theorem decode_boxes_formula (anchors pred_regs : tensor) (s : Z) (k : nat)
    (ax ay tx ty tw th : R) :
  nth_error anchors k = Some [ax; ay] ->
  nth_error pred_regs k = Some [tx; ty; tw; th] ->
  let cx := ax + tx * IZR s in
  let cy := ay + ty * IZR s in
  let w := exp tw * IZR s in
  let h := exp th * IZR s in
  nth_error (decode_boxes anchors pred_regs s) k
  = Some [cx - w / 2; cy - h / 2; cx + w / 2; cy + h / 2].
Proof.
  intros Ha Hr cx cy w h.
  rewrite (decode_boxes_nth_error _ _ s _ Ha Hr).
  subst cx cy w h. do 2 f_equal; [|f_equal; [|f_equal; [|f_equal]]]; lra.
Qed.

Lemma decode_boxes_formula_witness :
  nth_error [[4; 4]] 0 = Some [4; 4] /\
  nth_error [[0; 0; 0; 0]] 0 = Some [0; 0; 0; 0] /\
  nth_error (decode_boxes [[4; 4]] [[0; 0; 0; 0]] 8) 0
  = Some [ (4 + 0 * IZR 8) - exp 0 * IZR 8 / 2; (4 + 0 * IZR 8) - exp 0 * IZR 8 / 2;
           (4 + 0 * IZR 8) + exp 0 * IZR 8 / 2; (4 + 0 * IZR 8) + exp 0 * IZR 8 / 2 ].
Proof.
  split; [reflexivity|]. split; [reflexivity|].
  apply (@decode_boxes_formula [[4; 4]] [[0; 0; 0; 0]] 8 0 4 4 0 0 0 0); reflexivity.
Defined.




(** ** The monad and the loops *)

Lemma mapM_returns (A B : Type) (f : A -> outcome B) (g : A -> B) (l : list A) :
  (forall a, In a l -> f a = Returns (g a)) ->
  mapM f l = Returns (map g l).
Proof.
  induction l as [|a l IH]; intro Hf; simpl.
  - reflexivity.
  - rewrite (Hf a (or_introl eq_refl)). simpl.
    rewrite IH by (intros b Hb; apply Hf; right; exact Hb).
    reflexivity.
Qed.

Lemma torch_cat_returns (A : Type) (ts : list (list A)) :
  ts <> [] -> torch_cat ts = Returns (concat ts).
Proof. destruct ts; [congruence|reflexivity]. Qed.

Lemma enumerate_length (A : Type) (l : list A) : length (enumerate l) = length l.
Proof. unfold enumerate. rewrite length_combine, length_seq. apply Nat.min_id. Qed.

Lemma map_not_nil (A B : Type) (f : A -> B) (l : list A) : l <> [] -> map f l <> [].
Proof. destruct l; [congruence|discriminate]. Qed.

Lemma enumerate_not_nil (A : Type) (l : list A) : l <> [] -> enumerate l <> [].
Proof. destruct l; [congruence|discriminate]. Qed.

Lemma enumerate_map_snd (A B : Type) (f : A -> B) (l : list A) :
  map (fun lp => f (snd lp)) (enumerate l) = map f l.
Proof.
  unfold enumerate. generalize 0%nat.
  induction l as [|a l IH]; intro n; simpl; [reflexivity|].
  rewrite IH. reflexivity.
Qed.

Lemma enumerate_In (A : Type) (l : list A) (i : nat) (a : A) :
  In (i, a) (enumerate l) <-> nth_error l i = Some a.
Proof.
  unfold enumerate.
  assert (G : forall n, In (i, a) (combine (seq n (length l)) l)
                        <-> (n <= i)%nat /\ nth_error l (i - n) = Some a).
  { induction l as [|b l IH]; intro n; simpl.
    - split; [tauto|]. intros [_ H]. destruct (i - n)%nat; discriminate.
    - rewrite IH. split.
      + intros [H | [Hle H]].
        * injection H as -> ->. rewrite Nat.sub_diag. split; [lia|reflexivity].
        * split; [lia|]. replace (i - n)%nat with (S (i - S n)) by lia. exact H.
      + intros [Hle H]. destruct (Nat.eq_dec n i) as [->|Hne].
        * rewrite Nat.sub_diag in H. injection H as ->. left. reflexivity.
        * right. split; [lia|].
          replace (i - n)%nat with (S (i - S n)) in H by lia. exact H. }
  rewrite G, Nat.sub_0_r. split; [tauto|]. intro H. split; [lia|exact H].
Qed.

(** ** Column-wise concatenation of grids *)

Lemma combine_app_same (A B : Type) (a1 a2 : list A) (b1 b2 : list B) :
  length a1 = length b1 ->
  combine (a1 ++ a2) (b1 ++ b2) = combine a1 b1 ++ combine a2 b2.
Proof.
  revert b1. induction a1 as [|x a1 IH]; intros [|y b1] Hlen;
    simpl in *; try discriminate; [reflexivity|].
  rewrite IH by lia. reflexivity.
Qed.

Lemma cat_cols_app (a1 a2 b1 b2 : tensor) :
  length a1 = length b1 ->
  cat_cols (a1 ++ a2) (b1 ++ b2) = cat_cols a1 b1 ++ cat_cols a2 b2.
Proof.
  intro Hlen. unfold cat_cols.
  rewrite combine_app_same by exact Hlen. apply map_app.
Qed.

Lemma cat_cols_length (a b : tensor) :
  length a = length b -> length (cat_cols a b) = length a.
Proof.
  intro Hlen. unfold cat_cols.
  rewrite length_map, length_combine, Hlen, Nat.min_id. reflexivity.
Qed.

Lemma cat_cols_map (A : Type) (g1 g2 : A -> list R) (l : list A) :
  cat_cols (map g1 l) (map g2 l) = map (fun x => g1 x ++ g2 x) l.
Proof.
  unfold cat_cols. induction l as [|x l IH]; simpl; [reflexivity|].
  rewrite IH. reflexivity.
Qed.

Lemma cat_cols_grid (g1 g2 : nat -> nat -> list R) (W H a : nat) :
  cat_cols (flat_map (fun h => map (g1 h) (seq 0 W)) (seq a H))
           (flat_map (fun h => map (g2 h) (seq 0 W)) (seq a H))
  = flat_map (fun h => map (fun w => g1 h w ++ g2 h w) (seq 0 W)) (seq a H).
Proof.
  revert a. induction H as [|H IH]; intro a; simpl; [reflexivity|].
  rewrite cat_cols_app by (rewrite !length_map; reflexivity).
  rewrite cat_cols_map, IH. reflexivity.
Qed.

Lemma tmap_app (f : R -> R) (a b : tensor) : tmap f (a ++ b) = tmap f a ++ tmap f b.
Proof. apply map_app. Qed.

Lemma tmap_grid (f : R -> R) (g : nat -> nat -> list R) (W H a : nat) :
  tmap f (flat_map (fun h => map (g h) (seq 0 W)) (seq a H))
  = flat_map (fun h => map (fun w => map f (g h w)) (seq 0 W)) (seq a H).
Proof.
  revert a. induction H as [|H IH]; intro a; simpl; [reflexivity|].
  rewrite tmap_app, IH. unfold tmap at 1. rewrite map_map. reflexivity.
Qed.

Lemma raw_level_rows_length (C : nat) (p : head_out) :
  length (raw_level_rows C p) = (fmp_h p * fmp_w p)%nat.
Proof. apply (grid_length (fun h w => raw_cell_row C p h w)). Qed.

Lemma raw_rows_length (C : nat) (levels : list head_out) :
  length (raw_rows C levels)
  = list_sum (map (fun p => (fmp_h p * fmp_w p)%nat) levels).
Proof.
  unfold raw_rows. induction levels as [|p levels IH]; simpl; [reflexivity|].
  rewrite length_app, raw_level_rows_length, IH. reflexivity.
Qed.

Lemma no_decode_level_rows (C : nat) (p : head_out) :
  cat_cols (cat_cols (permute_rows (fmp_h p) (fmp_w p) 4 (reg_at p))
                     (tmap sigmoid (permute_rows (fmp_h p) (fmp_w p) 1 (obj_at p))))
           (tmap sigmoid (permute_rows (fmp_h p) (fmp_w p) C (cls_at p)))
  = raw_level_rows C p.
Proof.
  unfold permute_rows, raw_level_rows, raw_cell_row.
  rewrite !tmap_grid, !cat_cols_grid.
  apply flat_map_ext. intro h. apply map_ext. intro w.
  rewrite !map_map, <- app_assoc. reflexivity.
Qed.

Lemma no_decode_rows (C : nat) (levels : list head_out) :
  cat_cols
    (cat_cols (concat (map (fun p => permute_rows (fmp_h p) (fmp_w p) 4 (reg_at p)) levels))
              (tmap sigmoid
                 (concat (map (fun p => permute_rows (fmp_h p) (fmp_w p) 1 (obj_at p)) levels))))
    (tmap sigmoid
       (concat (map (fun p => permute_rows (fmp_h p) (fmp_w p) C (cls_at p)) levels)))
  = raw_rows C levels.
Proof.
  unfold raw_rows. induction levels as [|p levels IH]; simpl; [reflexivity|].
  rewrite !tmap_app.
  rewrite (@cat_cols_app (permute_rows _ _ 4 _))
    by (rewrite tmap_length, !permute_rows_length; reflexivity).
  rewrite cat_cols_app
    by (rewrite cat_cols_length, tmap_length, !permute_rows_length;
        rewrite ?tmap_length, ?permute_rows_length; reflexivity).
  rewrite no_decode_level_rows, IH. reflexivity.
Qed.

(** ** inference_single_image in no-decode mode *)

Lemma view_cols_returns (C : nat) (t : tensor) :
  (1 <= C)%nat -> view_cols C t = Returns t.
Proof. destruct C; [lia|reflexivity]. Qed.

Lemma level_preds_no_decode (cfg : config) (level : nat) (p : head_out) :
  no_decode cfg = true ->
  (1 <= num_classes cfg)%nat ->
  level_preds cfg level p
  = Returns (permute_rows (fmp_h p) (fmp_w p) 1 (obj_at p),
             permute_rows (fmp_h p) (fmp_w p) (num_classes cfg) (cls_at p),
             permute_rows (fmp_h p) (fmp_w p) 4 (reg_at p),
             None).
Proof.
  intros Hnd HC. unfold level_preds. rewrite Hnd.
  rewrite (view_cols_returns _ HC). reflexivity.
Qed.

Lemma inference_no_decode_returns (argsort : list R -> list nat) (cfg : config)
    (img_h img_w : nat) (preds : list head_out) :
  no_decode cfg = true ->
  (1 <= num_classes cfg)%nat ->
  firstn (length (stride cfg)) preds <> [] ->
  inference_single_image argsort cfg img_h img_w preds
  = Returns (Outputs (raw_rows (num_classes cfg) (firstn (length (stride cfg)) preds))).
Proof.
  intros Hnd HC Hne. unfold inference_single_image.
  rewrite mapM_returns with (g := fun lp => (permute_rows (fmp_h (snd lp)) (fmp_w (snd lp)) 1 (obj_at (snd lp)),
                         permute_rows (fmp_h (snd lp)) (fmp_w (snd lp)) (num_classes cfg)
                                      (cls_at (snd lp)),
                         permute_rows (fmp_h (snd lp)) (fmp_w (snd lp)) 4 (reg_at (snd lp)),
                         @None tensor))
    by (intros lp _; apply level_preds_no_decode; assumption).
  cbn [bind]. rewrite Hnd. rewrite !map_map. cbn [fst snd].
  rewrite !torch_cat_returns by (apply map_not_nil, enumerate_not_nil; exact Hne).
  cbn [bind].
  rewrite (enumerate_map_snd (fun p => permute_rows (fmp_h p) (fmp_w p) 1 (obj_at p))).
  rewrite (enumerate_map_snd
             (fun p => permute_rows (fmp_h p) (fmp_w p) (num_classes cfg) (cls_at p))).
  rewrite (enumerate_map_snd (fun p => permute_rows (fmp_h p) (fmp_w p) 4 (reg_at p))).
  rewrite no_decode_rows. reflexivity.
Qed.

(** C7.  With the no-decode flag set, [inference_single_image] (with at
    least one class and a pyramid of at least one level) generates no grid and runs no decoding,
    score filtering or NMS: whatever the sort, [topk] and the two
    thresholds are, it returns, for the levels concatenated in order, one
    row per cell holding the box regression as predicted, then the sigmoid
    of the objectness, then the sigmoids of the class scores; the number of
    rows is the sum over the levels of [H_l * W_l]. *)
Theorem no_decode_returns_raw_rows
    (argsort : list R -> list nat) (cfg : config) (img_h img_w : nat)
    (preds : list head_out) :
  no_decode cfg = true ->
  (1 <= num_classes cfg)%nat ->
  firstn (length (stride cfg)) preds <> [] ->
  let levels := firstn (length (stride cfg)) preds in
  inference_single_image argsort cfg img_h img_w preds
    = Returns (Outputs (raw_rows (num_classes cfg) levels)) /\
  length (raw_rows (num_classes cfg) levels)
    = list_sum (map (fun p => (fmp_h p * fmp_w p)%nat) levels).
Proof.
  intros Hnd HC Hne levels. split.
  - apply inference_no_decode_returns; assumption.
  - apply raw_rows_length.
Qed.

Lemma no_decode_returns_raw_rows_witness :
  no_decode one_cell_no_decode_config = true /\
  (1 <= num_classes one_cell_no_decode_config)%nat /\
  firstn (length (stride one_cell_no_decode_config)) [one_cell_head] <> [] /\
  inference_single_image argsort_first_wins one_cell_no_decode_config 8 8 [one_cell_head]
    = Returns (Outputs (raw_rows 2 [one_cell_head])) /\
  length (raw_rows 2 [one_cell_head])
    = list_sum (map (fun p => (fmp_h p * fmp_w p)%nat) [one_cell_head]).
Proof.
  split; [reflexivity|]. split; [simpl; lia|]. split; [discriminate|].
  apply (@no_decode_returns_raw_rows argsort_first_wins one_cell_no_decode_config 8 8
           [one_cell_head]).
  - reflexivity.
  - simpl. lia.
  - discriminate.
Defined.

(** ** Slices, masks and subscripts *)

Lemma slice_to_map (A B : Type) (f : A -> B) (k : Z) (l : list A) :
  slice_to k (map f l) = map f (slice_to k l).
Proof.
  unfold slice_to. rewrite length_map.
  destruct (0 <=? k)%Z; apply firstn_map.
Qed.

Lemma slice_to_firstn (A : Type) (k : Z) (l : list A) :
  exists n : nat, slice_to k l = firstn n l.
Proof. unfold slice_to. destruct (0 <=? k)%Z; eexists; reflexivity. Qed.

Lemma slice_to_length_nonneg (A : Type) (k : Z) (l : list A) :
  (0 <= k)%Z ->
  Z.of_nat (length (slice_to k l)) = Z.min k (Z.of_nat (length l)).
Proof.
  intro Hk. unfold slice_to.
  apply Z.leb_le in Hk. rewrite Hk. apply Z.leb_le in Hk.
  rewrite length_firstn. lia.
Qed.

Lemma slice_to_incl (A : Type) (k : Z) (l : list A) (a : A) :
  In a (slice_to k l) -> In a l.
Proof.
  destruct (slice_to_firstn k l) as [n ->]. intro H.
  rewrite <- (firstn_skipn n l). apply in_or_app. left. exact H.
Qed.

Lemma mask_select_map_filter (A B : Type) (f : A -> B) (p : B -> bool) (l : list A) :
  mask_select l (map p (map f l)) = filter (fun a => p (f a)) l.
Proof.
  induction l as [|a l IH]; simpl; [reflexivity|].
  rewrite IH. reflexivity.
Qed.

Lemma mask_select_values_map_filter (A B : Type) (f : A -> B) (p : B -> bool) (l : list A) :
  mask_select (map f l) (map p (map f l)) = map f (filter (fun a => p (f a)) l).
Proof.
  induction l as [|a l IH]; simpl; [reflexivity|].
  rewrite IH. destruct (p (f a)); reflexivity.
Qed.

Lemma index_select_returns (A : Type) (d : A) (t : list A) (idxs : list nat) :
  Forall (fun i => (i < length t)%nat) idxs ->
  index_select t idxs = Returns (map (fun i => nth i t d) idxs).
Proof.
  intro Hin. unfold index_select. apply mapM_returns.
  intros i Hi. rewrite Forall_forall in Hin. specialize (Hin i Hi).
  unfold lookup. rewrite (nth_error_nth' t d Hin). reflexivity.
Qed.

(** ** The flattened score surface *)

Lemma concat_uniform_length (A : Type) (C : nat) (t : list (list A)) :
  Forall (fun r => length r = C) t ->
  length (concat t) = (length t * C)%nat.
Proof.
  induction 1 as [|r t Hr _ IH]; simpl; [reflexivity|].
  rewrite length_app, Hr, IH. reflexivity.
Qed.

Lemma concat_uniform_nth (A : Type) (d : A) (C : nat) (t : list (list A)) (cell k : nat) :
  Forall (fun r => length r = C) t ->
  (cell < length t)%nat -> (k < C)%nat ->
  nth (cell * C + k) (concat t) d = nth k (nth cell t []) d.
Proof.
  intro Ht. revert cell. induction Ht as [|r t Hr _ IH]; intros cell Hcell Hk; simpl in *.
  - lia.
  - destruct cell as [|cell].
    + simpl. apply app_nth1. lia.
    + rewrite app_nth2 by (simpl; lia).
      replace (S cell * C + k - length r)%nat with (cell * C + k)%nat by (simpl; lia).
      apply IH; lia.
Qed.

Lemma flat_index_roundtrip (C cell class : nat) :
  (class < C)%nat ->
  ((cell * C + class) / C = cell)%nat /\ ((cell * C + class) mod C = class)%nat.
Proof.
  intro Hc. split.
  - rewrite Nat.div_add_l by lia. rewrite Nat.div_small by exact Hc. lia.
  - rewrite Nat.add_comm, Nat.Div0.mod_add. apply Nat.mod_small. exact Hc.
Qed.

Lemma flat_index_split (C M i : nat) :
  (i < M * C)%nat ->
  (i / C < M)%nat /\ (i mod C < C)%nat /\ (i = i / C * C + i mod C)%nat.
Proof.
  intro Hi. assert (HC : (C <> 0)%nat) by lia.
  split; [apply Nat.Div0.div_lt_upper_bound; lia|].
  split; [apply Nat.mod_upper_bound; exact HC|].
  rewrite (Nat.div_mod_eq i C) at 1. lia.
Qed.

Lemma nth_map_lt (A B : Type) (f : A -> B) (l : list A) (k : nat) (d : A) (d' : B) :
  (k < length l)%nat -> nth k (map f l) d' = f (nth k l d).
Proof.
  intro Hk. rewrite (nth_indep _ d' (f d)) by (rewrite length_map; exact Hk).
  apply map_nth.
Qed.

Lemma tmul_bcast_length (a b : tensor) :
  length a = length b -> length (tmul_bcast a b) = length b.
Proof.
  intro Hlen. unfold tmul_bcast.
  rewrite length_map, length_combine, Hlen, Nat.min_id. reflexivity.
Qed.

Lemma fused_rows_uniform (C : nat) (obj cls : tensor) :
  Forall (fun r => length r = C) cls ->
  Forall (fun r => length r = C)
         (tmap sqrt (tmul_bcast (tmap sigmoid obj) (tmap sigmoid cls))).
Proof.
  intro Hcls. unfold tmap, tmul_bcast. rewrite Forall_forall in *.
  intros r Hr. apply in_map_iff in Hr as [r1 [<- Hr1]].
  apply in_map_iff in Hr1 as [[ro rc] [<- Hrr]].
  apply in_combine_r in Hrr. apply in_map_iff in Hrr as [rc0 [<- Hrc0]].
  simpl. rewrite !length_map. apply Hcls. exact Hrc0.
Qed.

Lemma fused_scores_length (C : nat) (obj cls : tensor) :
  length obj = length cls ->
  Forall (fun r => length r = C) cls ->
  length (fused_scores obj cls) = (length cls * C)%nat.
Proof.
  intros Hlen Hcls. unfold fused_scores, flatten.
  rewrite (concat_uniform_length (fused_rows_uniform obj Hcls)).
  rewrite tmap_length, tmul_bcast_length; rewrite !tmap_length; auto.
Qed.

Lemma fused_scores_nth (C : nat) (obj cls : tensor) (cell k : nat) :
  length obj = length cls ->
  Forall (fun r => length r = 1%nat) obj ->
  Forall (fun r => length r = C) cls ->
  (cell < length cls)%nat -> (k < C)%nat ->
  nth (cell * C + k) (fused_scores obj cls) 0
  = sqrt (sigmoid (nth 0 (nth cell obj []) 0) * sigmoid (nth k (nth cell cls []) 0)).
Proof.
  intros Hlen Hobj Hcls Hcell Hk. unfold fused_scores, flatten.
  rewrite (concat_uniform_nth 0 (fused_rows_uniform obj Hcls))
    by (rewrite ?tmap_length, ?tmul_bcast_length; rewrite ?tmap_length; auto).
  assert (Hrow_o : length (nth cell obj []) = 1%nat).
  { rewrite Forall_forall in Hobj. apply Hobj, nth_In. lia. }
  assert (Hrow_c : length (nth cell cls []) = C).
  { rewrite Forall_forall in Hcls. apply Hcls, nth_In. exact Hcell. }
  unfold tmap at 1.
  rewrite nth_map_lt with (d := [])
    by (rewrite tmul_bcast_length; rewrite !tmap_length; auto).
  unfold tmul_bcast.
  rewrite nth_map_lt with (d := ([], []))
    by (rewrite length_combine, !tmap_length, Hlen, Nat.min_id; exact Hcell).
  rewrite combine_nth by (rewrite !tmap_length; exact Hlen).
  simpl. unfold tmap.
  rewrite (nth_map_lt (map sigmoid) obj [] []) by lia.
  rewrite (nth_map_lt (map sigmoid) cls [] []) by exact Hcell.
  rewrite nth_map_lt with (d := 0) by (rewrite !length_map; lia).
  rewrite nth_map_lt with (d := 0) by (rewrite !length_map; lia).
  rewrite (nth_map_lt sigmoid (nth cell obj []) 0 0) by lia.
  rewrite (nth_map_lt sigmoid (nth cell cls []) 0 0) by lia.
  reflexivity.
Qed.

Lemma permute_rows_rows (H W C : nat) (pred : nat -> nat -> nat -> R) :
  Forall (fun r => length r = C) (permute_rows H W C pred).
Proof.
  unfold permute_rows. rewrite Forall_forall. intros r Hr.
  apply in_flat_map in Hr as [h [_ Hr]].
  apply in_map_iff in Hr as [w [<- _]].
  rewrite length_map, length_seq. reflexivity.
Qed.

(** ** What the contract of the sort gives *)

Section SortContract.

Variable argsort : list R -> list nat.
Hypothesis argsort_ok : sort_contract argsort.

Lemma argsort_length (scores : list R) : length (argsort scores) = length scores.
Proof.
  destruct (argsort_ok scores) as [Hperm _].
  rewrite (Permutation_length Hperm). apply length_seq.
Qed.

Lemma argsort_In (scores : list R) (i : nat) :
  In i (argsort scores) <-> (i < length scores)%nat.
Proof.
  destruct (argsort_ok scores) as [Hperm _]. split; intro H.
  - apply (Permutation_in _ Hperm) in H. apply in_seq in H. lia.
  - apply (Permutation_in _ (Permutation_sym Hperm)). apply in_seq. lia.
Qed.

Lemma argsort_NoDup (scores : list R) : NoDup (argsort scores).
Proof.
  destruct (argsort_ok scores) as [Hperm _].
  apply (Permutation_NoDup (Permutation_sym Hperm)). apply seq_NoDup.
Qed.

End SortContract.

Lemma StronglySorted_app_inv (A : Type) (Rel : A -> A -> Prop) (l1 l2 : list A) :
  StronglySorted Rel (l1 ++ l2) ->
  StronglySorted Rel l1 /\ forall x y, In x l1 -> In y l2 -> Rel x y.
Proof.
  induction l1 as [|a l1 IH]; simpl; intro Hs.
  - split; [constructor|]. intros x y [].
  - apply StronglySorted_inv in Hs as [Hs Ha]. destruct (IH Hs) as [Hl1 Hcross].
    split.
    + constructor; [exact Hl1|]. apply Forall_app in Ha. tauto.
    + intros x y [<-|Hx] Hy.
      * rewrite Forall_forall in Ha. apply Ha, in_or_app. right. exact Hy.
      * apply Hcross; assumption.
Qed.

Lemma NoDup_firstn (A : Type) (n : nat) (l : list A) : NoDup l -> NoDup (firstn n l).
Proof.
  intro Hnd. rewrite <- (firstn_skipn n l) in Hnd.
  apply NoDup_app_remove_r in Hnd. exact Hnd.
Qed.

(** ** The two insertion sorts meet the contract *)

Lemma Rgtb_true (a b : R) : Rgtb a b = true <-> a > b.
Proof. unfold Rgtb. destruct (Rgt_dec a b); split; intro; try assumption; try reflexivity; try discriminate; contradiction. Qed.

Lemma Rgtb_false (a b : R) : Rgtb a b = false <-> a <= b.
Proof.
  unfold Rgtb. destruct (Rgt_dec a b) as [Hgt|Hngt]; split; intro H;
    try discriminate; try reflexivity; lra.
Qed.

Lemma Reqb_true (a b : R) : Reqb a b = true <-> a = b.
Proof. unfold Reqb. destruct (Req_dec_T a b); split; intro; try assumption; try reflexivity; try discriminate; contradiction. Qed.

Lemma insert_by_perm (before : nat -> nat -> bool) (i : nat) (l : list nat) :
  Permutation (insert_by before i l) (i :: l).
Proof.
  induction l as [|j l IH]; simpl; [apply Permutation_refl|].
  destruct (before i j); [apply Permutation_refl|].
  apply perm_trans with (j :: i :: l); [apply perm_skip; exact IH|apply perm_swap].
Qed.

Lemma isort_by_perm (before : nat -> nat -> bool) (l : list nat) :
  Permutation (isort_by before l) l.
Proof.
  induction l as [|i l IH]; simpl; [constructor|].
  apply perm_trans with (i :: isort_by before l);
    [apply insert_by_perm|apply perm_skip; exact IH].
Qed.

Section InsertionSorted.

Variable key : nat -> R.
Variable before : nat -> nat -> bool.
Hypothesis before_true : forall i j, before i j = true -> key i >= key j.
Hypothesis before_false : forall i j, before i j = false -> key j >= key i.

Lemma insert_by_sorted (i : nat) (l : list nat) :
  StronglySorted Rge (map key l) ->
  StronglySorted Rge (map key (insert_by before i l)).
Proof.
  induction l as [|j l IH]; simpl; intro Hs.
  - constructor; constructor.
  - apply StronglySorted_inv in Hs as [Hs Hj].
    destruct (before i j) eqn:Hb; simpl.
    + constructor; [constructor; assumption|].
      constructor; [apply before_true; exact Hb|].
      apply before_true in Hb. revert Hj. apply Forall_impl. intros a Ha. lra.
    + constructor; [apply IH; exact Hs|].
      rewrite Forall_forall in *. intros x Hx.
      apply in_map_iff in Hx as [m [<- Hm]].
      apply (Permutation_in _ (insert_by_perm before i l)) in Hm as [<-|Hm].
      * apply before_false. exact Hb.
      * apply Hj, in_map. exact Hm.
Qed.

Lemma isort_by_sorted (l : list nat) : StronglySorted Rge (map key (isort_by before l)).
Proof.
  induction l as [|i l IH]; simpl; [constructor|].
  apply insert_by_sorted. exact IH.
Qed.

End InsertionSorted.

Lemma argsort_first_wins_contract : sort_contract argsort_first_wins.
Proof.
  intro scores. unfold argsort_first_wins. split; [apply isort_by_perm|].
  apply isort_by_sorted; intros i j Hb; unfold score_desc_index_asc in Hb.
  - apply orb_true_iff in Hb as [Hb|Hb].
    + apply Rgtb_true in Hb. lra.
    + apply andb_true_iff in Hb as [Hb _]. apply Reqb_true in Hb. lra.
  - apply orb_false_iff in Hb as [Hb _]. apply Rgtb_false in Hb. lra.
Qed.

Lemma argsort_last_wins_contract : sort_contract argsort_last_wins.
Proof.
  intro scores. unfold argsort_last_wins. split; [apply isort_by_perm|].
  apply isort_by_sorted; intros i j Hb; unfold score_desc_index_desc in Hb.
  - apply orb_true_iff in Hb as [Hb|Hb].
    + apply Rgtb_true in Hb. lra.
    + apply andb_true_iff in Hb as [Hb _]. apply Reqb_true in Hb. lra.
  - apply orb_false_iff in Hb as [Hb _]. apply Rgtb_false in Hb. lra.
Qed.

(** ** topk_select *)

Lemma topk_select_eq (argsort : list R -> list nat) (cfg : config)
    (scores_i : list R) (reg_pred_i : tensor) :
  topk_select argsort cfg scores_i reg_pred_i
  = (map (fun i => nth i scores_i 0)
         (slice_to (Z.min (topk cfg) (Z.of_nat (length reg_pred_i))) (argsort scores_i)),
     slice_to (Z.min (topk cfg) (Z.of_nat (length reg_pred_i))) (argsort scores_i)).
Proof. unfold topk_select, sort_descending. rewrite slice_to_map. reflexivity. Qed.

Section TopkSelect.

Variable argsort : list R -> list nat.
Hypothesis argsort_ok : sort_contract argsort.
Variable cfg : config.
Variable scores_i : list R.
Variable reg_pred_i : tensor.

Lemma topk_idxs_length :
  (0 <= topk cfg)%Z ->
  Z.of_nat (length (snd (topk_select argsort cfg scores_i reg_pred_i)))
  = Z.min (Z.min (topk cfg) (Z.of_nat (length reg_pred_i))) (Z.of_nat (length scores_i)).
Proof.
  intro Hk. rewrite topk_select_eq. simpl.
  rewrite slice_to_length_nonneg by lia.
  rewrite (argsort_length argsort_ok). reflexivity.
Qed.

Lemma topk_idxs_bound (i : nat) :
  In i (snd (topk_select argsort cfg scores_i reg_pred_i)) ->
  (i < length scores_i)%nat.
Proof.
  rewrite topk_select_eq. simpl. intro Hi.
  apply slice_to_incl in Hi. apply (argsort_In argsort_ok). exact Hi.
Qed.

Lemma topk_idxs_NoDup : NoDup (snd (topk_select argsort cfg scores_i reg_pred_i)).
Proof.
  rewrite topk_select_eq. simpl.
  destruct (slice_to_firstn (Z.min (topk cfg) (Z.of_nat (length reg_pred_i)))
                            (argsort scores_i)) as [n ->].
  apply NoDup_firstn, (argsort_NoDup argsort_ok).
Qed.

Lemma topk_scores_sorted :
  StronglySorted Rge (fst (topk_select argsort cfg scores_i reg_pred_i)).
Proof.
  rewrite topk_select_eq. simpl.
  destruct (slice_to_firstn (Z.min (topk cfg) (Z.of_nat (length reg_pred_i)))
                            (argsort scores_i)) as [n ->].
  destruct (argsort_ok scores_i) as [_ Hs].
  rewrite <- (firstn_skipn n (argsort scores_i)), map_app in Hs.
  apply StronglySorted_app_inv in Hs. tauto.
Qed.

Lemma topk_idxs_highest (i j : nat) :
  In i (snd (topk_select argsort cfg scores_i reg_pred_i)) ->
  (j < length scores_i)%nat ->
  ~ In j (snd (topk_select argsort cfg scores_i reg_pred_i)) ->
  nth i scores_i 0 >= nth j scores_i 0.
Proof.
  rewrite topk_select_eq. simpl.
  destruct (slice_to_firstn (Z.min (topk cfg) (Z.of_nat (length reg_pred_i)))
                            (argsort scores_i)) as [n ->].
  intros Hi Hj Hnj.
  destruct (argsort_ok scores_i) as [_ Hs].
  apply (argsort_In argsort_ok) in Hj.
  rewrite <- (firstn_skipn n (argsort scores_i)) in Hj, Hs.
  rewrite map_app in Hs. apply StronglySorted_app_inv in Hs as [_ Hcross].
  apply in_app_or in Hj as [Hj|Hj]; [contradiction|].
  apply Hcross; apply in_map_iff; eexists; split; try reflexivity; assumption.
Qed.

End TopkSelect.

(** C1, as the code has it.  With a non-negative [topk] and at least one
    class, the per-level selection keeps exactly [min(topk, H*W)] of the
    [H*W*C] (cell, class) pairs: the cap is the number of cells,
    [reg_pred_i.size(0)], not the number of pairs.  The pairs kept are
    distinct positions of the scoring surface, listed by score descending,
    and no pair left out scores higher than a pair kept. *)
Theorem topk_select_keeps_min_topk_cells
    (argsort : list R -> list nat) (cfg : config) (p : head_out) :
  sort_contract argsort ->
  (1 <= num_classes cfg)%nat ->
  (0 <= topk cfg)%Z ->
  let H := fmp_h p in
  let W := fmp_w p in
  let C := num_classes cfg in
  let scores_i := fused_scores (permute_rows H W 1 (obj_at p))
                               (permute_rows H W C (cls_at p)) in
  let sel := topk_select argsort cfg scores_i (permute_rows H W 4 (reg_at p)) in
  length scores_i = (H * W * C)%nat /\
  Z.of_nat (length (snd sel)) = Z.min (topk cfg) (Z.of_nat (H * W)) /\
  fst sel = map (fun i => nth i scores_i 0) (snd sel) /\
  NoDup (snd sel) /\
  (forall i, In i (snd sel) -> (i < H * W * C)%nat) /\
  StronglySorted Rge (fst sel) /\
  (forall i j, In i (snd sel) -> (j < H * W * C)%nat -> ~ In j (snd sel) ->
     nth i scores_i 0 >= nth j scores_i 0).
Proof.
  intros Hok HC Hk H W C scores_i sel.
  assert (Hlen : length scores_i = (H * W * C)%nat).
  { unfold scores_i.
    rewrite (@fused_scores_length C) by
      (rewrite ?permute_rows_length; auto using permute_rows_rows).
    rewrite permute_rows_length. reflexivity. }
  split; [exact Hlen|].
  split.
  { unfold sel. rewrite (topk_idxs_length Hok) by exact Hk.
    rewrite Hlen, permute_rows_length. fold H W. nia. }
  split; [unfold sel; rewrite topk_select_eq; reflexivity|].
  split; [apply (topk_idxs_NoDup Hok)|].
  split; [intros i Hi; rewrite <- Hlen; eapply topk_idxs_bound; eassumption|].
  split; [apply (topk_scores_sorted Hok)|].
  intros i j Hi Hj Hnj. rewrite <- Hlen in Hj.
  eapply topk_idxs_highest; eassumption.
Qed.

Lemma topk_select_keeps_min_topk_cells_witness :
  sort_contract argsort_first_wins /\
  (1 <= num_classes one_cell_config)%nat /\
  (0 <= topk one_cell_config)%Z /\
  length one_cell_scores = (1 * 1 * 2)%nat /\
  Z.of_nat (length (snd one_cell_topk)) = Z.min 1000 (Z.of_nat (1 * 1)) /\
  fst one_cell_topk = map (fun i => nth i one_cell_scores 0) (snd one_cell_topk) /\
  NoDup (snd one_cell_topk) /\
  (forall i, In i (snd one_cell_topk) -> (i < 1 * 1 * 2)%nat) /\
  StronglySorted Rge (fst one_cell_topk) /\
  (forall i j, In i (snd one_cell_topk) -> (j < 1 * 1 * 2)%nat ->
     ~ In j (snd one_cell_topk) ->
     nth i one_cell_scores 0 >= nth j one_cell_scores 0).
Proof.
  split; [exact argsort_first_wins_contract|].
  split; [simpl; lia|]. split; [simpl; lia|].
  apply (@topk_select_keeps_min_topk_cells argsort_first_wins one_cell_config one_cell_head
           argsort_first_wins_contract); simpl; lia.
Defined.

(** C1, as stated, fails: on a level of one cell and two classes with
    [topk = 1000] the selection keeps one pair, not [min(1000, 1*1*2) = 2]. *)
Lemma topk_select_count_counterexample :
  length one_cell_scores = (1 * 1 * 2)%nat /\
  Z.of_nat (length (snd one_cell_topk))
  <> Z.min (topk one_cell_config) (Z.of_nat (1 * 1 * 2)).
Proof.
  split; [reflexivity|].
  unfold one_cell_topk.
  rewrite (topk_idxs_length argsort_first_wins_contract) by (simpl; lia).
  simpl. lia.
Qed.

(** ** post_process_level *)

Lemma floor_div_all_returns (idxs : list nat) (M C : nat) :
  Forall (fun i => (i < M * C)%nat) idxs ->
  floor_div_all idxs C = Returns (map (fun i => (i / C)%nat) idxs).
Proof.
  intro Hb. destruct idxs as [|i idxs]; [reflexivity|].
  destruct C as [|C]; [|reflexivity].
  apply Forall_inv in Hb. lia.
Qed.

(** The flat indices that survive on a level: the top-k indices whose
    score exceeds [conf_thresh]. *)
Lemma surviving_idxs_bound (argsort : list R -> list nat) (cfg : config)
    (scores_i : list R) (reg_pred_i : tensor) :
  sort_contract argsort ->
  Forall (fun i => (i < length scores_i)%nat /\
                   nth i scores_i 0 > conf_thresh cfg)
         (filter (fun i => Rgtb (nth i scores_i 0) (conf_thresh cfg))
                 (snd (topk_select argsort cfg scores_i reg_pred_i))).
Proof.
  intro Hok. rewrite Forall_forall. intros i Hi.
  apply filter_In in Hi as [Hi Hgt]. split.
  - eapply topk_idxs_bound; eassumption.
  - apply Rgtb_true. exact Hgt.
Qed.

Lemma post_process_level_returns (argsort : list R -> list nat) (cfg : config)
    (level : nat) (obj cls reg anchors : tensor) (s : Z) :
  sort_contract argsort ->
  length obj = length reg -> length cls = length reg -> length anchors = length reg ->
  Forall (fun r => length r = num_classes cfg) cls ->
  nth_error (stride cfg) level = Some s ->
  post_process_level argsort cfg level obj cls reg (Some anchors)
  = let scores_i := fused_scores obj cls in
    let idxs := filter (fun i => Rgtb (nth i scores_i 0) (conf_thresh cfg))
                       (snd (topk_select argsort cfg scores_i reg)) in
    Returns (map (fun i => nth i scores_i 0) idxs,
             map (fun i => (i mod num_classes cfg)%nat) idxs,
             decode_boxes (map (fun i => nth (i / num_classes cfg) anchors []) idxs)
                          (map (fun i => nth (i / num_classes cfg) reg []) idxs) s).
Proof.
  intros Hok Hobj Hcls Hanc Hrows Hs.
  pose proof (surviving_idxs_bound cfg (fused_scores obj cls) reg Hok) as Hsurv.
  unfold post_process_level. rewrite topk_select_eq in *. simpl snd in *. cbv zeta.
  set (scores_i := fused_scores obj cls) in *.
  set (sel := slice_to _ (argsort scores_i)) in *.
  rewrite mask_select_values_map_filter, mask_select_map_filter.
  set (idxs := filter _ sel) in *.
  assert (Hb : Forall (fun i => (i < length reg * num_classes cfg)%nat) idxs).
  { revert Hsurv. apply Forall_impl. intros i [Hi _].
    unfold scores_i in Hi.
    rewrite (@fused_scores_length (num_classes cfg)) in Hi by (auto; congruence).
    rewrite Hcls in Hi. exact Hi. }
  rewrite floor_div_all_returns with (M := length reg) by exact Hb. simpl bind.
  assert (Hcell : Forall (fun j => (j < length reg)%nat)
                         (map (fun i => (i / num_classes cfg)%nat) idxs)).
  { rewrite Forall_map. revert Hb. apply Forall_impl. intros i Hi.
    apply flat_index_split in Hi. tauto. }
  rewrite index_select_returns with (d := []) by exact Hcell. simpl bind.
  rewrite <- Hanc in Hcell.
  rewrite index_select_returns with (d := []) by exact Hcell. simpl bind.
  unfold stride_at, lookup. rewrite Hs. simpl bind.
  rewrite !map_map. reflexivity.
Qed.

(** C3.  On a level with [M] cells and [C] classes, the entry of the
    flattened scoring surface at position [cell * C + class] is
    [sqrt (sigmoid objectness[cell] * sigmoid classScore[cell, class])], and
    dividing that position by [C] gives back [cell] and [class]
    (cell-major, class-minor flattening).  The candidates the level
    produces are those of its surviving flat indices, in their order: the
    top-k indices whose score exceeds [conf_thresh].  The candidate of the
    surviving index [i] has the fused score of cell [i / C] and class
    [i mod C], the label [i mod C], and the box decoded from the anchor and
    the regression of cell [i / C]. *)
Theorem post_process_level_flat_index
    (argsort : list R -> list nat) (cfg : config) (level : nat)
    (obj cls reg anchors : tensor) (s : Z) :
  sort_contract argsort ->
  length obj = length reg -> length cls = length reg -> length anchors = length reg ->
  Forall (fun r => length r = 1%nat) obj ->
  Forall (fun r => length r = num_classes cfg) cls ->
  nth_error (stride cfg) level = Some s ->
  let C := num_classes cfg in
  let M := length reg in
  let fused := fun cell class =>
    sqrt (sigmoid (nth 0 (nth cell obj []) 0) * sigmoid (nth class (nth cell cls []) 0)) in
  let idxs := surviving_idxs argsort cfg obj cls reg in
  (forall cell class, (cell < M)%nat -> (class < C)%nat ->
     nth (cell * C + class) (fused_scores obj cls) 0 = fused cell class /\
     ((cell * C + class) / C)%nat = cell /\
     ((cell * C + class) mod C)%nat = class) /\
  (forall i, In i idxs <->
     In i (snd (topk_select argsort cfg (fused_scores obj cls) reg)) /\
     nth i (fused_scores obj cls) 0 > conf_thresh cfg) /\
  Forall (fun i => (i < M * C)%nat) idxs /\
  post_process_level argsort cfg level obj cls reg (Some anchors)
  = Returns (map (fun i => fused (i / C)%nat (i mod C)%nat) idxs,
             map (fun i => (i mod C)%nat) idxs,
             decode_boxes (map (fun i => nth (i / C) anchors []) idxs)
                          (map (fun i => nth (i / C) reg []) idxs) s).
Proof.
  intros Hok Hobj Hcls Hanc Hone Hrows Hs C M fused idxs.
  assert (Hsurface : forall cell class, (cell < M)%nat -> (class < C)%nat ->
            nth (cell * C + class) (fused_scores obj cls) 0 = fused cell class).
  { intros cell class Hcell Hclass. unfold fused.
    apply fused_scores_nth; auto; [congruence|rewrite Hcls; exact Hcell]. }
  split.
  { intros cell class Hcell Hclass. split; [apply Hsurface; assumption|].
    apply flat_index_roundtrip. exact Hclass. }
  split.
  { intro i. unfold idxs, surviving_idxs. rewrite filter_In.
    split; intros [Hin Hgt]; (split; [exact Hin|]).
    - apply Rgtb_true. exact Hgt.
    - unfold Rgtb. destruct (Rgt_dec _ _); [reflexivity|contradiction]. }
  pose proof (surviving_idxs_bound cfg (fused_scores obj cls) reg Hok) as Hsurv.
  assert (Hb : Forall (fun i => (i < M * C)%nat) idxs).
  { revert Hsurv. apply Forall_impl. intros i [Hi _].
    rewrite (@fused_scores_length C) in Hi by (auto; congruence).
    rewrite Hcls in Hi. exact Hi. }
  split; [exact Hb|].
  rewrite post_process_level_returns with (s := s) by assumption. cbv zeta.
  fold (surviving_idxs argsort cfg obj cls reg). fold idxs.
  do 3 f_equal. apply map_ext_in. intros i Hi.
  rewrite Forall_forall in Hb. specialize (Hb i Hi).
  apply flat_index_split in Hb as [Hcell [Hclass Heq]].
  rewrite Heq at 1. apply Hsurface; assumption.
Qed.

Lemma post_process_level_flat_index_witness :
  sort_contract argsort_first_wins /\
  length one_cell_obj = length one_cell_reg /\
  length one_cell_cls = length one_cell_reg /\
  length one_cell_anchors = length one_cell_reg /\
  Forall (fun r => length r = 1%nat) one_cell_obj /\
  Forall (fun r => length r = num_classes one_cell_config) one_cell_cls /\
  nth_error (stride one_cell_config) 0 = Some 8%Z /\
  (forall cell class, (cell < length one_cell_reg)%nat -> (class < 2)%nat ->
     nth (cell * 2 + class) (fused_scores one_cell_obj one_cell_cls) 0
     = sqrt (sigmoid (nth 0 (nth cell one_cell_obj []) 0)
             * sigmoid (nth class (nth cell one_cell_cls []) 0)) /\
     ((cell * 2 + class) / 2)%nat = cell /\
     ((cell * 2 + class) mod 2)%nat = class) /\
  (forall i,
     In i (surviving_idxs argsort_first_wins one_cell_config
                          one_cell_obj one_cell_cls one_cell_reg) <->
     In i (snd (topk_select argsort_first_wins one_cell_config
                            (fused_scores one_cell_obj one_cell_cls) one_cell_reg)) /\
     nth i (fused_scores one_cell_obj one_cell_cls) 0 > conf_thresh one_cell_config) /\
  Forall (fun i => (i < length one_cell_reg * 2)%nat)
         (surviving_idxs argsort_first_wins one_cell_config
                         one_cell_obj one_cell_cls one_cell_reg) /\
  post_process_level argsort_first_wins one_cell_config 0
                     one_cell_obj one_cell_cls one_cell_reg (Some one_cell_anchors)
  = Returns (map (fun i => sqrt (sigmoid (nth 0 (nth (i / 2) one_cell_obj []) 0)
                                 * sigmoid (nth (i mod 2) (nth (i / 2) one_cell_cls []) 0)))
                 (surviving_idxs argsort_first_wins one_cell_config
                                 one_cell_obj one_cell_cls one_cell_reg),
             map (fun i => (i mod 2)%nat)
                 (surviving_idxs argsort_first_wins one_cell_config
                                 one_cell_obj one_cell_cls one_cell_reg),
             decode_boxes (map (fun i => nth (i / 2) one_cell_anchors [])
                               (surviving_idxs argsort_first_wins one_cell_config
                                               one_cell_obj one_cell_cls one_cell_reg))
                          (map (fun i => nth (i / 2) one_cell_reg [])
                               (surviving_idxs argsort_first_wins one_cell_config
                                               one_cell_obj one_cell_cls one_cell_reg)) 8).
Proof.
  split; [exact argsort_first_wins_contract|].
  split; [reflexivity|]. split; [reflexivity|]. split; [reflexivity|].
  split; [repeat constructor|]. split; [repeat constructor|]. split; [reflexivity|].
  apply (@post_process_level_flat_index argsort_first_wins one_cell_config 0
           one_cell_obj one_cell_cls one_cell_reg one_cell_anchors 8
           argsort_first_wins_contract);
    try reflexivity; repeat constructor.
Defined.

(** ** multiclass_nms *)

Lemma FOP_app (A : Type) (P : A -> A -> Prop) (l1 l2 : list A) :
  ForallOrdPairs P l1 -> ForallOrdPairs P l2 ->
  (forall x y, In x l1 -> In y l2 -> P x y) ->
  ForallOrdPairs P (l1 ++ l2).
Proof.
  intros H1 H2 Hcross. induction H1 as [|a l1 Ha H1 IH]; simpl; [exact H2|].
  constructor.
  - apply Forall_app. split; [exact Ha|].
    rewrite Forall_forall. intros y Hy. apply Hcross; [left; reflexivity|exact Hy].
  - apply IH. intros x y Hx Hy. apply Hcross; [right; exact Hx|exact Hy].
Qed.

Lemma FOP_nth (A : Type) (P : A -> A -> Prop) (l : list A) (d : A) :
  ForallOrdPairs P l ->
  forall i j, (i < j)%nat -> (j < length l)%nat -> P (nth i l d) (nth j l d).
Proof.
  induction 1 as [|a l Ha _ IH]; intros i j Hij Hj; simpl in Hj; [lia|].
  destruct j as [|j]; [lia|]. destruct i as [|i]; simpl.
  - rewrite Forall_forall in Ha. apply Ha, nth_In. lia.
  - apply IH; lia.
Qed.

Lemma FOP_map (A B : Type) (f : A -> B) (P : B -> B -> Prop) (l : list A) :
  ForallOrdPairs (fun a b => P (f a) (f b)) l -> ForallOrdPairs P (map f l).
Proof.
  induction 1 as [|a l Ha _ IH]; simpl; constructor; [|exact IH].
  rewrite Forall_map. exact Ha.
Qed.

Module NMSFacts.
Import NMS.

Lemma iou_sym (a b : list R) : iou a b = iou b a.
Proof.
  assert (Hi : inter_area a b = inter_area b a).
  { unfold inter_area.
    rewrite (Rmin_comm (coord a 2)), (Rmax_comm (coord a 0)),
            (Rmin_comm (coord a 3)), (Rmax_comm (coord a 1)).
    reflexivity. }
  assert (Hu : union_area a b = union_area b a).
  { unfold union_area. rewrite Hi, (Rplus_comm (box_area a)). reflexivity. }
  unfold iou. rewrite Hi, Hu. reflexivity.
Qed.

Lemma greedy_incl (boxes : tensor) (th : R) (l : list nat) (i : nat) :
  In i (greedy boxes th l) -> In i l.
Proof.
  revert i. funelim (greedy boxes th l); intro k; simpl; [tauto|].
  intros [Hk|Hk]; [left; exact Hk|right].
  match goal with IH : forall _, In _ (greedy _ _ _) -> _ |- _ => apply IH in Hk end.
  apply filter_In in Hk. tauto.
Qed.

Lemma greedy_pairs (boxes : tensor) (th : R) (l : list nat) :
  ForallOrdPairs (fun a b => iou (nth a boxes []) (nth b boxes []) <= th)
                 (greedy boxes th l).
Proof.
  funelim (greedy boxes th l); [constructor|].
  constructor; [|assumption].
  - rewrite Forall_forall. intros j Hj.
    apply greedy_incl, filter_In in Hj as [_ Hj].
    apply negb_true_iff, Rgtb_false in Hj. exact Hj.
Qed.

Lemma gather_class_In (classIds : list nat) (c i : nat) :
  In i (gather_class classIds c)
  <-> (i < length classIds)%nat /\ nth i classIds 0%nat = c.
Proof.
  unfold gather_class. rewrite filter_In, in_seq, Nat.eqb_eq. simpl.
  split; intros [Hi Hc]; (split; [lia|exact Hc]).
Qed.

(** What one class contributes to the retained indices. *)
Lemma class_kept_In (boxes : tensor) (scores : list R) (classIds : list nat)
    (th : R) (c i : nat) :
  In i (greedy boxes th (isort_by (score_desc_index_asc scores) (gather_class classIds c))) ->
  (i < length classIds)%nat /\ nth i classIds 0%nat = c.
Proof.
  intro Hi. apply greedy_incl in Hi.
  apply (Permutation_in _ (isort_by_perm _ _)) in Hi.
  apply gather_class_In. exact Hi.
Qed.

Lemma suppress_In (boxes : tensor) (scores : list R) (classIds : list nat)
    (th : R) (C i : nat) :
  In i (suppress boxes scores classIds th C) ->
  (i < length classIds)%nat /\ (nth i classIds 0%nat < C)%nat.
Proof.
  unfold suppress. intro Hi. apply in_flat_map in Hi as [c [Hc Hi]].
  apply class_kept_In in Hi as [Hlt Hcls]. apply in_seq in Hc.
  split; [exact Hlt|lia].
Qed.

Lemma suppress_pairs (boxes : tensor) (scores : list R) (classIds : list nat)
    (th : R) (C : nat) :
  ForallOrdPairs
    (fun a b => nth a classIds 0%nat = nth b classIds 0%nat ->
                iou (nth a boxes []) (nth b boxes []) <= th)
    (suppress boxes scores classIds th C).
Proof.
  unfold suppress.
  enough (G : forall c0,
             ForallOrdPairs
               (fun a b => nth a classIds 0%nat = nth b classIds 0%nat ->
                           iou (nth a boxes []) (nth b boxes []) <= th)
               (flat_map
                  (fun c => greedy boxes th
                              (isort_by (score_desc_index_asc scores)
                                        (gather_class classIds c)))
                  (seq c0 C))) by apply G.
  induction C as [|C IH]; intro c0; simpl; [constructor|].
  apply FOP_app.
  - generalize (greedy_pairs boxes th
                  (isort_by (score_desc_index_asc scores) (gather_class classIds c0))).
    generalize (greedy boxes th
                  (isort_by (score_desc_index_asc scores) (gather_class classIds c0))).
    induction 1 as [|a l Ha _ IHl]; constructor; [|exact IHl].
    revert Ha. apply Forall_impl. intros b Hb _. exact Hb.
  - apply IH.
  - intros x y Hx Hy Heq.
    apply class_kept_In in Hx as [_ Hx].
    apply in_flat_map in Hy as [c [Hc Hy]].
    apply class_kept_In in Hy as [_ Hy]. apply in_seq in Hc. lia.
Qed.

End NMSFacts.

Lemma multiclass_nms_lengths (scores : list R) (labels : list nat) (bboxes : tensor)
    (th : R) (C : nat) :
  let out := NMS.multiclass_nms scores labels bboxes th C in
  length (fst (fst out)) = length (snd out) /\
  length (snd (fst out)) = length (snd out).
Proof. unfold NMS.multiclass_nms. simpl. rewrite !length_map. split; reflexivity. Qed.

(** C2.  In what [multiclass_nms] retains, any two distinct detections of
    one class have an IoU of at most the threshold; the bound is asked only
    of pairs with equal class. *)
Theorem multiclass_nms_same_class_iou
    (scores : list R) (labels : list nat) (bboxes : tensor) (th : R) (C : nat)
    (i j : nat) :
  let out := NMS.multiclass_nms scores labels bboxes th C in
  let kept_labels := snd (fst out) in
  let kept_boxes := snd out in
  i <> j ->
  (i < length kept_boxes)%nat ->
  (j < length kept_boxes)%nat ->
  nth i kept_labels 0%nat = nth j kept_labels 0%nat ->
  NMS.iou (nth i kept_boxes []) (nth j kept_boxes []) <= th.
Proof.
  unfold NMS.multiclass_nms. cbv zeta. simpl fst. simpl snd.
  set (keep := NMS.suppress bboxes scores labels th C).
  rewrite length_map. intros Hij Hi Hj.
  rewrite (nth_map_lt (fun k => nth k labels 0%nat) keep 0%nat 0%nat Hi),
          (nth_map_lt (fun k => nth k labels 0%nat) keep 0%nat 0%nat Hj),
          (nth_map_lt (fun k => nth k bboxes []) keep 0%nat [] Hi),
          (nth_map_lt (fun k => nth k bboxes []) keep 0%nat [] Hj).
  intro Hlab.
  pose proof (NMSFacts.suppress_pairs bboxes scores labels th C) as Hp.
  fold keep in Hp.
  destruct (Nat.lt_ge_cases i j) as [Hlt|Hge].
  - apply (FOP_nth 0%nat Hp Hlt Hj). exact Hlab.
  - rewrite NMSFacts.iou_sym.
    assert (Hlt : (j < i)%nat) by lia.
    apply (FOP_nth 0%nat Hp Hlt Hi). symmetry. exact Hlab.
Qed.

(** Two disjoint boxes of one class: both are retained. *)

Lemma two_boxes_iou : NMS.iou [0; 0; 1; 1] [2; 2; 3; 3] = 0.
Proof.
  assert (Hi : NMS.inter_area [0; 0; 1; 1] [2; 2; 3; 3] = 0).
  { unfold NMS.inter_area, NMS.coord. simpl nth.
    rewrite (Rmin_left 1 3) by lra. rewrite (Rmax_right 0 2) by lra.
    rewrite (Rmax_left 0 (1 - 2)) by lra. ring. }
  unfold NMS.iou. rewrite Hi.
  destruct (Req_dec_T _ 0); [reflexivity|]. unfold Rdiv. ring.
Qed.

Lemma two_boxes_sorted :
  isort_by (score_desc_index_asc two_scores) [0; 1]%nat = [0; 1]%nat.
Proof.
  cbn [isort_by fold_right insert_by].
  assert (Hb : score_desc_index_asc two_scores 0 1 = true).
  { unfold score_desc_index_asc, two_scores. simpl nth.
    apply orb_true_iff. left. apply Rgtb_true. lra. }
  rewrite Hb. reflexivity.
Qed.

Lemma two_boxes_greedy : NMS.greedy two_boxes 0.6 [0; 1]%nat = [0; 1]%nat.
Proof.
  rewrite NMS.greedy_equation_2. cbn [filter]. unfold two_boxes. cbn [nth].
  rewrite two_boxes_iou.
  assert (Hb : Rgtb 0 0.6 = false) by (apply Rgtb_false; lra).
  rewrite Hb. cbn [negb].
  rewrite NMS.greedy_equation_2. cbn [filter].
  rewrite NMS.greedy_equation_1. reflexivity.
Qed.

Lemma two_boxes_nms :
  NMS.multiclass_nms two_scores two_labels two_boxes 0.6 1
  = (two_scores, two_labels, two_boxes).
Proof.
  unfold NMS.multiclass_nms, NMS.suppress. cbn [seq flat_map].
  change (NMS.gather_class two_labels 0) with [0%nat; 1%nat].
  rewrite two_boxes_sorted, two_boxes_greedy. reflexivity.
Qed.

Lemma multiclass_nms_same_class_iou_witness :
  0%nat <> 1%nat /\
  (0 < length (snd (NMS.multiclass_nms two_scores two_labels two_boxes 0.6 1)))%nat /\
  (1 < length (snd (NMS.multiclass_nms two_scores two_labels two_boxes 0.6 1)))%nat /\
  nth 0 (snd (fst (NMS.multiclass_nms two_scores two_labels two_boxes 0.6 1))) 0%nat
  = nth 1 (snd (fst (NMS.multiclass_nms two_scores two_labels two_boxes 0.6 1))) 0%nat /\
  NMS.iou (nth 0 (snd (NMS.multiclass_nms two_scores two_labels two_boxes 0.6 1)) [])
          (nth 1 (snd (NMS.multiclass_nms two_scores two_labels two_boxes 0.6 1)) [])
  <= 0.6.
Proof.
  split; [lia|].
  split; [rewrite two_boxes_nms; simpl; lia|].
  split; [rewrite two_boxes_nms; simpl; lia|].
  split; [rewrite two_boxes_nms; reflexivity|].
  apply (@multiclass_nms_same_class_iou two_scores two_labels two_boxes 0.6 1 0 1).
  - lia.
  - rewrite two_boxes_nms; simpl; lia.
  - rewrite two_boxes_nms; simpl; lia.
  - rewrite two_boxes_nms; reflexivity.
Defined.

(** ** Ranges of the scores and of the normalised boxes *)

Lemma sigmoid_range (x : R) : 0 < sigmoid x < 1.
Proof.
  unfold sigmoid. pose proof (exp_pos (- x)) as He.
  split.
  - apply Rdiv_lt_0_compat; lra.
  - apply (Rmult_lt_reg_r (1 + exp (- x))); [lra|].
    unfold Rdiv. rewrite Rmult_assoc, Rinv_l by lra. lra.
Qed.

Lemma fused_entry_range (a b : R) : 0 <= a <= 1 -> 0 <= b <= 1 -> 0 <= sqrt (a * b) <= 1.
Proof.
  intros Ha Hb. split; [apply sqrt_pos|].
  rewrite <- sqrt_1. apply sqrt_le_1_alt. nra.
Qed.

Lemma fused_scores_range (obj cls : tensor) :
  Forall (fun v => 0 <= v <= 1) (fused_scores obj cls).
Proof.
  unfold fused_scores, flatten, tmap, tmul_bcast. rewrite Forall_forall.
  intros v Hv. apply in_concat in Hv as [row [Hrow Hv]].
  apply in_map_iff in Hrow as [row1 [<- Hrow1]].
  apply in_map_iff in Hv as [v1 [<- Hv1]].
  apply in_map_iff in Hrow1 as [[ro rc] [<- Hrr]]. simpl in Hv1.
  apply in_map_iff in Hv1 as [v2 [<- Hv2]].
  pose proof (in_combine_l _ _ _ _ Hrr) as Hro.
  pose proof (in_combine_r _ _ _ _ Hrr) as Hrc.
  apply in_map_iff in Hro as [ro0 [<- _]].
  apply in_map_iff in Hrc as [rc0 [<- _]].
  apply in_map_iff in Hv2 as [c [<- _]].
  apply fused_entry_range.
  - destruct ro0 as [|o ro0]; simpl; [lra|].
    pose proof (sigmoid_range o). lra.
  - pose proof (sigmoid_range c). lra.
Qed.

Lemma clip01_range (v : R) : 0 <= clip01 v <= 1.
Proof.
  unfold clip01. split.
  - apply Rmin_glb; [apply Rmax_r|lra].
  - apply Rmin_r.
Qed.

(** ** The loop of post_process *)

Lemma mapM_map (A B C : Type) (g : A -> B) (f : B -> outcome C) (l : list A) :
  mapM f (map g l) = mapM (fun a => f (g a)) l.
Proof.
  induction l as [|a l IH]; simpl; [reflexivity|]. rewrite IH. reflexivity.
Qed.

Lemma mapM_Forall (A B : Type) (f : A -> outcome B) (Q : B -> Prop) (l : list A) :
  (forall a, In a l -> exists b, f a = Returns b /\ Q b) ->
  exists bs, mapM f l = Returns bs /\ Forall Q bs /\ length bs = length l.
Proof.
  induction l as [|a l IH]; intro Hf; simpl.
  - exists []. repeat split. constructor.
  - destruct (Hf a (or_introl eq_refl)) as [b [Hb HQ]].
    destruct IH as [bs [Hbs [HQs Hlen]]]; [intros x Hx; apply Hf; right; exact Hx|].
    exists (b :: bs). rewrite Hb, Hbs. simpl.
    repeat split; [constructor; assumption|congruence].
Qed.

Lemma zip4_map (X A B C D : Type) (a : X -> A) (b : X -> B) (c : X -> C) (d : X -> D)
    (l : list X) :
  zip4 (map a l) (map b l) (map c l) (map d l) = map (fun x => (a x, b x, c x, d x)) l.
Proof.
  unfold zip4. induction l as [|x l IH]; simpl; [reflexivity|].
  rewrite IH. reflexivity.
Qed.

Lemma enumerate_map_enumerate (A B : Type) (F : nat * A -> B) (l : list A) :
  enumerate (map F (enumerate l)) = map (fun e => (fst e, F e)) (enumerate l).
Proof.
  unfold enumerate. rewrite length_map, length_combine, length_seq, Nat.min_id.
  generalize 0%nat as n.
  induction l as [|a l IH]; intro n; simpl; [reflexivity|].
  rewrite IH. reflexivity.
Qed.

Lemma level_preds_decode (cfg : config) (lp : nat * head_out) :
  no_decode cfg = false ->
  (1 <= num_classes cfg)%nat ->
  (fst lp < length (stride cfg))%nat ->
  level_preds cfg (fst lp) (snd lp) = Returns (level_tensors cfg lp).
Proof.
  intros Hnd HC Hlt. unfold level_preds. rewrite Hnd.
  rewrite generate_anchors_returns with (s := nth (fst lp) (stride cfg) 0%Z)
    by (apply nth_error_nth'; exact Hlt).
  rewrite (view_cols_returns _ HC). reflexivity.
Qed.

Lemma post_process_level_ok (argsort : list R -> list nat) (cfg : config)
    (level : nat) (obj cls reg anchors : tensor) (s : Z) :
  sort_contract argsort ->
  length obj = length reg -> length cls = length reg -> length anchors = length reg ->
  Forall (fun r => length r = num_classes cfg) cls ->
  nth_error (stride cfg) level = Some s ->
  exists r, post_process_level argsort cfg level obj cls reg (Some anchors) = Returns r /\
            candidates_ok cfg r.
Proof.
  intros Hok Hobj Hcls Hanc Hrows Hs.
  rewrite post_process_level_returns with (s := s) by assumption. cbv zeta.
  pose proof (surviving_idxs_bound cfg (fused_scores obj cls) reg Hok) as Hsurv.
  set (idxs := filter _ _) in *.
  eexists. split; [reflexivity|]. unfold candidates_ok. simpl fst. simpl snd.
  split; [rewrite !length_map; reflexivity|].
  split; [rewrite decode_boxes_length; rewrite !length_map; reflexivity|].
  split.
  - rewrite Forall_map. revert Hsurv. apply Forall_impl. intros i [Hi Hgt].
    split; [lra|].
    pose proof (fused_scores_range obj cls) as Hr. rewrite Forall_forall in Hr.
    apply Hr, nth_In. exact Hi.
  - rewrite Forall_map. revert Hsurv. apply Forall_impl. intros i [Hi _].
    rewrite (@fused_scores_length (num_classes cfg)) in Hi by (auto; congruence).
    apply Nat.mod_upper_bound. intro HC. rewrite HC in Hi. lia.
Qed.

Lemma candidates_ok_concat (cfg : config) (rs : list (list R * list nat * tensor)) :
  Forall (candidates_ok cfg) rs ->
  candidates_ok cfg (concat (map (fun r => fst (fst r)) rs),
                     concat (map (fun r => snd (fst r)) rs),
                     concat (map (fun r => snd r) rs)).
Proof.
  unfold candidates_ok. simpl fst. simpl snd.
  induction 1 as [|r rs [H1 [H2 [H3 H4]]] _ [IH1 [IH2 [IH3 IH4]]]]; simpl.
  - repeat split; constructor.
  - rewrite !length_app, H1, H2, IH1, IH2.
    repeat split; try reflexivity; apply Forall_app; split; assumption.
Qed.

Lemma multiclass_nms_ok (cfg : config) (scores : list R) (labels : list nat)
    (bboxes : tensor) (th : R) (C : nat) :
  candidates_ok cfg (scores, labels, bboxes) ->
  candidates_ok cfg (NMS.multiclass_nms scores labels bboxes th C).
Proof.
  unfold candidates_ok, NMS.multiclass_nms. simpl fst. simpl snd.
  intros [H1 [H2 [H3 H4]]]. rewrite !length_map.
  split; [reflexivity|]. split; [reflexivity|].
  rewrite !Forall_map. split.
  - rewrite Forall_forall in *. intros i Hi.
    apply NMSFacts.suppress_In in Hi as [Hi _].
    apply H3, nth_In. rewrite H1. exact Hi.
  - rewrite Forall_forall in *. intros i Hi.
    apply NMSFacts.suppress_In in Hi as [Hi _].
    apply H4, nth_In. exact Hi.
Qed.

Lemma post_process_on_levels (argsort : list R -> list nat) (cfg : config)
    (L : list head_out) :
  sort_contract argsort ->
  (length L <= length (stride cfg))%nat ->
  L <> [] ->
  exists bboxes scores labels,
    post_process argsort cfg
      (map (fun l => fst (fst (fst l))) (map (level_tensors cfg) (enumerate L)))
      (map (fun l => snd (fst (fst l))) (map (level_tensors cfg) (enumerate L)))
      (map (fun l => snd (fst l)) (map (level_tensors cfg) (enumerate L)))
      (map (fun l => snd l) (map (level_tensors cfg) (enumerate L)))
    = Returns (bboxes, scores, labels) /\
    candidates_ok cfg (scores, labels, bboxes).
Proof.
  intros Hok Hlen Hne. unfold post_process.
  rewrite !map_map, zip4_map, enumerate_map_enumerate, mapM_map.
  match goal with
  | |- context [mapM ?f (enumerate L)] =>
      destruct (@mapM_Forall _ _ f (candidates_ok cfg) (enumerate L))
        as [rs [Hrs [HQ Hrslen]]]
  end.
  { intros [level p] Hin. apply enumerate_In in Hin.
    assert (Hlt : (level < length (stride cfg))%nat).
    { apply Nat.lt_le_trans with (length L); [|exact Hlen].
      apply nth_error_Some. congruence. }
    simpl.
    apply post_process_level_ok with (s := nth level (stride cfg) 0%Z).
    - exact Hok.
    - rewrite !permute_rows_length. reflexivity.
    - rewrite !permute_rows_length. reflexivity.
    - rewrite !tmap_length, meshgrid_xy_length, permute_rows_length. reflexivity.
    - apply permute_rows_rows.
    - apply nth_error_nth'. exact Hlt. }
  rewrite Hrs. cbn [bind].
  assert (Hrsne : rs <> []).
  { rewrite enumerate_length in Hrslen. intro Hnil. subst rs.
    destruct L; [congruence|discriminate]. }
  rewrite !torch_cat_returns by (apply map_not_nil; exact Hrsne). cbn [bind].
  pose proof (multiclass_nms_ok (nms_thresh cfg) (num_classes cfg)
                (candidates_ok_concat HQ)) as Hnms.
  destruct (NMS.multiclass_nms _ _ _ _ _) as [[scores labels] bboxes].
  exists bboxes, scores, labels. split; [reflexivity|exact Hnms].
Qed.

Lemma inference_levels_decode (cfg : config) (preds : list head_out) :
  no_decode cfg = false ->
  (1 <= num_classes cfg)%nat ->
  mapM (fun lp => level_preds cfg (fst lp) (snd lp))
       (enumerate (firstn (length (stride cfg)) preds))
  = Returns (map (level_tensors cfg) (enumerate (firstn (length (stride cfg)) preds))).
Proof.
  intros Hnd HC. apply mapM_returns. intros [level p] Hin.
  apply level_preds_decode; [exact Hnd|exact HC|].
  apply enumerate_In in Hin. simpl.
  apply Nat.lt_le_trans with (length (firstn (length (stride cfg)) preds)).
  - apply nth_error_Some. congruence.
  - rewrite length_firstn. apply Nat.le_min_l.
Qed.

(** In decode mode the call returns the triple of [post_process], with the
    boxes divided by [max(img_h, img_w)] and clipped. *)
Lemma inference_decode_returns (argsort : list R -> list nat) (cfg : config)
    (img_h img_w : nat) (preds : list head_out) :
  sort_contract argsort ->
  no_decode cfg = false ->
  (1 <= num_classes cfg)%nat ->
  firstn (length (stride cfg)) preds <> [] ->
  exists bboxes scores labels,
    inference_single_image argsort cfg img_h img_w preds
    = Returns (Detections
                 (tmap clip01 (tmap (fun v => v / INR (Nat.max img_h img_w)) bboxes))
                 scores labels) /\
    candidates_ok cfg (scores, labels, bboxes).
Proof.
  intros Hok Hnd HC Hne. unfold inference_single_image.
  rewrite inference_levels_decode by assumption. cbn [bind]. rewrite Hnd.
  destruct (@post_process_on_levels argsort cfg (firstn (length (stride cfg)) preds) Hok)
    as [bboxes [scores [labels [Hpp Hcand]]]].
  { rewrite length_firstn. apply Nat.le_min_l. }
  { exact Hne. }
  rewrite Hpp. cbn [bind].
  exists bboxes, scores, labels. split; [reflexivity|exact Hcand].
Qed.

(** ** inference_single_image in decode mode *)

(** ** The clip over float32 *)

Module F32Facts.
Import F32.

Lemma compare_antisym (x y : float32) (c : comparison) :
  SFcompare x y = Some c -> SFcompare y x = Some (CompOpp c).
Proof.
  destruct x as [sx|sx| |sx mx ex], y as [sy|sy| |sy my ey];
    cbn [SFcompare]; try discriminate;
    intro E; injection E as <-;
    repeat match goal with s : bool |- _ => destruct s end;
    try reflexivity.
  - rewrite (Z.compare_antisym ex ey).
    destruct (Z.compare ex ey); cbn [CompOpp]; try reflexivity.
    rewrite (Pos.compare_cont_antisym mx my Eq). reflexivity.
  - rewrite (Z.compare_antisym ex ey).
    destruct (Z.compare ex ey); cbn [CompOpp]; try reflexivity.
    rewrite (Pos.compare_cont_antisym mx my Eq). reflexivity.
Qed.

Lemma not_ltb_leb (x y : float32) :
  is_nan x = false -> is_nan y = false -> SFltb x y = false -> leb y x = true.
Proof.
  intros Hx Hy Hlt. unfold leb, SFleb. unfold SFltb in Hlt.
  destruct (SFcompare x y) as [c|] eqn:Hc.
  - rewrite (compare_antisym _ _ Hc). destruct c; [reflexivity|discriminate|reflexivity].
  - destruct x, y; cbn in Hc; try discriminate; cbn in Hx, Hy; discriminate.
Qed.

(** The clip of a NumPy array: a NaN stays a NaN, every other value,
    the infinities included, goes into [[0, 1]]. *)
Lemma clip01_nan_or_range (v : float32) :
  (is_nan v = true /\ is_nan (clip01 v) = true) \/
  (is_nan v = false /\ leb zero (clip01 v) = true /\ leb (clip01 v) one = true).
Proof.
  destruct (is_nan v) eqn:Hnan.
  - left. destruct v; try discriminate. split; reflexivity.
  - right. split; [reflexivity|].
    assert (Hclip : clip01 v
                    = if SFltb v zero then zero else if SFltb one v then one else v)
      by (destruct v; try reflexivity; discriminate).
    rewrite Hclip.
    destruct (SFltb v zero) eqn:H0; [split; reflexivity|].
    destruct (SFltb one v) eqn:H1; [split; reflexivity|].
    split.
    + apply not_ltb_leb; [exact Hnan|reflexivity|exact H0].
    + apply not_ltb_leb; [reflexivity|exact Hnan|exact H1].
Qed.

(** Whatever the prediction maps hold (NaN and the infinities included)
    and whatever the sort returns, every box coordinate that
    [inference_single_image] returns in decode mode is NaN or lies in
    [[0, 1]]: the clip is the last operation on the boxes. *)
Lemma returned_coordinate_nan_or_in_range
    (argsort : list float32 -> list nat) (cfg : config) (img_h img_w : nat)
    (preds : list head_out) (bboxes : tensor) (scores : list float32)
    (labels : list nat) :
  inference_single_image argsort cfg img_h img_w preds
  = Returns (Detections bboxes scores labels) ->
  Forall (Forall (fun v => is_nan v = true \/
                           (leb zero v = true /\ leb v one = true))) bboxes.
Proof.
  unfold inference_single_image. intro Hret.
  destruct (mapM _ _) as [levels|e]; cbn [bind] in Hret; [|discriminate].
  destruct (no_decode cfg).
  - repeat match type of Hret with
           | context [bind (torch_cat ?l)] =>
               destruct (torch_cat l); cbn [bind] in Hret; [|discriminate]
           end.
    discriminate.
  - destruct (post_process _ _ _ _ _ _) as [[[raw sc] lb]|e];
      cbn [bind] in Hret; [|discriminate].
    injection Hret as <- _ _.
    unfold tmap. rewrite !Forall_map. rewrite Forall_forall. intros row _.
    rewrite !Forall_map. rewrite Forall_forall. intros v _.
    destruct (clip01_nan_or_range (div v (of_nat (Nat.max img_h img_w))))
      as [[_ H]|[_ H]]; [left|right]; exact H.
Qed.

End F32Facts.

(** C6.  In decode mode, with at least one class and a pyramid of at least
    one level, the call returns detections whose scores are strictly above
    [conf_thresh] and at most 1 and whose labels are below [num_classes];
    scores, labels and boxes are aligned.  The boxes are those of
    [post_process] divided by [max(img_h, img_w)] and clipped: with the
    arithmetic read over the real numbers every coordinate lies in
    [[0, 1]], and over float32, whatever the prediction maps hold, every
    coordinate the call returns lies in [[0, 1]] or is NaN. *)
Theorem inference_detections_in_range
    (argsort : list R -> list nat) (cfg : config) (img_h img_w : nat)
    (preds : list head_out) :
  sort_contract argsort ->
  no_decode cfg = false ->
  (1 <= num_classes cfg)%nat ->
  firstn (length (stride cfg)) preds <> [] ->
  (exists bboxes scores labels,
     inference_single_image argsort cfg img_h img_w preds
       = Returns (Detections bboxes scores labels) /\
     (exists raw, bboxes = tmap clip01 (tmap (fun v => v / INR (Nat.max img_h img_w)) raw)) /\
     length scores = length bboxes /\
     length labels = length bboxes /\
     Forall (Forall (fun v => 0 <= v <= 1)) bboxes /\
     Forall (fun sc => conf_thresh cfg < sc <= 1) scores /\
     Forall (fun l => (l < num_classes cfg)%nat) labels) /\
  (forall (argsort32 : list F32.float32 -> list nat) (cfg32 : F32.config)
          (preds32 : list F32.head_out)
          (bboxes32 : F32.tensor) (scores32 : list F32.float32) (labels32 : list nat),
     F32.inference_single_image argsort32 cfg32 img_h img_w preds32
     = Returns (F32.Detections bboxes32 scores32 labels32) ->
     Forall (Forall (fun v => F32.is_nan v = true \/
                              (F32.leb F32.zero v = true /\ F32.leb v F32.one = true)))
            bboxes32).
Proof.
  intros Hok Hnd HC Hne. split.
  - destruct (@inference_decode_returns argsort cfg img_h img_w preds Hok Hnd HC Hne)
      as [raw [scores [labels [Hret [H1 [H2 [H3 H4]]]]]]].
    simpl in H1, H2, H3, H4.
    eexists. exists scores, labels. split; [exact Hret|].
    split; [exists raw; reflexivity|].
    split; [rewrite !tmap_length; congruence|].
    split; [rewrite !tmap_length; congruence|].
    split; [|split; assumption].
    unfold tmap. rewrite !Forall_map. rewrite Forall_forall. intros row _.
    rewrite !Forall_map. rewrite Forall_forall. intros v _. apply clip01_range.
  - intros argsort32 cfg32 preds32 bboxes32 scores32 labels32 Hret.
    eapply F32Facts.returned_coordinate_nan_or_in_range. exact Hret.
Qed.

Lemma inference_detections_in_range_witness :
  sort_contract argsort_first_wins /\
  no_decode one_cell_config = false /\
  (1 <= num_classes one_cell_config)%nat /\
  firstn (length (stride one_cell_config)) [one_cell_head] <> [] /\
  (exists bboxes scores labels,
     inference_single_image argsort_first_wins one_cell_config 8 8 [one_cell_head]
       = Returns (Detections bboxes scores labels) /\
     (exists raw, bboxes = tmap clip01 (tmap (fun v => v / INR (Nat.max 8 8)) raw)) /\
     length scores = length bboxes /\
     length labels = length bboxes /\
     Forall (Forall (fun v => 0 <= v <= 1)) bboxes /\
     Forall (fun sc => conf_thresh one_cell_config < sc <= 1) scores /\
     Forall (fun l => (l < num_classes one_cell_config)%nat) labels) /\
  (forall (argsort32 : list F32.float32 -> list nat) (cfg32 : F32.config)
          (preds32 : list F32.head_out)
          (bboxes32 : F32.tensor) (scores32 : list F32.float32) (labels32 : list nat),
     F32.inference_single_image argsort32 cfg32 8 8 preds32
     = Returns (F32.Detections bboxes32 scores32 labels32) ->
     Forall (Forall (fun v => F32.is_nan v = true \/
                              (F32.leb F32.zero v = true /\ F32.leb v F32.one = true)))
            bboxes32).
Proof.
  split; [exact argsort_first_wins_contract|]. split; [reflexivity|].
  split; [simpl; lia|]. split; [discriminate|].
  apply (@inference_detections_in_range argsort_first_wins one_cell_config 8 8
           [one_cell_head] argsort_first_wins_contract).
  - reflexivity.
  - simpl. lia.
  - discriminate.
Defined.

(** C6, as stated, fails over float32.  On a 32 x 32 image, one level of
    stride 8 with one cell and one class: the logits of the cell are 0, so
    its score is 0.5, above the threshold 0.25, and its finite regression
    [(2^126, 0, 100, 0)] decodes to the box [(NaN, 0, +inf, 8)].  The box
    is the only candidate and is kept; the division by 32 and the clip
    leave the NaN in place.  The call returns the box
    [(NaN, 0, 1, 0.25)], whose first coordinate is not in [[0, 1]].  (The
    sort has one score to sort.) *)
Lemma inference_nan_box_counterexample :
  forallb F32.is_finite F32.overflow_reg = true /\
  F32.inference_single_image F32.argsort_first_wins F32.overflow_config 32 32
                             [F32.overflow_head]
  = Returns (F32.Detections [[F32.nan; F32.zero; F32.one; F32.dyadic 1 (-2)]]
                            [F32.half] [0%nat]) /\
  F32.leb F32.zero F32.nan = false /\
  F32.leb F32.nan F32.one = false.
Proof.
  repeat split; vm_compute; reflexivity.
Qed.

(** C9, as the code has it.  Neither [__init__] nor
    [inference_single_image] checks the configuration: for every
    configuration, an NMS threshold outside [[0, 1]] or a negative [topk]
    included, the call (with at least one class and a pyramid of at least
    one level) returns a result and raises nothing. *)
Theorem inference_returns_for_every_config
    (argsort : list R -> list nat) (cfg : config) (img_h img_w : nat)
    (preds : list head_out) :
  sort_contract argsort ->
  (1 <= num_classes cfg)%nat ->
  firstn (length (stride cfg)) preds <> [] ->
  exists out, inference_single_image argsort cfg img_h img_w preds = Returns out.
Proof.
  intros Hok HC Hne. destruct (no_decode cfg) eqn:Hnd.
  - eexists. apply inference_no_decode_returns; assumption.
  - destruct (@inference_decode_returns argsort cfg img_h img_w preds Hok Hnd HC Hne)
      as [raw [scores [labels [Hret _]]]].
    eexists. exact Hret.
Qed.

Lemma inference_returns_for_every_config_witness :
  sort_contract argsort_first_wins /\
  (1 <= num_classes out_of_range_config)%nat /\
  firstn (length (stride out_of_range_config)) [one_cell_head] <> [] /\
  exists out,
    inference_single_image argsort_first_wins out_of_range_config 8 8 [one_cell_head]
    = Returns out.
Proof.
  split; [exact argsort_first_wins_contract|].
  split; [simpl; lia|]. split; [discriminate|].
  apply (@inference_returns_for_every_config argsort_first_wins out_of_range_config 8 8
           [one_cell_head] argsort_first_wins_contract).
  - simpl. lia.
  - discriminate.
Defined.

(** C9, as stated, fails: with an NMS threshold of 2 and [topk = -1] the
    call does not fail, it returns detections. *)
Lemma invalid_config_counterexample :
  invalid_configuration out_of_range_config /\
  exists bboxes scores labels,
    inference_single_image argsort_first_wins out_of_range_config 8 8 [one_cell_head]
    = Returns (Detections bboxes scores labels).
Proof.
  split.
  - left. simpl. lra.
  - destruct (@inference_decode_returns argsort_first_wins out_of_range_config 8 8
                [one_cell_head] argsort_first_wins_contract eq_refl)
      as [raw [scores [labels [Hret _]]]]; [simpl; lia|discriminate|].
    eexists. exists scores, labels. exact Hret.
Qed.

(** ** Ties and the choice of the sort *)

Lemma sorted_perm_unique (key : nat -> R) (l1 l2 : list nat) :
  Permutation l1 l2 ->
  (forall x y, In x l1 -> In y l1 -> key x = key y -> x = y) ->
  StronglySorted Rge (map key l1) ->
  StronglySorted Rge (map key l2) ->
  l1 = l2.
Proof.
  revert l2. induction l1 as [|a l1 IH]; intros l2 Hperm Hinj Hs1 Hs2.
  - apply Permutation_nil in Hperm. congruence.
  - destruct l2 as [|b l2];
      [apply Permutation_sym, Permutation_nil in Hperm; discriminate|].
    simpl in Hs1, Hs2.
    apply StronglySorted_inv in Hs1 as [Hs1 Ha].
    apply StronglySorted_inv in Hs2 as [Hs2 Hb].
    rewrite Forall_forall in Ha, Hb.
    assert (Hab : a = b).
    { destruct (Nat.eq_dec a b) as [Heq|Hne]; [exact Heq|].
      assert (Ha2 : In a l2).
      { destruct (Permutation_in _ Hperm (or_introl eq_refl)) as [Hx|Hx];
          [congruence|exact Hx]. }
      assert (Hb1 : In b l1).
      { destruct (Permutation_in _ (Permutation_sym Hperm) (or_introl eq_refl))
          as [Hx|Hx]; [congruence|exact Hx]. }
      pose proof (Ha _ (in_map key _ _ Hb1)) as Hge1.
      pose proof (Hb _ (in_map key _ _ Ha2)) as Hge2.
      apply Hinj; [left; reflexivity|right; exact Hb1|lra]. }
    subst b. f_equal. apply IH.
    + apply (Permutation_cons_inv Hperm).
    + intros x y Hx Hy. apply Hinj; right; assumption.
    + exact Hs1.
    + exact Hs2.
Qed.

Lemma argsort_unique (a1 a2 : list R -> list nat) (scores : list R) :
  sort_contract a1 -> sort_contract a2 -> NoDup scores ->
  a1 scores = a2 scores.
Proof.
  intros H1 H2 Hnd.
  destruct (H1 scores) as [Hp1 Hs1]. destruct (H2 scores) as [Hp2 Hs2].
  apply (@sorted_perm_unique (fun i => nth i scores 0)).
  - apply perm_trans with (seq 0 (length scores));
      [exact Hp1|apply Permutation_sym; exact Hp2].
  - intros x y Hx Hy Heq.
    apply (argsort_In H1) in Hx. apply (argsort_In H1) in Hy.
    apply (proj1 (NoDup_nth scores 0) Hnd x y Hx Hy Heq).
  - exact Hs1.
  - exact Hs2.
Qed.

Lemma post_process_level_sort_indep (a1 a2 : list R -> list nat) (cfg : config)
    (level : nat) (obj cls reg : tensor) (anchors : option tensor) :
  a1 (fused_scores obj cls) = a2 (fused_scores obj cls) ->
  topk_select a1 cfg (fused_scores obj cls) reg
    = topk_select a2 cfg (fused_scores obj cls) reg /\
  post_process_level a1 cfg level obj cls reg anchors
    = post_process_level a2 cfg level obj cls reg anchors.
Proof.
  intro Heq. unfold post_process_level, topk_select, sort_descending.
  rewrite Heq. split; reflexivity.
Qed.

Lemma mapM_ext_in (A B : Type) (f g : A -> outcome B) (l : list A) :
  (forall a, In a l -> f a = g a) -> mapM f l = mapM g l.
Proof.
  induction l as [|a l IH]; intro Hfg; simpl; [reflexivity|].
  rewrite (Hfg a (or_introl eq_refl)).
  rewrite IH by (intros b Hb; apply Hfg; right; exact Hb).
  reflexivity.
Qed.

(** X23.  The code sorts with [torch.sort] without asking for a stable
    sort, so it does not fix the order of equal scores itself.  When the
    fused scores of every level are pairwise distinct, the per-level
    selection and the output of the whole call are the same for any two
    sorts that meet the contract of [torch.sort]: without ties the result
    does not depend on the sort. *)
Theorem selection_determined_without_ties
    (a1 a2 : list R -> list nat) (cfg : config) (img_h img_w : nat)
    (preds : list head_out) :
  sort_contract a1 ->
  sort_contract a2 ->
  (forall p, In p (firstn (length (stride cfg)) preds) ->
     NoDup (fused_scores (permute_rows (fmp_h p) (fmp_w p) 1 (obj_at p))
                         (permute_rows (fmp_h p) (fmp_w p) (num_classes cfg) (cls_at p)))) ->
  (forall p, In p (firstn (length (stride cfg)) preds) ->
     topk_select a1 cfg
       (fused_scores (permute_rows (fmp_h p) (fmp_w p) 1 (obj_at p))
                     (permute_rows (fmp_h p) (fmp_w p) (num_classes cfg) (cls_at p)))
       (permute_rows (fmp_h p) (fmp_w p) 4 (reg_at p))
     = topk_select a2 cfg
       (fused_scores (permute_rows (fmp_h p) (fmp_w p) 1 (obj_at p))
                     (permute_rows (fmp_h p) (fmp_w p) (num_classes cfg) (cls_at p)))
       (permute_rows (fmp_h p) (fmp_w p) 4 (reg_at p))) /\
  inference_single_image a1 cfg img_h img_w preds
  = inference_single_image a2 cfg img_h img_w preds.
Proof.
  intros H1 H2 Hties. split.
  - intros p Hp.
    eapply proj1.
    apply post_process_level_sort_indep with (level := 0%nat) (anchors := @None tensor).
    apply argsort_unique; auto.
  - destruct (no_decode cfg) eqn:Hnd.
    + unfold inference_single_image.
      destruct (mapM _ _) as [levels|e]; cbn [bind]; [|reflexivity].
      rewrite Hnd. reflexivity.
    + destruct (Nat.eq_dec (num_classes cfg) 0) as [HC0|HC0].
      { unfold inference_single_image.
        destruct (firstn (length (stride cfg)) preds) as [|p L]; [reflexivity|].
        cbn [enumerate length seq combine mapM fst snd].
        unfold level_preds at 1 3. rewrite HC0.
        destruct (if no_decode cfg then _ else _); reflexivity. }
      unfold inference_single_image.
      rewrite inference_levels_decode by (auto; lia). cbn [bind]. rewrite Hnd.
      f_equal. unfold post_process.
      rewrite !map_map, zip4_map, enumerate_map_enumerate, !mapM_map.
      f_equal. apply mapM_ext_in. intros [level p] Hin.
      apply enumerate_In, nth_error_In in Hin. simpl.
      eapply proj2. apply post_process_level_sort_indep.
      apply argsort_unique; auto.
Qed.

Lemma sigmoid_inj (x y : R) : sigmoid x = sigmoid y -> x = y.
Proof.
  unfold sigmoid. intro H.
  pose proof (exp_pos (- x)) as Hx. pose proof (exp_pos (- y)) as Hy.
  assert (He : exp (- x) = exp (- y)).
  { apply (f_equal Rinv) in H. unfold Rdiv in H.
    rewrite !Rmult_1_l, !Rinv_inv in H. lra. }
  apply exp_inv in He. lra.
Qed.

Lemma one_cell_scores_NoDup : NoDup one_cell_scores.
Proof.
  change one_cell_scores
    with [sqrt (sigmoid 10 * sigmoid 10); sqrt (sigmoid 10 * sigmoid (-10))].
  pose proof (sigmoid_range 10) as H10. pose proof (sigmoid_range (-10)) as Hm10.
  constructor; [|constructor; [intros []|constructor]].
  intros [H|[]].
  apply sqrt_inj in H; [|nra|nra].
  apply Rmult_eq_reg_l in H; [|lra].
  apply sigmoid_inj in H. lra.
Qed.

Lemma selection_determined_without_ties_witness :
  sort_contract argsort_first_wins /\
  sort_contract argsort_last_wins /\
  (forall p, In p (firstn (length (stride one_cell_config)) [one_cell_head]) ->
     NoDup (fused_scores (permute_rows (fmp_h p) (fmp_w p) 1 (obj_at p))
                         (permute_rows (fmp_h p) (fmp_w p) (num_classes one_cell_config)
                                       (cls_at p)))) /\
  inference_single_image argsort_first_wins one_cell_config 8 8 [one_cell_head]
  = inference_single_image argsort_last_wins one_cell_config 8 8 [one_cell_head].
Proof.
  assert (Hties : forall p,
             In p (firstn (length (stride one_cell_config)) [one_cell_head]) ->
             NoDup (fused_scores (permute_rows (fmp_h p) (fmp_w p) 1 (obj_at p))
                                 (permute_rows (fmp_h p) (fmp_w p)
                                    (num_classes one_cell_config) (cls_at p)))).
  { intros p [<-|[]]. exact one_cell_scores_NoDup. }
  split; [exact argsort_first_wins_contract|].
  split; [exact argsort_last_wins_contract|].
  split; [exact Hties|].
  apply (@selection_determined_without_ties argsort_first_wins argsort_last_wins
           one_cell_config 8 8 [one_cell_head]
           argsort_first_wins_contract argsort_last_wins_contract Hties).
Defined.

(** The contract alone leaves the order of equal scores open:
    [argsort_last_wins] meets it and, on a cell whose two classes have the
    same fused score, with room for one candidate, makes the selection
    keep flat index 1 and drop flat index 0. *)
Lemma sort_contract_leaves_ties_open :
  sort_contract argsort_last_wins /\
  nth 0 tie_scores 0 = nth 1 tie_scores 0 /\
  snd (topk_select argsort_last_wins one_cell_config tie_scores
                   (permute_rows 1 1 4 (reg_at tie_head)))
  = [1%nat].
Proof.
  split; [exact argsort_last_wins_contract|]. split; [reflexivity|].
  rewrite topk_select_eq. cbn [snd].
  assert (Hsort : argsort_last_wins tie_scores = [1; 0]%nat).
  { unfold argsort_last_wins.
    change (seq 0 (length tie_scores)) with [0; 1]%nat.
    cbn [isort_by fold_right insert_by].
    assert (Hb : score_desc_index_desc tie_scores 0 1 = false).
    { unfold score_desc_index_desc.
      change (nth 1 tie_scores 0) with (nth 0 tie_scores 0).
      apply orb_false_iff. split.
      - apply Rgtb_false. lra.
      - apply andb_false_iff. right. reflexivity. }
    rewrite Hb. reflexivity. }
  rewrite Hsort. reflexivity.
Qed.

(** ** Two further runs of multiclass_nms

    Identical boxes of one class: the higher score is kept and the other
    one suppressed.  Identical boxes of two classes: both are kept, although
    their IoU is 1. *)

Lemma unit_box_iou : NMS.iou [0; 0; 1; 1] [0; 0; 1; 1] = 1.
Proof.
  assert (Hi : NMS.inter_area [0; 0; 1; 1] [0; 0; 1; 1] = 1).
  { unfold NMS.inter_area, NMS.coord. simpl nth.
    rewrite (Rmin_left 1 1) by lra. rewrite (Rmax_left 0 0) by lra.
    rewrite (Rmax_right 0 (1 - 0)) by lra. ring. }
  assert (Ha : NMS.box_area [0; 0; 1; 1] = 1).
  { unfold NMS.box_area, NMS.coord. simpl nth.
    rewrite Rmax_right by lra. ring. }
  assert (Hu : NMS.union_area [0; 0; 1; 1] [0; 0; 1; 1] = 1).
  { unfold NMS.union_area. rewrite Hi, Ha. rewrite Rmax_left by lra. reflexivity. }
  unfold NMS.iou. rewrite Hi, Hu.
  destruct (Req_dec_T 1 0); lra.
Qed.

Example same_class_duplicate_suppressed :
  NMS.multiclass_nms [0.9; 0.5] [0%nat; 0%nat] [[0; 0; 1; 1]; [0; 0; 1; 1]] 0.5 1
  = ([0.9], [0%nat], [[0; 0; 1; 1]]).
Proof.
  unfold NMS.multiclass_nms, NMS.suppress. cbn [seq flat_map].
  change (NMS.gather_class [0%nat; 0%nat] 0) with [0%nat; 1%nat].
  cbn [isort_by fold_right insert_by].
  assert (Hb : score_desc_index_asc [0.9; 0.5] 0 1 = true).
  { unfold score_desc_index_asc. simpl nth.
    apply orb_true_iff. left. apply Rgtb_true. lra. }
  rewrite Hb.
  rewrite NMS.greedy_equation_2. cbn [filter nth]. rewrite unit_box_iou.
  assert (Hgt : Rgtb 1 0.5 = true) by (apply Rgtb_true; lra).
  rewrite Hgt. cbn [negb]. rewrite NMS.greedy_equation_1. reflexivity.
Qed.

Example different_classes_both_kept :
  NMS.multiclass_nms [0.9; 0.5] [0%nat; 1%nat] [[0; 0; 1; 1]; [0; 0; 1; 1]] 0.5 2
  = ([0.9; 0.5], [0%nat; 1%nat], [[0; 0; 1; 1]; [0; 0; 1; 1]]) /\
  NMS.iou [0; 0; 1; 1] [0; 0; 1; 1] > 0.5.
Proof.
  split; [|rewrite unit_box_iou; lra].
  unfold NMS.multiclass_nms, NMS.suppress. cbn [seq flat_map].
  change (NMS.gather_class [0%nat; 1%nat] 0) with [0%nat].
  change (NMS.gather_class [0%nat; 1%nat] 1) with [1%nat].
  cbn [isort_by fold_right insert_by].
  rewrite !NMS.greedy_equation_2. cbn [filter].
  rewrite NMS.greedy_equation_1. reflexivity.
Qed.

(** ** A complete run

    One level of stride 8 with one cell and two classes, objectness logit
    10, class logits 10 and -10, regression 0, on an 8 x 8 image: the call
    returns one detection of class 0 whose normalised box is
    [(0, 0, 1, 1)]. *)

Lemma one_cell_scores_eq :
  one_cell_scores = [sqrt (sigmoid 10 * sigmoid 10); sqrt (sigmoid 10 * sigmoid (-10))].
Proof. reflexivity. Qed.

Lemma sigmoid_increasing (x y : R) : x < y -> sigmoid x < sigmoid y.
Proof.
  intro Hxy. unfold sigmoid.
  pose proof (exp_pos (- x)) as Hx. pose proof (exp_pos (- y)) as Hy.
  assert (He : exp (- y) < exp (- x)) by (apply exp_increasing; lra).
  unfold Rdiv. rewrite !Rmult_1_l.
  apply Rinv_lt_contravar; [nra|lra].
Qed.

Lemma one_cell_scores_order : nth 0 one_cell_scores 0 > nth 1 one_cell_scores 0.
Proof.
  rewrite one_cell_scores_eq. cbn [nth].
  pose proof (sigmoid_range 10) as H10. pose proof (sigmoid_range (-10)) as Hm10.
  assert (Hlt : sigmoid (-10) < sigmoid 10) by (apply sigmoid_increasing; lra).
  apply sqrt_lt_1_alt. nra.
Qed.

Lemma one_cell_top_score : nth 0 one_cell_scores 0 > 0.05.
Proof.
  rewrite one_cell_scores_eq. cbn [nth].
  assert (Hs : 0.5 < sigmoid 10).
  { replace 0.5 with (sigmoid 0); [apply sigmoid_increasing; lra|].
    unfold sigmoid. rewrite Ropp_0, exp_0. lra. }
  rewrite sqrt_square by lra. lra.
Qed.

Lemma one_cell_argsort : argsort_first_wins one_cell_scores = [0; 1]%nat.
Proof.
  unfold argsort_first_wins.
  change (seq 0 (length one_cell_scores)) with [0; 1]%nat.
  cbn [isort_by fold_right insert_by].
  assert (Hb : score_desc_index_asc one_cell_scores 0 1 = true).
  { unfold score_desc_index_asc. apply orb_true_iff. left.
    apply Rgtb_true, one_cell_scores_order. }
  rewrite Hb. reflexivity.
Qed.

Lemma one_cell_level (a : list R) :
  post_process_level argsort_first_wins one_cell_config 0
    one_cell_obj one_cell_cls one_cell_reg (Some [a])
  = Returns ([sqrt (sigmoid 10 * sigmoid 10)], [0%nat],
             decode_boxes [a] [[0; 0; 0; 0]] 8).
Proof.
  rewrite post_process_level_returns with (s := 8%Z);
    try reflexivity; try exact argsort_first_wins_contract;
    [|repeat constructor].
  cbv zeta. rewrite topk_select_eq. cbn [snd].
  change (fused_scores one_cell_obj one_cell_cls) with one_cell_scores.
  rewrite one_cell_argsort.
  change (slice_to _ [0; 1]%nat) with [0%nat].
  cbn [filter].
  assert (Hb : Rgtb (nth 0 one_cell_scores 0) (conf_thresh one_cell_config) = true)
    by (apply Rgtb_true, one_cell_top_score).
  rewrite Hb. reflexivity.
Qed.

Lemma single_candidate_nms (s th : R) (b : list R) :
  NMS.multiclass_nms [s] [0%nat] [b] th 2 = ([s], [0%nat], [b]).
Proof.
  unfold NMS.multiclass_nms, NMS.suppress. cbn [seq flat_map].
  change (NMS.gather_class [0%nat] 0) with [0%nat].
  change (NMS.gather_class [0%nat] 1) with (@nil nat).
  cbn [isort_by fold_right insert_by].
  rewrite NMS.greedy_equation_2. cbn [filter]. rewrite !NMS.greedy_equation_1.
  reflexivity.
Qed.

Lemma clip01_id (v : R) : 0 <= v <= 1 -> clip01 v = v.
Proof.
  intros [H0 H1]. unfold clip01.
  rewrite Rmax_left by lra. apply Rmin_left. exact H1.
Qed.

Example one_cell_inference :
  inference_single_image argsort_first_wins one_cell_config 8 8 [one_cell_head]
  = Returns (Detections [[0; 0; 1; 1]] [sqrt (sigmoid 10 * sigmoid 10)] [0%nat]).
Proof.
  unfold inference_single_image.
  rewrite inference_levels_decode by (simpl; auto).
  cbn [bind]. change (no_decode one_cell_config) with false. cbv iota.
  unfold post_process.
  rewrite !map_map, zip4_map, enumerate_map_enumerate, mapM_map.
  change (enumerate (firstn (length (stride one_cell_config)) [one_cell_head]))
    with [(0%nat, one_cell_head)].
  cbn [mapM fst snd].
  change (post_process_level argsort_first_wins one_cell_config 0 _ _ _ _)
    with (post_process_level argsort_first_wins one_cell_config 0
            one_cell_obj one_cell_cls one_cell_reg
            (Some [[(INR 0 + 0.5) * IZR 8; (INR 0 + 0.5) * IZR 8]])).
  rewrite one_cell_level.
  cbn [bind map fst snd torch_cat concat app].
  change (decode_boxes [[(INR 0 + 0.5) * IZR 8; (INR 0 + 0.5) * IZR 8]] [[0; 0; 0; 0]] 8)
    with [[ (INR 0 + 0.5) * IZR 8 + 0 * IZR 8 - 0.5 * (exp 0 * IZR 8);
            (INR 0 + 0.5) * IZR 8 + 0 * IZR 8 - 0.5 * (exp 0 * IZR 8);
            (INR 0 + 0.5) * IZR 8 + 0 * IZR 8 + 0.5 * (exp 0 * IZR 8);
            (INR 0 + 0.5) * IZR 8 + 0 * IZR 8 + 0.5 * (exp 0 * IZR 8) ]].
  change (num_classes one_cell_config) with 2%nat.
  rewrite app_nil_r, single_candidate_nms. cbn [bind].
  cbn [tmap map]. rewrite exp_0.
  change (INR (Nat.max 8 8)) with (INR 8). change (INR 0) with 0.
  replace ((0 + 0.5) * 8 + 0 * 8 - 0.5 * (1 * 8)) with 0 by lra.
  replace ((0 + 0.5) * 8 + 0 * 8 + 0.5 * (1 * 8)) with 8 by lra.
  replace (0 / INR 8) with 0 by (unfold Rdiv; ring).
  replace (8 / INR 8) with 1 by (simpl INR; field).
  rewrite !clip01_id by lra. reflexivity.
Qed.

(** * Further properties of the pipeline *)

(** ** Where the grid points lie *)

Lemma meshgrid_xy_In (H W : nat) (a : list R) :
  In a (meshgrid_xy H W) ->
  exists i j, (i < H)%nat /\ (j < W)%nat /\ a = [INR j; INR i].
Proof.
  unfold meshgrid_xy. intro Ha. apply in_flat_map in Ha as [i [Hi Ha]].
  apply in_map_iff in Ha as [j [<- Hj]].
  apply in_seq in Hi. apply in_seq in Hj.
  exists i, j. repeat split; lia.
Qed.

Lemma INR_succ_le (j W : nat) : (j < W)%nat -> INR j + 1 <= INR W.
Proof.
  intro Hj. rewrite <- S_INR. apply le_INR. lia.
Qed.

(** X1.  With a positive stride every grid point of a level lies strictly
    inside the rectangle the level covers: [0 < x < W * s] and
    [0 < y < H * s]. *)
Theorem generate_anchors_inside (cfg : config) (level : nat) (s : Z) (H W : nat) :
  nth_error (stride cfg) level = Some s ->
  (0 < s)%Z ->
  exists anchors : tensor,
    generate_anchors cfg level (H, W) = Returns anchors /\
    Forall (fun a => exists x y, a = [x; y] /\
                       0 < x < INR W * IZR s /\ 0 < y < INR H * IZR s)
           anchors.
Proof.
  intros Hs Hpos. eexists. split; [apply (generate_anchors_returns _ _ _ _ Hs)|].
  assert (HsR : 0 < IZR s) by (apply IZR_lt; exact Hpos).
  unfold tmap. rewrite !Forall_map. rewrite Forall_forall. intros a Ha.
  apply meshgrid_xy_In in Ha as [i [j [Hi [Hj ->]]]].
  pose proof (pos_INR i) as Hi0. pose proof (pos_INR j) as Hj0.
  pose proof (INR_succ_le Hi) as Hi1. pose proof (INR_succ_le Hj) as Hj1.
  simpl. eexists. eexists. split; [reflexivity|]. split; split; nra.
Qed.

Lemma generate_anchors_inside_witness :
  nth_error (stride default_config) 2 = Some 32%Z /\
  (0 < 32)%Z /\
  exists anchors : tensor,
    generate_anchors default_config 2 (2, 3)%nat = Returns anchors /\
    Forall (fun a => exists x y, a = [x; y] /\
                       0 < x < INR 3 * IZR 32 /\ 0 < y < INR 2 * IZR 32)
           anchors.
Proof.
  split; [reflexivity|]. split; [lia|].
  apply (@generate_anchors_inside default_config 2 32 2 3); [reflexivity|lia].
Defined.

Lemma grid_index_split (W H k : nat) :
  (k < H * W)%nat ->
  (k / W < H)%nat /\ (k mod W < W)%nat /\ (k = k / W * W + k mod W)%nat.
Proof.
  intro Hk. assert (HW : (W <> 0)%nat) by lia.
  split; [apply Nat.Div0.div_lt_upper_bound; lia|].
  split; [apply Nat.mod_upper_bound; exact HW|].
  rewrite (Nat.div_mod_eq k W) at 1. lia.
Qed.

(** X2.  With a non-zero stride the grid points of a level are pairwise
    distinct: two different cells never share a grid point. *)
Theorem generate_anchors_distinct (cfg : config) (level : nat) (s : Z) (H W : nat) :
  nth_error (stride cfg) level = Some s ->
  s <> 0%Z ->
  exists anchors : tensor,
    generate_anchors cfg level (H, W) = Returns anchors /\ NoDup anchors.
Proof.
  intros Hs Hne. eexists. split; [apply (generate_anchors_returns _ _ _ _ Hs)|].
  assert (HsR : IZR s <> 0) by (apply not_0_IZR; exact Hne).
  apply NoDup_nth_error. intros k k' Hk Heq.
  rewrite !tmap_length, meshgrid_xy_length in Hk.
  assert (Hk' : (k' < H * W)%nat).
  { rewrite <- (meshgrid_xy_length H W), <- (tmap_length (fun v => v + 0.5)),
            <- (tmap_length (fun v => v * IZR s)).
    apply nth_error_Some. rewrite <- Heq.
    apply nth_error_Some. rewrite !tmap_length, meshgrid_xy_length. exact Hk. }
  apply grid_index_split in Hk as [Hr [Hc Hdec]].
  apply grid_index_split in Hk' as [Hr' [Hc' Hdec']].
  rewrite Hdec, Hdec' in Heq.
  rewrite !tmap_nth_error in Heq.
  rewrite (meshgrid_xy_nth_error Hr Hc), (meshgrid_xy_nth_error Hr' Hc') in Heq.
  simpl in Heq. injection Heq as Hx Hy.
  apply Rmult_eq_reg_r in Hx; [|exact HsR].
  apply Rmult_eq_reg_r in Hy; [|exact HsR].
  apply Rplus_eq_reg_r, INR_eq in Hx. apply Rplus_eq_reg_r, INR_eq in Hy.
  rewrite Hdec, Hdec', Hx, Hy. reflexivity.
Qed.

Lemma generate_anchors_distinct_witness :
  nth_error (stride default_config) 0 = Some 8%Z /\
  8%Z <> 0%Z /\
  exists anchors : tensor,
    generate_anchors default_config 0 (4, 5)%nat = Returns anchors /\ NoDup anchors.
Proof.
  split; [reflexivity|]. split; [lia|].
  apply (@generate_anchors_distinct default_config 0 8 4 5); [reflexivity|lia].
Defined.

(** ** Decoding the regression of a cell *)

(** X3.  A zero regression decodes to the cell itself: for the grid point
    of cell [(row, col)] of a level of stride [s] and the regression
    [(0, 0, 0, 0)], the decoded box is
    [(col * s, row * s, (col + 1) * s, (row + 1) * s)]. *)
Theorem zero_regression_decodes_to_cell
    (cfg : config) (level : nat) (s : Z) (H W row col : nat) (pred_regs : tensor) :
  nth_error (stride cfg) level = Some s ->
  (row < H)%nat -> (col < W)%nat ->
  nth_error pred_regs (row * W + col) = Some [0; 0; 0; 0] ->
  exists anchors : tensor,
    generate_anchors cfg level (H, W) = Returns anchors /\
    nth_error (decode_boxes anchors pred_regs s) (row * W + col)
    = Some [INR col * IZR s; INR row * IZR s;
            (INR col + 1) * IZR s; (INR row + 1) * IZR s].
Proof.
  intros Hs Hrow Hcol Hreg. eexists.
  split; [apply (generate_anchors_returns _ _ _ _ Hs)|].
  rewrite decode_boxes_nth_error
    with (ax := (INR col + 0.5) * IZR s) (ay := (INR row + 0.5) * IZR s)
         (tx := 0) (ty := 0) (tw := 0) (th := 0).
  - rewrite exp_0. do 2 f_equal; [|f_equal; [|f_equal; [|f_equal]]]; lra.
  - rewrite !tmap_nth_error, (meshgrid_xy_nth_error Hrow Hcol). reflexivity.
  - exact Hreg.
Qed.

Lemma zero_regression_decodes_to_cell_witness :
  nth_error (stride default_config) 1 = Some 16%Z /\
  (1 < 2)%nat /\ (2 < 3)%nat /\
  nth_error (repeat [0; 0; 0; 0] 6) (1 * 3 + 2) = Some [0; 0; 0; 0] /\
  exists anchors : tensor,
    generate_anchors default_config 1 (2, 3)%nat = Returns anchors /\
    nth_error (decode_boxes anchors (repeat [0; 0; 0; 0] 6) 16) (1 * 3 + 2)
    = Some [INR 2 * IZR 16; INR 1 * IZR 16; (INR 2 + 1) * IZR 16; (INR 1 + 1) * IZR 16].
Proof.
  split; [reflexivity|]. split; [lia|]. split; [lia|]. split; [reflexivity|].
  apply (@zero_regression_decodes_to_cell default_config 1 16 2 3 1 2
           (repeat [0; 0; 0; 0] 6)); [reflexivity|lia|lia|reflexivity].
Defined.

(** ** The candidates of a level *)

Lemma post_process_level_surviving (argsort : list R -> list nat) (cfg : config)
    (level : nat) (obj cls reg anchors : tensor) (s : Z) :
  sort_contract argsort ->
  length obj = length reg -> length cls = length reg -> length anchors = length reg ->
  Forall (fun r => length r = num_classes cfg) cls ->
  nth_error (stride cfg) level = Some s ->
  post_process_level argsort cfg level obj cls reg (Some anchors)
  = Returns (map (fun i => nth i (fused_scores obj cls) 0)
                 (surviving_idxs argsort cfg obj cls reg),
             map (fun i => (i mod num_classes cfg)%nat)
                 (surviving_idxs argsort cfg obj cls reg),
             decode_boxes (map (fun i => nth (i / num_classes cfg) anchors [])
                               (surviving_idxs argsort cfg obj cls reg))
                          (map (fun i => nth (i / num_classes cfg) reg [])
                               (surviving_idxs argsort cfg obj cls reg)) s).
Proof.
  intros. rewrite post_process_level_returns with (s := s) by assumption.
  reflexivity.
Qed.

Lemma surviving_idxs_NoDup (argsort : list R -> list nat) (cfg : config)
    (obj cls reg : tensor) :
  sort_contract argsort -> NoDup (surviving_idxs argsort cfg obj cls reg).
Proof.
  intro Hok. unfold surviving_idxs. apply NoDup_filter.
  apply topk_idxs_NoDup. exact Hok.
Qed.

Lemma surviving_idxs_length_le (argsort : list R -> list nat) (cfg : config)
    (obj cls reg : tensor) :
  (length (surviving_idxs argsort cfg obj cls reg)
   <= length (snd (topk_select argsort cfg (fused_scores obj cls) reg)))%nat.
Proof. unfold surviving_idxs. apply filter_length_le. Qed.

Lemma StronglySorted_map_filter (A : Type) (f : A -> R) (p : A -> bool) (l : list A) :
  StronglySorted Rge (map f l) -> StronglySorted Rge (map f (filter p l)).
Proof.
  induction l as [|a l IH]; simpl; intro Hs; [constructor|].
  apply StronglySorted_inv in Hs as [Hs Ha].
  destruct (p a); simpl; [|apply IH; exact Hs].
  constructor; [apply IH; exact Hs|].
  rewrite Forall_map in *. rewrite Forall_forall in *.
  intros x Hx. apply Ha. apply filter_In in Hx. tauto.
Qed.

Lemma surviving_scores_sorted (argsort : list R -> list nat) (cfg : config)
    (obj cls reg : tensor) :
  sort_contract argsort ->
  StronglySorted Rge (map (fun i => nth i (fused_scores obj cls) 0)
                          (surviving_idxs argsort cfg obj cls reg)).
Proof.
  intro Hok. unfold surviving_idxs. apply StronglySorted_map_filter.
  pose proof (topk_scores_sorted Hok cfg (fused_scores obj cls) reg) as Hs.
  rewrite topk_select_eq in Hs. rewrite topk_select_eq. exact Hs.
Qed.

(** X4.  A negative [topk] does not stop the selection: as a slice bound
    it counts from the end, so the selection drops the [|topk|]
    lowest-scoring entries of the scoring surface and keeps the others
    (none when the surface has at most [|topk|] entries). *)
Theorem negative_topk_drops_lowest
    (argsort : list R -> list nat) (cfg : config) (scores_i : list R)
    (reg_pred_i : tensor) :
  sort_contract argsort ->
  (topk cfg < 0)%Z ->
  length (snd (topk_select argsort cfg scores_i reg_pred_i))
  = (length scores_i - Z.to_nat (- topk cfg))%nat /\
  forall i j,
    In i (snd (topk_select argsort cfg scores_i reg_pred_i)) ->
    (j < length scores_i)%nat ->
    ~ In j (snd (topk_select argsort cfg scores_i reg_pred_i)) ->
    nth i scores_i 0 >= nth j scores_i 0.
Proof.
  intros Hok Hneg. split.
  - rewrite topk_select_eq. cbn [snd].
    rewrite Z.min_l by lia. unfold slice_to.
    assert (Hb : (0 <=? topk cfg)%Z = false) by (apply Z.leb_gt; exact Hneg).
    rewrite Hb, length_firstn, (argsort_length Hok). lia.
  - intros i j. apply topk_idxs_highest. exact Hok.
Qed.

Lemma negative_topk_drops_lowest_witness :
  sort_contract argsort_first_wins /\
  (topk out_of_range_config < 0)%Z /\
  length (snd (topk_select argsort_first_wins out_of_range_config one_cell_scores
                           one_cell_reg))
  = (length one_cell_scores - Z.to_nat (- topk out_of_range_config))%nat.
Proof.
  split; [exact argsort_first_wins_contract|]. split; [simpl; lia|].
  apply (@negative_topk_drops_lowest argsort_first_wins out_of_range_config
           one_cell_scores one_cell_reg argsort_first_wins_contract).
  simpl. lia.
Defined.

Lemma combine_map_same (A B C : Type) (f : A -> B) (g : A -> C) (l : list A) :
  combine (map f l) (map g l) = map (fun a => (f a, g a)) l.
Proof. induction l as [|a l IH]; simpl; [reflexivity|]. rewrite IH. reflexivity. Qed.

Lemma divmod_pair_injective (C : nat) :
  (1 <= C)%nat ->
  Finite.Injective (fun i : nat => ((i / C)%nat, (i mod C)%nat)).
Proof.
  intros HC i j Heq. injection Heq as Hd Hm.
  rewrite (Nat.div_mod_eq i C), (Nat.div_mod_eq j C), Hd, Hm. reflexivity.
Qed.

Section LevelCandidates.

Variable argsort : list R -> list nat.
Variable cfg : config.
Variable level : nat.
Variables obj cls reg anchors : tensor.
Variable s : Z.
Hypothesis argsort_ok : sort_contract argsort.
Hypothesis obj_rows : length obj = length reg.
Hypothesis cls_rows : length cls = length reg.
Hypothesis anchors_rows : length anchors = length reg.
Hypothesis cls_cols : Forall (fun r => length r = num_classes cfg) cls.
Hypothesis stride_level : nth_error (stride cfg) level = Some s.

Lemma surviving_idxs_flat_bound :
  Forall (fun i => (i < length reg * num_classes cfg)%nat)
         (surviving_idxs argsort cfg obj cls reg).
Proof.
  pose proof (surviving_idxs_bound cfg (fused_scores obj cls) reg argsort_ok) as Hsurv.
  revert Hsurv. apply Forall_impl. intros i [Hi _].
  rewrite (@fused_scores_length (num_classes cfg)) in Hi by (auto; congruence).
  rewrite cls_rows in Hi. exact Hi.
Qed.

(** X5.  The candidates of a level are listed by score descending. *)
Theorem level_scores_descending :
  exists scores labels bboxes,
    post_process_level argsort cfg level obj cls reg (Some anchors)
    = Returns (scores, labels, bboxes) /\
    StronglySorted Rge scores.
Proof.
  rewrite post_process_level_surviving with (s := s) by assumption.
  do 3 eexists. split; [reflexivity|].
  apply surviving_scores_sorted. exact argsort_ok.
Qed.

(** X6.  With a non-negative [topk] a level contributes at most
    [min(topk, M)] candidates, [M] being its number of cells; scores,
    labels and boxes have the same number of entries. *)
Theorem level_candidates_capped :
  (0 <= topk cfg)%Z ->
  exists scores labels bboxes,
    post_process_level argsort cfg level obj cls reg (Some anchors)
    = Returns (scores, labels, bboxes) /\
    length labels = length scores /\
    length bboxes = length scores /\
    (Z.of_nat (length scores) <= Z.min (topk cfg) (Z.of_nat (length reg)))%Z.
Proof.
  intro Hk.
  rewrite post_process_level_surviving with (s := s) by assumption.
  do 3 eexists. split; [reflexivity|].
  split; [rewrite !length_map; reflexivity|].
  split; [rewrite decode_boxes_length; rewrite !length_map; reflexivity|].
  rewrite length_map.
  pose proof (surviving_idxs_length_le argsort cfg obj cls reg) as Hle.
  pose proof (topk_idxs_length argsort_ok cfg (fused_scores obj cls) reg Hk) as Hlen.
  lia.
Qed.

(** X7.  A level never reports the same (cell, class) pair twice: its
    boxes are decoded from cells which, paired with the labels, are
    pairwise distinct. *)
Theorem level_pairs_distinct :
  exists cells scores labels,
    post_process_level argsort cfg level obj cls reg (Some anchors)
    = Returns (scores, labels,
               decode_boxes (map (fun c => nth c anchors []) cells)
                            (map (fun c => nth c reg []) cells) s) /\
    length cells = length labels /\
    Forall (fun c => (c < length reg)%nat) cells /\
    NoDup (combine cells labels).
Proof.
  rewrite post_process_level_surviving with (s := s) by assumption.
  set (idxs := surviving_idxs argsort cfg obj cls reg).
  exists (map (fun i => (i / num_classes cfg)%nat) idxs). do 2 eexists.
  split; [rewrite !map_map; reflexivity|].
  split; [rewrite !length_map; reflexivity|].
  pose proof surviving_idxs_flat_bound as Hb. fold idxs in Hb.
  split.
  - rewrite Forall_map. revert Hb. apply Forall_impl. intros i Hi.
    apply flat_index_split in Hi. tauto.
  - rewrite combine_map_same.
    destruct (Nat.eq_dec (num_classes cfg) 0) as [HC|HC].
    + destruct idxs as [|i idxs']; [constructor|].
      apply Forall_inv in Hb. rewrite HC in Hb. lia.
    + apply Finite.Injective_map_NoDup.
      * apply divmod_pair_injective. lia.
      * apply surviving_idxs_NoDup. exact argsort_ok.
Qed.

(** X8.  With a negative confidence threshold nothing is filtered out:
    for a non-negative [topk] and at least one class a level contributes
    exactly [min(topk, M)] candidates. *)
Theorem negative_threshold_keeps_topk :
  conf_thresh cfg < 0 ->
  (0 <= topk cfg)%Z ->
  (1 <= num_classes cfg)%nat ->
  exists scores labels bboxes,
    post_process_level argsort cfg level obj cls reg (Some anchors)
    = Returns (scores, labels, bboxes) /\
    Z.of_nat (length scores) = Z.min (topk cfg) (Z.of_nat (length reg)).
Proof.
  intros Hth Hk HC.
  rewrite post_process_level_surviving with (s := s) by assumption.
  do 3 eexists. split; [reflexivity|].
  rewrite length_map. unfold surviving_idxs.
  rewrite forallb_filter_id.
  - rewrite (topk_idxs_length argsort_ok cfg (fused_scores obj cls) reg Hk).
    rewrite (@fused_scores_length (num_classes cfg)) by (auto; congruence).
    rewrite cls_rows. nia.
  - apply forallb_forall. intros i Hi. apply Rgtb_true.
    pose proof (fused_scores_range obj cls) as Hr. rewrite Forall_forall in Hr.
    assert (Hin : In (nth i (fused_scores obj cls) 0) (fused_scores obj cls)).
    { apply nth_In. eapply topk_idxs_bound; eassumption. }
    apply Hr in Hin. lra.
Qed.

End LevelCandidates.

Lemma level_scores_descending_witness :
  sort_contract argsort_first_wins /\
  length one_cell_obj = length one_cell_reg /\
  length one_cell_cls = length one_cell_reg /\
  length one_cell_anchors = length one_cell_reg /\
  Forall (fun r => length r = num_classes one_cell_config) one_cell_cls /\
  nth_error (stride one_cell_config) 0 = Some 8%Z /\
  exists scores labels bboxes,
    post_process_level argsort_first_wins one_cell_config 0
      one_cell_obj one_cell_cls one_cell_reg (Some one_cell_anchors)
    = Returns (scores, labels, bboxes) /\
    StronglySorted Rge scores.
Proof.
  split; [exact argsort_first_wins_contract|].
  split; [reflexivity|]. split; [reflexivity|]. split; [reflexivity|].
  split; [repeat constructor|]. split; [reflexivity|].
  apply (@level_scores_descending argsort_first_wins one_cell_config 0
           one_cell_obj one_cell_cls one_cell_reg one_cell_anchors 8
           argsort_first_wins_contract);
    try reflexivity; repeat constructor.
Defined.

Lemma level_candidates_capped_witness :
  sort_contract argsort_first_wins /\
  length one_cell_obj = length one_cell_reg /\
  length one_cell_cls = length one_cell_reg /\
  length one_cell_anchors = length one_cell_reg /\
  Forall (fun r => length r = num_classes one_cell_config) one_cell_cls /\
  nth_error (stride one_cell_config) 0 = Some 8%Z /\
  (0 <= topk one_cell_config)%Z /\
  exists scores labels bboxes,
    post_process_level argsort_first_wins one_cell_config 0
      one_cell_obj one_cell_cls one_cell_reg (Some one_cell_anchors)
    = Returns (scores, labels, bboxes) /\
    length labels = length scores /\
    length bboxes = length scores /\
    (Z.of_nat (length scores)
     <= Z.min (topk one_cell_config) (Z.of_nat (length one_cell_reg)))%Z.
Proof.
  split; [exact argsort_first_wins_contract|].
  split; [reflexivity|]. split; [reflexivity|]. split; [reflexivity|].
  split; [repeat constructor|]. split; [reflexivity|]. split; [simpl; lia|].
  apply (@level_candidates_capped argsort_first_wins one_cell_config 0
           one_cell_obj one_cell_cls one_cell_reg one_cell_anchors 8
           argsort_first_wins_contract);
    try reflexivity; try (simpl; lia); repeat constructor.
Defined.

Lemma level_pairs_distinct_witness :
  sort_contract argsort_first_wins /\
  length one_cell_obj = length one_cell_reg /\
  length one_cell_cls = length one_cell_reg /\
  length one_cell_anchors = length one_cell_reg /\
  Forall (fun r => length r = num_classes one_cell_config) one_cell_cls /\
  nth_error (stride one_cell_config) 0 = Some 8%Z /\
  exists cells scores labels,
    post_process_level argsort_first_wins one_cell_config 0
      one_cell_obj one_cell_cls one_cell_reg (Some one_cell_anchors)
    = Returns (scores, labels,
               decode_boxes (map (fun c => nth c one_cell_anchors []) cells)
                            (map (fun c => nth c one_cell_reg []) cells) 8) /\
    length cells = length labels /\
    Forall (fun c => (c < length one_cell_reg)%nat) cells /\
    NoDup (combine cells labels).
Proof.
  split; [exact argsort_first_wins_contract|].
  split; [reflexivity|]. split; [reflexivity|]. split; [reflexivity|].
  split; [repeat constructor|]. split; [reflexivity|].
  apply (@level_pairs_distinct argsort_first_wins one_cell_config 0
           one_cell_obj one_cell_cls one_cell_reg one_cell_anchors 8
           argsort_first_wins_contract);
    try reflexivity; repeat constructor.
Defined.

Lemma negative_threshold_keeps_topk_witness :
  sort_contract argsort_first_wins /\
  length one_cell_obj = length one_cell_reg /\
  length one_cell_cls = length one_cell_reg /\
  length one_cell_anchors = length one_cell_reg /\
  Forall (fun r => length r = num_classes negative_thresh_config) one_cell_cls /\
  nth_error (stride negative_thresh_config) 0 = Some 8%Z /\
  conf_thresh negative_thresh_config < 0 /\
  (0 <= topk negative_thresh_config)%Z /\
  (1 <= num_classes negative_thresh_config)%nat /\
  exists scores labels bboxes,
    post_process_level argsort_first_wins negative_thresh_config 0
      one_cell_obj one_cell_cls one_cell_reg (Some one_cell_anchors)
    = Returns (scores, labels, bboxes) /\
    Z.of_nat (length scores)
    = Z.min (topk negative_thresh_config) (Z.of_nat (length one_cell_reg)).
Proof.
  split; [exact argsort_first_wins_contract|].
  split; [reflexivity|]. split; [reflexivity|]. split; [reflexivity|].
  split; [repeat constructor|]. split; [reflexivity|].
  split; [simpl; lra|]. split; [simpl; lia|]. split; [simpl; lia|].
  apply (@negative_threshold_keeps_topk argsort_first_wins negative_thresh_config 0
           one_cell_obj one_cell_cls one_cell_reg one_cell_anchors 8
           argsort_first_wins_contract);
    try reflexivity; try (simpl; lia); try (simpl; lra); repeat constructor.
Defined.

(** ** The whole call, in closed form *)

Lemma level_tensors_candidates (argsort : list R -> list nat) (cfg : config)
    (lp : nat * head_out) :
  sort_contract argsort ->
  (fst lp < length (stride cfg))%nat ->
  post_process_level argsort cfg (fst lp)
    (fst (fst (fst (level_tensors cfg lp))))
    (snd (fst (fst (level_tensors cfg lp))))
    (snd (fst (level_tensors cfg lp)))
    (snd (level_tensors cfg lp))
  = Returns (level_candidates argsort cfg lp).
Proof.
  intros Hok Hlt. destruct lp as [level p]. simpl fst in *. simpl snd.
  unfold level_tensors. cbn [fst snd].
  rewrite post_process_level_surviving with (s := nth level (stride cfg) 0%Z).
  - reflexivity.
  - exact Hok.
  - rewrite !permute_rows_length. reflexivity.
  - rewrite !permute_rows_length. reflexivity.
  - rewrite !tmap_length, meshgrid_xy_length, permute_rows_length. reflexivity.
  - apply permute_rows_rows.
  - apply nth_error_nth'. exact Hlt.
Qed.

Lemma enumerate_level_bound (A : Type) (L : list A) (n : nat) (lp : nat * A) :
  (length L <= n)%nat -> In lp (enumerate L) -> (fst lp < n)%nat.
Proof.
  intros Hlen Hin. destruct lp as [level p]. apply enumerate_In in Hin. simpl.
  apply Nat.lt_le_trans with (length L); [|exact Hlen].
  apply nth_error_Some. congruence.
Qed.

Lemma inference_decode_closed_form (argsort : list R -> list nat) (cfg : config)
    (img_h img_w : nat) (preds : list head_out) :
  sort_contract argsort ->
  no_decode cfg = false ->
  (1 <= num_classes cfg)%nat ->
  firstn (length (stride cfg)) preds <> [] ->
  inference_single_image argsort cfg img_h img_w preds
  = let cands := map (level_candidates argsort cfg)
                     (enumerate (firstn (length (stride cfg)) preds)) in
    let kept := NMS.multiclass_nms (concat (map (fun r => fst (fst r)) cands))
                                   (concat (map (fun r => snd (fst r)) cands))
                                   (concat (map (fun r => snd r) cands))
                                   (nms_thresh cfg) (num_classes cfg) in
    Returns (Detections
               (tmap clip01 (tmap (fun v => v / INR (Nat.max img_h img_w)) (snd kept)))
               (fst (fst kept)) (snd (fst kept))).
Proof.
  intros Hok Hnd HC Hne. unfold inference_single_image.
  rewrite inference_levels_decode by assumption. cbn [bind]. rewrite Hnd.
  unfold post_process.
  rewrite !map_map, zip4_map, enumerate_map_enumerate, mapM_map.
  rewrite mapM_returns with (g := level_candidates argsort cfg).
  - cbn [bind].
    rewrite !torch_cat_returns
      by (apply map_not_nil, map_not_nil, enumerate_not_nil; exact Hne).
    cbn [bind]. cbv zeta. rewrite !map_map.
    destruct (NMS.multiclass_nms _ _ _ _ _) as [[scores labels] bboxes].
    reflexivity.
  - intros lp Hin. destruct lp as [level p]. cbn [fst snd].
    apply (@level_tensors_candidates argsort cfg (level, p) Hok).
    apply enumerate_level_bound with (L := firstn (length (stride cfg)) preds);
      [|exact Hin].
    rewrite length_firstn. apply Nat.le_min_l.
Qed.

Lemma filter_none (A : Type) (p : A -> bool) (l : list A) :
  (forall a, In a l -> p a = false) -> filter p l = [].
Proof.
  induction l as [|a l IH]; intro Hp; simpl; [reflexivity|].
  rewrite (Hp a (or_introl eq_refl)). apply IH.
  intros b Hb. apply Hp. right. exact Hb.
Qed.

Lemma concat_all_nil (A B : Type) (f : A -> list B) (l : list A) :
  (forall a, In a l -> f a = []) -> concat (map f l) = [].
Proof.
  induction l as [|a l IH]; intro Hf; simpl; [reflexivity|].
  rewrite (Hf a (or_introl eq_refl)), IH; [reflexivity|].
  intros b Hb. apply Hf. right. exact Hb.
Qed.

Lemma multiclass_nms_nil (th : R) (C : nat) :
  NMS.multiclass_nms [] [] [] th C = ([], [], []).
Proof.
  unfold NMS.multiclass_nms, NMS.suppress.
  assert (Hk : flat_map
                 (fun c => NMS.greedy [] th
                             (isort_by (score_desc_index_asc [])
                                       (NMS.gather_class [] c)))
                 (seq 0 C) = []).
  { rewrite flat_map_concat_map. apply concat_all_nil.
    intros c _. apply NMS.greedy_equation_1. }
  rewrite Hk. reflexivity.
Qed.

Lemma level_candidates_unit_threshold (argsort : list R -> list nat) (cfg : config)
    (lp : nat * head_out) :
  1 <= conf_thresh cfg ->
  level_candidates argsort cfg lp = ([], [], []).
Proof.
  intro Hth. unfold level_candidates. cbv zeta.
  unfold surviving_idxs. rewrite filter_none.
  - reflexivity.
  - intros i _. apply Rgtb_false.
    match goal with
    | |- nth i (fused_scores ?o ?c) 0 <= _ =>
        pose proof (fused_scores_range o c) as Hr;
        destruct (Nat.lt_ge_cases i (length (fused_scores o c))) as [Hi|Hi]
    end.
    + rewrite Forall_forall in Hr. specialize (Hr _ (nth_In _ 0 Hi)). lra.
    + rewrite nth_overflow by exact Hi. lra.
Qed.

(** X9.  With a confidence threshold of 1 or more no score passes the
    strict comparison: in decode mode the call returns no detection, and
    no error. *)
Theorem unit_threshold_returns_nothing
    (argsort : list R -> list nat) (cfg : config) (img_h img_w : nat)
    (preds : list head_out) :
  sort_contract argsort ->
  no_decode cfg = false ->
  (1 <= num_classes cfg)%nat ->
  firstn (length (stride cfg)) preds <> [] ->
  1 <= conf_thresh cfg ->
  inference_single_image argsort cfg img_h img_w preds = Returns (Detections [] [] []).
Proof.
  intros Hok Hnd HC Hne Hth.
  rewrite inference_decode_closed_form by assumption. cbv zeta.
  rewrite !map_map.
  rewrite !concat_all_nil
    by (intros lp _; rewrite level_candidates_unit_threshold by exact Hth; reflexivity).
  rewrite multiclass_nms_nil. reflexivity.
Qed.

Lemma unit_threshold_returns_nothing_witness :
  sort_contract argsort_first_wins /\
  no_decode unit_thresh_config = false /\
  (1 <= num_classes unit_thresh_config)%nat /\
  firstn (length (stride unit_thresh_config)) [one_cell_head] <> [] /\
  1 <= conf_thresh unit_thresh_config /\
  inference_single_image argsort_first_wins unit_thresh_config 8 8 [one_cell_head]
  = Returns (Detections [] [] []).
Proof.
  split; [exact argsort_first_wins_contract|]. split; [reflexivity|].
  split; [simpl; lia|]. split; [discriminate|]. split; [simpl; lra|].
  apply (@unit_threshold_returns_nothing argsort_first_wins unit_thresh_config 8 8
           [one_cell_head] argsort_first_wins_contract).
  - reflexivity.
  - simpl. lia.
  - discriminate.
  - simpl. lra.
Defined.

Lemma level_preds_no_class (cfg : config) (level : nat) (p : head_out) :
  num_classes cfg = 0%nat ->
  (level < length (stride cfg))%nat ->
  level_preds cfg level p = Raises RuntimeError.
Proof.
  intros HC Hlt. unfold level_preds.
  destruct (no_decode cfg).
  - cbn [bind view_cols]. rewrite HC. reflexivity.
  - rewrite generate_anchors_returns with (s := nth level (stride cfg) 0%Z)
      by (apply nth_error_nth'; exact Hlt).
    cbn [bind view_cols]. rewrite HC. reflexivity.
Qed.

(** X10.  The two inputs on which the call cannot run: with zero classes
    [view(-1, 0)] is refused on the first level, and with an empty pyramid
    [torch.cat] is handed an empty list; either way the call raises a
    [RuntimeError], in no-decode mode as well as in decode mode. *)
Theorem inference_raises_without_classes_or_levels
    (argsort : list R -> list nat) (cfg : config) (img_h img_w : nat)
    (preds : list head_out) :
  num_classes cfg = 0%nat \/ firstn (length (stride cfg)) preds = [] ->
  inference_single_image argsort cfg img_h img_w preds = Raises RuntimeError.
Proof.
  intro Hbad. unfold inference_single_image.
  destruct (firstn (length (stride cfg)) preds) as [|p L] eqn:HL.
  - cbn [enumerate length seq combine mapM bind map].
    destruct (no_decode cfg); reflexivity.
  - destruct Hbad as [HC|Hnil]; [|discriminate].
    assert (Hlt : (0 < length (stride cfg))%nat).
    { destruct (stride cfg); [discriminate|simpl; lia]. }
    cbn [enumerate length seq combine mapM fst snd].
    rewrite (@level_preds_no_class cfg 0 p HC Hlt). reflexivity.
Qed.

Lemma inference_raises_without_classes_or_levels_witness :
  (num_classes default_config = 0%nat
   \/ firstn (length (stride default_config)) (@nil head_out) = []) /\
  inference_single_image argsort_first_wins default_config 8 8 []
  = Raises RuntimeError.
Proof.
  split; [right; reflexivity|].
  apply (@inference_raises_without_classes_or_levels argsort_first_wins default_config
           8 8 []).
  right. reflexivity.
Defined.

(** ** The rows of the no-decode output *)

Lemma raw_rows_In (C : nat) (levels : list head_out) (row : list R) :
  In row (raw_rows C levels) ->
  exists p h w, row = raw_cell_row C p h w.
Proof.
  unfold raw_rows, raw_level_rows. intro Hr.
  apply in_flat_map in Hr as [p [_ Hr]].
  apply in_flat_map in Hr as [h [_ Hr]].
  apply in_map_iff in Hr as [w [<- _]].
  exists p, h, w. reflexivity.
Qed.

(** X11.  In no-decode mode every row of the output has [4 + 1 + C]
    entries, and every entry from position 4 on (the objectness and the
    class scores, after the sigmoid) lies in [[0, 1]]. *)
Theorem no_decode_row_format
    (argsort : list R -> list nat) (cfg : config) (img_h img_w : nat)
    (preds : list head_out) :
  no_decode cfg = true ->
  (1 <= num_classes cfg)%nat ->
  firstn (length (stride cfg)) preds <> [] ->
  exists outputs : tensor,
    inference_single_image argsort cfg img_h img_w preds = Returns (Outputs outputs) /\
    Forall (fun row =>
              length row = (4 + 1 + num_classes cfg)%nat /\
              forall k, (4 <= k < 4 + 1 + num_classes cfg)%nat -> 0 <= nth k row 0 <= 1)
           outputs.
Proof.
  intros Hnd HC Hne. eexists.
  split; [apply inference_no_decode_returns; assumption|].
  rewrite Forall_forall. intros row Hrow.
  apply raw_rows_In in Hrow as [p [h [w ->]]]. unfold raw_cell_row.
  split; [rewrite !length_app, !length_map, !length_seq; reflexivity|].
  intros k Hk.
  rewrite app_nth2 by (rewrite length_map, length_seq; lia).
  rewrite length_map, length_seq.
  assert (Hall : Forall (fun v => 0 < v < 1)
                   (map (fun k0 => sigmoid (obj_at p k0 h w)) (seq 0 1)
                    ++ map (fun c => sigmoid (cls_at p c h w)) (seq 0 (num_classes cfg)))).
  { apply Forall_app. split; rewrite Forall_map, Forall_forall;
      intros c _; apply sigmoid_range. }
  rewrite Forall_forall in Hall.
  enough (Hin : 0 < nth (k - 4)
                      (map (fun k0 => sigmoid (obj_at p k0 h w)) (seq 0 1)
                       ++ map (fun c => sigmoid (cls_at p c h w))
                              (seq 0 (num_classes cfg))) 0 < 1) by lra.
  apply Hall, nth_In.
  rewrite length_app, !length_map, !length_seq. lia.
Qed.

Lemma no_decode_row_format_witness :
  no_decode one_cell_no_decode_config = true /\
  (1 <= num_classes one_cell_no_decode_config)%nat /\
  firstn (length (stride one_cell_no_decode_config)) [one_cell_head] <> [] /\
  exists outputs : tensor,
    inference_single_image argsort_first_wins one_cell_no_decode_config 8 8
                           [one_cell_head]
    = Returns (Outputs outputs) /\
    Forall (fun row =>
              length row = (4 + 1 + num_classes one_cell_no_decode_config)%nat /\
              forall k, (4 <= k < 4 + 1 + num_classes one_cell_no_decode_config)%nat ->
                        0 <= nth k row 0 <= 1)
           outputs.
Proof.
  split; [reflexivity|]. split; [simpl; lia|]. split; [discriminate|].
  apply (@no_decode_row_format argsort_first_wins one_cell_no_decode_config 8 8
           [one_cell_head]).
  - reflexivity.
  - simpl. lia.
  - discriminate.
Defined.

(** ** init_yolo *)

Lemma sigmoid_bias_value : sigmoid bias_value = init_prob.
Proof.
  unfold sigmoid, bias_value, init_prob.
  rewrite Ropp_involutive, exp_ln by lra. field. lra.
Qed.

(** X12.  After [init_yolo] every entry [b] of every objectness and class
    bias vector satisfies [sigmoid b = 0.01], the initial probability; the
    bias vectors keep their number and their lengths, the regression
    biases are untouched, and every batch-normalisation layer has
    [eps = 0.001] and [momentum = 0.03]. *)
Theorem init_yolo_bias_probability (np : net_params) :
  Forall (Forall (fun b => sigmoid b = 0.01)) (obj_bias (init_yolo np)) /\
  Forall (Forall (fun b => sigmoid b = 0.01)) (cls_bias (init_yolo np)) /\
  map (@length R) (obj_bias (init_yolo np)) = map (@length R) (obj_bias np) /\
  map (@length R) (cls_bias (init_yolo np)) = map (@length R) (cls_bias np) /\
  reg_bias (init_yolo np) = reg_bias np /\
  length (batch_norms (init_yolo np)) = length (batch_norms np) /\
  Forall (fun bn => bn = (0.001, 0.03)) (batch_norms (init_yolo np)).
Proof.
  assert (Hfill : forall bs : list (list R),
             Forall (Forall (fun b => sigmoid b = 0.01)) (map (fill_ bias_value) bs)).
  { intro bs. rewrite Forall_map. rewrite Forall_forall. intros b _.
    unfold fill_. rewrite Forall_map. rewrite Forall_forall. intros x _.
    apply sigmoid_bias_value. }
  assert (Hlen : forall bs : list (list R),
             map (@length R) (map (fill_ bias_value) bs) = map (@length R) bs).
  { intro bs. rewrite map_map. apply map_ext. intro b.
    unfold fill_. apply length_map. }
  unfold init_yolo. cbn [obj_bias cls_bias reg_bias batch_norms].
  split; [apply Hfill|]. split; [apply Hfill|].
  split; [apply Hlen|]. split; [apply Hlen|].
  split; [reflexivity|]. split; [apply length_map|].
  rewrite Forall_map. rewrite Forall_forall. intros bn _. reflexivity.
Qed.

Lemma permute_rows_In (H W C : nat) (pred : nat -> nat -> nat -> R) (row : list R) :
  In row (permute_rows H W C pred) ->
  exists h w, row = map (fun c => pred c h w) (seq 0 C).
Proof.
  unfold permute_rows. intro Hr. apply in_flat_map in Hr as [h [_ Hr]].
  apply in_map_iff in Hr as [w [<- _]]. exists h, w. reflexivity.
Qed.

Lemma bias_only_scores (H W C : nat) (reg : nat -> nat -> nat -> R) (v : R) :
  In v (fused_scores
          (permute_rows H W 1 (obj_at (bias_only_head H W reg)))
          (permute_rows H W C (cls_at (bias_only_head H W reg)))) ->
  v = init_prob.
Proof.
  unfold fused_scores, flatten, tmap, tmul_bcast. intro Hv.
  apply in_concat in Hv as [row [Hrow Hv]].
  apply in_map_iff in Hrow as [row1 [<- Hrow1]].
  apply in_map_iff in Hv as [v1 [<- Hv1]].
  apply in_map_iff in Hrow1 as [[ro rc] [<- Hrr]]. simpl in Hv1.
  apply in_map_iff in Hv1 as [v2 [<- Hv2]].
  pose proof (in_combine_l _ _ _ _ Hrr) as Hro.
  pose proof (in_combine_r _ _ _ _ Hrr) as Hrc.
  apply in_map_iff in Hro as [ro0 [<- Hro0]].
  apply in_map_iff in Hrc as [rc0 [<- Hrc0]].
  apply in_map_iff in Hv2 as [c [<- Hc]].
  apply permute_rows_In in Hro0 as [h [w ->]].
  apply permute_rows_In in Hrc0 as [h' [w' ->]].
  apply in_map_iff in Hc as [k [<- _]].
  cbn [bias_only_head obj_at cls_at seq map nth].
  rewrite sigmoid_bias_value. apply sqrt_square. unfold init_prob. lra.
Qed.

Lemma level_candidates_none (argsort : list R -> list nat) (cfg : config)
    (lp : nat * head_out) :
  (forall v,
     In v (fused_scores
             (permute_rows (fmp_h (snd lp)) (fmp_w (snd lp)) 1 (obj_at (snd lp)))
             (permute_rows (fmp_h (snd lp)) (fmp_w (snd lp)) (num_classes cfg)
                           (cls_at (snd lp)))) ->
     v <= conf_thresh cfg) ->
  0 <= conf_thresh cfg ->
  level_candidates argsort cfg lp = ([], [], []).
Proof.
  intros Hall Hth. unfold level_candidates. cbv zeta.
  unfold surviving_idxs. rewrite filter_none.
  - reflexivity.
  - intros i _. apply Rgtb_false.
    match goal with
    | |- nth i ?l 0 <= _ =>
        destruct (Nat.lt_ge_cases i (length l)) as [Hi|Hi]
    end.
    + apply Hall, nth_In. exact Hi.
    + rewrite nth_overflow by exact Hi. exact Hth.
Qed.

(** X13.  On prediction maps whose objectness and class logits all equal
    the bias that [init_yolo] sets, every fused score is the initial
    probability 0.01; with a confidence threshold of 0.01 or more (the
    default is 0.05) the call in decode mode returns no detection. *)
Theorem initial_bias_gives_no_detection
    (argsort : list R -> list nat) (cfg : config) (img_h img_w : nat)
    (preds : list head_out) :
  sort_contract argsort ->
  no_decode cfg = false ->
  (1 <= num_classes cfg)%nat ->
  firstn (length (stride cfg)) preds <> [] ->
  Forall (fun p => exists reg, p = bias_only_head (fmp_h p) (fmp_w p) reg) preds ->
  init_prob <= conf_thresh cfg ->
  inference_single_image argsort cfg img_h img_w preds = Returns (Detections [] [] []).
Proof.
  intros Hok Hnd HC Hne Hbias Hth.
  rewrite inference_decode_closed_form by assumption. cbv zeta.
  rewrite !map_map.
  assert (Hnone : forall lp,
             In lp (enumerate (firstn (length (stride cfg)) preds)) ->
             level_candidates argsort cfg lp = ([], [], [])).
  { intros [level p] Hin. apply enumerate_In, nth_error_In in Hin.
    assert (Hp : In p preds).
    { rewrite <- (firstn_skipn (length (stride cfg)) preds).
      apply in_or_app. left. exact Hin. }
    rewrite Forall_forall in Hbias. destruct (Hbias p Hp) as [reg Hpe].
    apply level_candidates_none.
    - intros v Hv. cbn [snd] in Hv. rewrite Hpe in Hv.
      cbn [bias_only_head fmp_h fmp_w] in Hv.
      apply bias_only_scores in Hv. lra.
    - unfold init_prob in Hth. lra. }
  rewrite !concat_all_nil by (intros lp Hin; rewrite Hnone by exact Hin; reflexivity).
  rewrite multiclass_nms_nil. reflexivity.
Qed.

Lemma initial_bias_gives_no_detection_witness :
  sort_contract argsort_first_wins /\
  no_decode default_config = false /\
  (1 <= num_classes default_config)%nat /\
  firstn (length (stride default_config))
         [bias_only_head 2 3 (fun _ _ _ => 0)] <> [] /\
  Forall (fun p => exists reg, p = bias_only_head (fmp_h p) (fmp_w p) reg)
         [bias_only_head 2 3 (fun _ _ _ => 0)] /\
  init_prob <= conf_thresh default_config /\
  inference_single_image argsort_first_wins default_config 64 64
                         [bias_only_head 2 3 (fun _ _ _ => 0)]
  = Returns (Detections [] [] []).
Proof.
  assert (Hb : Forall (fun p => exists reg, p = bias_only_head (fmp_h p) (fmp_w p) reg)
                      [bias_only_head 2 3 (fun _ _ _ => 0)]).
  { constructor; [|constructor]. exists (fun _ _ _ => 0). reflexivity. }
  assert (Hth : init_prob <= conf_thresh default_config)
    by (unfold init_prob; simpl; lra).
  split; [exact argsort_first_wins_contract|]. split; [reflexivity|].
  split; [simpl; lia|]. split; [discriminate|]. split; [exact Hb|]. split; [exact Hth|].
  apply (@initial_bias_gives_no_detection argsort_first_wins default_config 64 64
           [bias_only_head 2 3 (fun _ _ _ => 0)] argsort_first_wins_contract);
    [reflexivity | simpl; lia | discriminate | exact Hb | exact Hth].
Defined.

(** ** forward, trainable *)

Lemma view_batch_returns (B C : nat) (t : list tensor) :
  (1 <= B)%nat -> (1 <= C)%nat -> view_batch B C t = Returns t.
Proof. destruct B; [lia|]. destruct C; [lia|]. reflexivity. Qed.

Lemma train_level_returns (cfg : config) (B : nat) (lp : nat * level_batch) :
  (1 <= B)%nat -> (1 <= num_classes cfg)%nat ->
  (fst lp < length (stride cfg))%nat ->
  train_level cfg B (fst lp) (snd lp) = Returns (train_level_result cfg B lp).
Proof.
  intros HB HC Hlt. unfold train_level.
  rewrite generate_anchors_returns with (s := nth (fst lp) (stride cfg) 0%Z)
    by (apply nth_error_nth'; exact Hlt).
  cbn [bind].
  rewrite !view_batch_returns by (assumption || lia). cbn [bind].
  unfold stride_at, lookup. rewrite (nth_error_nth' _ 0%Z Hlt). reflexivity.
Qed.

Lemma enumerate_nth_error (A : Type) (l : list A) (i : nat) (a : A) :
  nth_error l i = Some a -> nth_error (enumerate l) i = Some (i, a).
Proof.
  intro Hi. apply enumerate_In in Hi.
  apply In_nth_error in Hi as [k Hk].
  assert (Hki : k = i).
  { assert (Hlen : (k < length (enumerate l))%nat) by (apply nth_error_Some; congruence).
    unfold enumerate in Hk, Hlen.
    rewrite length_combine, length_seq, Nat.min_id in Hlen.
    assert (Hnth : nth k (combine (seq 0 (length l)) l) (0%nat, a) = (i, a)).
    { apply nth_error_nth. exact Hk. }
    rewrite combine_nth in Hnth by (apply length_seq).
    rewrite seq_nth in Hnth by exact Hlen. simpl in Hnth. congruence. }
  subst k. exact Hk.
Qed.

Lemma forward_training_closed_form (argsort : list R -> list nat) (cfg : config)
    (img_h img_w B : nat) (feats : list level_batch) :
  (1 <= B)%nat -> (1 <= num_classes cfg)%nat ->
  forward argsort cfg true img_h img_w B feats
  = let levels := map (train_level_result cfg B)
                      (enumerate (firstn (length (stride cfg)) feats)) in
    Returns (inr {| pred_obj := map (fun l => fst (fst (fst l))) levels;
                    pred_cls := map (fun l => snd (fst (fst l))) levels;
                    pred_box := map (fun l => snd (fst l)) levels;
                    out_anchors := map (fun l => snd l) levels;
                    out_strides := stride cfg |}).
Proof.
  intros HB HC. unfold forward. cbn [negb].
  rewrite mapM_returns with (g := train_level_result cfg B); [reflexivity|].
  intros lp Hin. apply train_level_returns; try assumption.
  apply enumerate_level_bound with (L := firstn (length (stride cfg)) feats);
    [|exact Hin].
  rewrite length_firstn. apply Nat.le_min_l.
Qed.

(** X14.  A trainable model decodes every cell of every image, filtering
    nothing: whatever [no_decode], [topk], the thresholds and the sort are,
    [forward] returns, for each level and each image of the batch, the box
    of every cell [(row, col)], decoded from the grid point of the cell
    and the regression of that image at that cell, together with the
    strides of the configuration. *)
Theorem forward_training_decodes_every_cell
    (argsort : list R -> list nat) (cfg : config) (img_h img_w B : nat)
    (feats : list level_batch) :
  (1 <= B)%nat -> (1 <= num_classes cfg)%nat ->
  exists outs : train_outputs,
    forward argsort cfg true img_h img_w B feats = Returns (inr outs) /\
    out_strides outs = stride cfg /\
    length (pred_box outs) = length (firstn (length (stride cfg)) feats) /\
    forall level lb b row col,
      nth_error (firstn (length (stride cfg)) feats) level = Some lb ->
      (b < B)%nat -> (row < lb_h lb)%nat -> (col < lb_w lb)%nat ->
      let s := IZR (nth level (stride cfg) 0%Z) in
      let cx := (INR col + 0.5) * s + lb_reg lb b 0 row col * s in
      let cy := (INR row + 0.5) * s + lb_reg lb b 1 row col * s in
      let w := exp (lb_reg lb b 2 row col) * s in
      let h := exp (lb_reg lb b 3 row col) * s in
      nth_error (nth b (nth level (pred_box outs) []) []) (row * lb_w lb + col)
      = Some [cx - w / 2; cy - h / 2; cx + w / 2; cy + h / 2].
Proof.
  intros HB HC. eexists.
  split; [apply forward_training_closed_form; assumption|]. cbv zeta.
  cbn [out_strides pred_box].
  split; [reflexivity|].
  split; [rewrite !length_map, enumerate_length; reflexivity|].
  intros level lb b row col Hlb Hb Hrow Hcol.
  rewrite map_map.
  rewrite nth_map_lt with (d := (0%nat, lb))
    by (rewrite enumerate_length; apply nth_error_Some; congruence).
  rewrite (nth_error_nth _ _ _ (enumerate_nth_error _ _ Hlb)).
  unfold train_level_result. cbn [fst snd].
  unfold permute_batch. rewrite map_map.
  rewrite nth_map_lt with (d := 0%nat) by (rewrite length_seq; exact Hb).
  rewrite seq_nth by exact Hb. cbn [Nat.add].
  rewrite decode_boxes_nth_error
    with (ax := (INR col + 0.5) * IZR (nth level (stride cfg) 0%Z))
         (ay := (INR row + 0.5) * IZR (nth level (stride cfg) 0%Z))
         (tx := lb_reg lb b 0 row col) (ty := lb_reg lb b 1 row col)
         (tw := lb_reg lb b 2 row col) (th := lb_reg lb b 3 row col).
  - do 2 f_equal; [|f_equal; [|f_equal; [|f_equal]]]; lra.
  - rewrite !tmap_nth_error, (meshgrid_xy_nth_error Hrow Hcol). reflexivity.
  - rewrite (permute_rows_nth_error 4 _ Hrow Hcol). reflexivity.
Qed.

Lemma forward_training_decodes_every_cell_witness :
  (1 <= 2)%nat /\ (1 <= num_classes one_cell_config)%nat /\
  exists outs : train_outputs,
    forward argsort_first_wins one_cell_config true 8 8 2 [two_image_level]
    = Returns (inr outs) /\
    out_strides outs = stride one_cell_config /\
    length (pred_box outs)
    = length (firstn (length (stride one_cell_config)) [two_image_level]).
Proof.
  split; [lia|]. split; [simpl; lia|].
  destruct (@forward_training_decodes_every_cell argsort_first_wins one_cell_config
              8 8 2 [two_image_level]) as [outs [Hret [Hs [Hlen _]]]];
    [lia | simpl; lia |].
  exists outs. split; [exact Hret|]. split; [exact Hs|exact Hlen].
Defined.

Lemma train_level_raises (cfg : config) (B level : nat) (lb : level_batch) :
  B = 0%nat \/ num_classes cfg = 0%nat ->
  (level < length (stride cfg))%nat ->
  train_level cfg B level lb = Raises RuntimeError.
Proof.
  intros Hbad Hlt. unfold train_level.
  rewrite generate_anchors_returns with (s := nth level (stride cfg) 0%Z)
    by (apply nth_error_nth'; exact Hlt).
  cbn [bind]. destruct B as [|B]; [reflexivity|].
  destruct Hbad as [HB|HC]; [discriminate|].
  rewrite HC. reflexivity.
Qed.

(** X15.  The trainable branch on its edge inputs.  An empty pyramid is
    not an error there: [forward] returns empty lists (the inference
    branch raises on it).  With at least one level, an empty batch or
    zero classes makes [view(B, -1, C)] fail with a [RuntimeError]. *)
Theorem forward_training_edge_inputs
    (argsort : list R -> list nat) (cfg : config) (img_h img_w B : nat)
    (feats : list level_batch) :
  (firstn (length (stride cfg)) feats = [] ->
   forward argsort cfg true img_h img_w B feats
   = Returns (inr {| pred_obj := []; pred_cls := []; pred_box := [];
                     out_anchors := []; out_strides := stride cfg |})) /\
  (firstn (length (stride cfg)) feats <> [] ->
   B = 0%nat \/ num_classes cfg = 0%nat ->
   forward argsort cfg true img_h img_w B feats = Raises RuntimeError).
Proof.
  unfold forward. cbn [negb]. split.
  - intros ->. reflexivity.
  - intros Hne Hbad.
    destruct (firstn (length (stride cfg)) feats) as [|lb L] eqn:HL; [congruence|].
    assert (Hlt : (0 < length (stride cfg))%nat).
    { destruct (stride cfg); [discriminate|simpl; lia]. }
    cbn [enumerate length seq combine mapM fst snd].
    rewrite (@train_level_raises cfg B 0 lb Hbad Hlt). reflexivity.
Qed.

Lemma forward_training_edge_inputs_witness :
  firstn (length (stride one_cell_config)) [two_image_level] <> [] /\
  (0%nat = 0%nat \/ num_classes one_cell_config = 0%nat) /\
  forward argsort_first_wins one_cell_config true 8 8 0 [two_image_level]
  = Raises RuntimeError.
Proof.
  split; [discriminate|]. split; [left; reflexivity|].
  apply (proj2 (@forward_training_edge_inputs argsort_first_wins one_cell_config
                  8 8 0 [two_image_level]));
    [discriminate | left; reflexivity].
Defined.

(** ** forward, not trainable *)

Lemma permute_rows_ext (H W C : nat) (pred pred' : nat -> nat -> nat -> R) :
  (forall c h w, pred c h w = pred' c h w) ->
  permute_rows H W C pred = permute_rows H W C pred'.
Proof.
  intro Heq. unfold permute_rows.
  apply flat_map_ext. intro h. apply map_ext. intro w.
  apply map_ext. intro c. apply Heq.
Qed.

Lemma level_preds_first_image (cfg : config) (level : nat) (lb lb' : level_batch) :
  same_first_image lb lb' ->
  level_preds cfg level (image_of 0 lb) = level_preds cfg level (image_of 0 lb').
Proof.
  intros [Hh [Hw [Ho [Hc Hr]]]]. unfold level_preds.
  cbn [image_of fmp_h fmp_w obj_at cls_at reg_at].
  rewrite Hh, Hw.
  rewrite (permute_rows_ext _ _ _ _ _ Ho), (permute_rows_ext _ _ _ _ _ Hc),
          (permute_rows_ext _ _ _ _ _ Hr).
  reflexivity.
Qed.

Lemma mapM_enumerate_ext (A B : Type) (f : nat -> A -> outcome B) (L L' : list A) :
  Forall2 (fun a a' => forall n, f n a = f n a') L L' ->
  mapM (fun lp => f (fst lp) (snd lp)) (enumerate L)
  = mapM (fun lp => f (fst lp) (snd lp)) (enumerate L').
Proof.
  intro HF. unfold enumerate. generalize 0%nat as n.
  induction HF as [|a a' L L' Ha _ IH]; intro n; [reflexivity|].
  simpl. rewrite Ha, IH. reflexivity.
Qed.

Lemma Forall2_firstn_same (A : Type) (P : A -> A -> Prop) (n : nat) (L L' : list A) :
  Forall2 P L L' -> Forall2 P (firstn n L) (firstn n L').
Proof.
  intro HF. revert n. induction HF as [|a a' L L' Ha _ IH]; intro n.
  - rewrite !firstn_nil. constructor.
  - destruct n; simpl; constructor; [exact Ha|apply IH].
Qed.

Lemma Forall2_map_same (A B : Type) (g : A -> B) (P : B -> B -> Prop) (L L' : list A) :
  Forall2 (fun a a' => P (g a) (g a')) L L' -> Forall2 P (map g L) (map g L').
Proof. induction 1; simpl; constructor; assumption. Qed.

(** X16.  A model that is not trainable looks at the first image of the
    batch only: two batches (of at least one image each) whose prediction
    maps have the same sizes and the same image 0 give the same result,
    whatever their other images are. *)
Theorem forward_inference_reads_first_image
    (argsort : list R -> list nat) (cfg : config) (img_h img_w B B' : nat)
    (feats feats' : list level_batch) :
  (1 <= B)%nat -> (1 <= B')%nat ->
  Forall2 same_first_image feats feats' ->
  forward argsort cfg false img_h img_w B feats
  = forward argsort cfg false img_h img_w B' feats'.
Proof.
  intros HB HB' Hsame. unfold forward. cbn [negb].
  destruct B as [|B]; [lia|]. destruct B' as [|B']; [lia|].
  assert (Hinf : inference_single_image argsort cfg img_h img_w (map (image_of 0) feats)
                 = inference_single_image argsort cfg img_h img_w
                     (map (image_of 0) feats')).
  { unfold inference_single_image.
    rewrite (@mapM_enumerate_ext _ _ (level_preds cfg)
               (firstn (length (stride cfg)) (map (image_of 0) feats))
               (firstn (length (stride cfg)) (map (image_of 0) feats')));
      [reflexivity|].
    apply Forall2_firstn_same, Forall2_map_same.
    revert Hsame. apply Forall2_impl. intros lb lb' Hl n.
    apply level_preds_first_image. exact Hl. }
  destruct (firstn (length (stride cfg)) feats);
    destruct (firstn (length (stride cfg)) feats'); rewrite Hinf; reflexivity.
Qed.

Lemma forward_inference_reads_first_image_witness :
  (1 <= 2)%nat /\ (1 <= 2)%nat /\
  Forall2 same_first_image [two_image_level] [two_image_level'] /\
  forward argsort_first_wins one_cell_config false 8 8 2 [two_image_level]
  = forward argsort_first_wins one_cell_config false 8 8 2 [two_image_level'].
Proof.
  assert (Hsame : Forall2 same_first_image [two_image_level] [two_image_level']).
  { constructor; [|constructor].
    unfold same_first_image. cbn [two_image_level two_image_level' lb_h lb_w lb_obj lb_cls lb_reg INR].
    repeat split; intros; lra. }
  split; [lia|]. split; [lia|]. split; [exact Hsame|].
  apply (@forward_inference_reads_first_image argsort_first_wins one_cell_config
           8 8 2 2 [two_image_level] [two_image_level']); [lia|lia|exact Hsame].
Defined.

(** * Properties of the backbone *)


Module ELANFacts.
Import ELAN.
Local Open Scope nat_scope.

Lemma Ok_inj (A : Type) (a b : A) : Ok a = Ok b -> a = b.
Proof. intro E. injection E as ->. reflexivity. Qed.

(** ** Layer by layer *)

Lemma conv_out_k1 (n : nat) : 1 <= n -> conv_out n 1 1 0 1 = Ok n.
Proof.
  intro Hn. unfold conv_out. cbn [Nat.eqb orb Nat.sub Nat.mul Nat.add].
  destruct (n + 0 <? 1) eqn:Hlt; [apply Nat.ltb_lt in Hlt; lia|].
  f_equal. rewrite Nat.div_1_r. lia.
Qed.

Lemma conv_out_k3 (n : nat) : 1 <= n -> conv_out n 3 1 1 1 = Ok n.
Proof.
  intro Hn. unfold conv_out. cbn [Nat.eqb orb Nat.sub Nat.mul Nat.add].
  destruct (n + 2 <? 3) eqn:Hlt; [apply Nat.ltb_lt in Hlt; lia|].
  f_equal. rewrite Nat.div_1_r. lia.
Qed.

(** Kernel 3, padding 1, stride 2: [ceil(n / 2)]. *)
Lemma conv_out_k3_s2 (n : nat) :
  1 <= n -> conv_out n 3 2 1 1 = Ok ((n + 1) / 2).
Proof.
  intro Hn. unfold conv_out. cbn [Nat.eqb orb Nat.sub Nat.mul Nat.add].
  destruct (n + 2 <? 3) eqn:Hlt; [apply Nat.ltb_lt in Hlt; lia|].
  f_equal.
  replace (n + 2 - 3) with (n - 1) by lia.
  pose proof (Nat.div_mod_eq (n - 1) 2). pose proof (Nat.div_mod_eq (n + 1) 2).
  pose proof (Nat.mod_upper_bound (n - 1) 2). pose proof (Nat.mod_upper_bound (n + 1) 2).
  lia.
Qed.

(** Kernel 1, no padding, stride 2: [ceil(n / 2)] again. *)
Lemma conv_out_k1_s2 (n : nat) :
  1 <= n -> conv_out n 1 2 0 1 = Ok ((n + 1) / 2).
Proof.
  intro Hn. unfold conv_out. cbn [Nat.eqb orb Nat.sub Nat.mul Nat.add].
  destruct (n + 0 <? 1) eqn:Hlt; [apply Nat.ltb_lt in Hlt; lia|].
  f_equal.
  replace (n + 0 - 1) with (n - 1) by lia.
  pose proof (Nat.div_mod_eq (n - 1) 2). pose proof (Nat.div_mod_eq (n + 1) 2).
  pose proof (Nat.mod_upper_bound (n - 1) 2). pose proof (Nat.mod_upper_bound (n + 1) 2).
  lia.
Qed.

(** A 2 x 2 pooling window with stride 2: [floor(n / 2)], from size 2 on. *)
Lemma pool_out_2 (n : nat) : 2 <= n -> pool_out n 2 2 = Ok (n / 2).
Proof.
  intro Hn. unfold pool_out. cbn [Nat.eqb orb].
  destruct (n <? 2) eqn:Hlt; [apply Nat.ltb_lt in Hlt; lia|].
  f_equal.
  pose proof (Nat.div_mod_eq (n - 2) 2). pose proof (Nat.div_mod_eq n 2).
  pose proof (Nat.mod_upper_bound (n - 2) 2). pose proof (Nat.mod_upper_bound n 2).
  lia.
Qed.

Lemma pool_out_small (n : nat) : n < 2 -> pool_out n 2 2 = Err ShapeError.
Proof.
  intro Hn. unfold pool_out. cbn [Nat.eqb orb].
  apply Nat.ltb_lt in Hn. rewrite Hn. reflexivity.
Qed.

Lemma half_double (h : nat) : (2 * h) / 2 = h.
Proof. rewrite Nat.mul_comm. apply Nat.div_mul. lia. Qed.

Lemma half_double_succ (h : nat) : (2 * h + 1) / 2 = h.
Proof.
  pose proof (Nat.div_mod_eq (2 * h + 1) 2).
  pose proof (Nat.mod_upper_bound (2 * h + 1) 2). lia.
Qed.

Lemma conv_out_half_k3 (n m : nat) :
  n = 2 * m -> 1 <= m -> conv_out n 3 2 1 1 = Ok m.
Proof.
  intros -> Hm. rewrite conv_out_k3_s2 by lia. rewrite half_double_succ. reflexivity.
Qed.

Lemma conv_out_half_k1 (n m : nat) :
  n = 2 * m -> 1 <= m -> conv_out n 1 2 0 1 = Ok m.
Proof.
  intros -> Hm. rewrite conv_out_k1_s2 by lia. rewrite half_double_succ. reflexivity.
Qed.

Lemma pool_out_half (n m : nat) :
  n = 2 * m -> 1 <= m -> pool_out n 2 2 = Ok m.
Proof.
  intros -> Hm. rewrite pool_out_2 by lia. rewrite half_double. reflexivity.
Qed.

Lemma conv_forward (t : bool) (c_in c_out k s p d g B H W h w : nat) :
  g <= c_out ->
  conv_out H k s p d = Ok h -> conv_out W k s p d = Ok w ->
  layer_forward t (Conv2d c_in c_out k s p d g) {| sB := B; sC := c_in; sH := H; sW := W |}
  = Ok {| sB := B; sC := c_out; sH := h; sW := w |}.
Proof.
  intros Hg Hh Hw. unfold layer_forward. cbn [sB sC sH sW].
  assert (Hlt : (c_out <? g) = false) by (apply Nat.ltb_ge; exact Hg).
  rewrite Hlt, Nat.eqb_refl, Hh, Hw. reflexivity.
Qed.

Lemma conv_forward_no_channel (t : bool) (c_in k s p d g : nat) (x : shape) :
  1 <= g ->
  layer_forward t (Conv2d c_in 0 k s p d g) x = Err ShapeError.
Proof.
  intro Hg. unfold layer_forward.
  assert (Hlt : (0 <? g) = true) by (apply Nat.ltb_lt; lia).
  rewrite Hlt. reflexivity.
Qed.

Lemma bn_forward (t : bool) (c B H W : nat) :
  t = false \/ 2 <= B * H * W ->
  layer_forward t (BatchNorm2d c) {| sB := B; sC := c; sH := H; sW := W |}
  = Ok {| sB := B; sC := c; sH := H; sW := W |}.
Proof.
  intro Hbn. unfold layer_forward. cbn [sB sC sH sW]. rewrite Nat.eqb_refl.
  destruct Hbn as [->|Hbn]; [reflexivity|].
  assert (Hne : (B * H * W =? 1) = false) by (apply Nat.eqb_neq; lia).
  rewrite Hne, andb_false_r. reflexivity.
Qed.

(** The condition of the batch normalisations passes from a size to every
    larger one. *)
Lemma bn_mono (t : bool) (B h w h' w' : nat) :
  t = false \/ 2 <= B * h * w -> h <= h' -> w <= w' ->
  t = false \/ 2 <= B * h' * w'.
Proof.
  intros [->|Hbn] Hh Hw; [left; reflexivity|right].
  assert (B * h * w <= B * h' * w')
    by (apply Nat.mul_le_mono; [apply Nat.mul_le_mono_l|]; assumption).
  lia.
Qed.

Ltac side Hbn :=
  first [ lia | reflexivity | assumption
        | (eapply bn_mono; [exact Hbn | lia | lia]) ].

(** ** Conv *)

Lemma Conv_plain (c1 c2 k p s d : nat) :
  Conv c1 c2 k p s d true false = Ok [Conv2d c1 c2 k s p d 1; BatchNorm2d c2; SiLU].
Proof.
  unfold Conv, mk_Conv2d. rewrite !Nat.mod_1_r. reflexivity.
Qed.

Lemma Conv_depthwise (c1 c2 k p s d : nat) :
  1 <= c1 ->
  Conv c1 c2 k p s d true true
  = Ok [Conv2d c1 c1 k s p d c1; BatchNorm2d c1; SiLU;
        Conv2d c1 c2 1 s 0 d 1; BatchNorm2d c2; SiLU].
Proof.
  intro Hc. unfold Conv, mk_Conv2d. rewrite !Nat.mod_1_r, Nat.Div0.mod_same.
  destruct c1; [lia|]. reflexivity.
Qed.

Lemma run_conv_block (t : bool) (c1 c2 k s p d g B H W h w : nat) :
  g <= c2 ->
  conv_out H k s p d = Ok h -> conv_out W k s p d = Ok w ->
  t = false \/ 2 <= B * h * w ->
  run t [Conv2d c1 c2 k s p d g; BatchNorm2d c2; SiLU]
      {| sB := B; sC := c1; sH := H; sW := W |}
  = Ok {| sB := B; sC := c2; sH := h; sW := w |}.
Proof.
  intros Hg Hh Hw Hbn. cbn [run].
  rewrite conv_forward with (h := h) (w := w) by assumption. cbn [rbind].
  rewrite bn_forward by exact Hbn. reflexivity.
Qed.

Lemma run_app (t : bool) (l1 l2 : list layer) (x y : shape) :
  run t l1 x = Ok y -> run t (l1 ++ l2) x = run t l2 y.
Proof.
  revert x. induction l1 as [|l l1 IH]; intros x Hx; simpl in *.
  - injection Hx as ->. reflexivity.
  - destruct (layer_forward t l x) as [z|e]; simpl in *; [|discriminate].
    apply IH. exact Hx.
Qed.

Lemma run_app_err (t : bool) (l1 l2 : list layer) (x : shape) (e : error) :
  run t l1 x = Err e -> run t (l1 ++ l2) x = Err e.
Proof.
  revert x. induction l1 as [|l l1 IH]; intros x Hx; simpl in *.
  - discriminate.
  - destruct (layer_forward t l x) as [z|e']; simpl in *; [apply IH|]; exact Hx.
Qed.

Lemma run_conv_dw_block (t : bool) (c1 c2 k s p d B H W h1 w1 h2 w2 : nat) :
  1 <= c2 ->
  conv_out H k s p d = Ok h1 -> conv_out W k s p d = Ok w1 ->
  conv_out h1 1 s 0 d = Ok h2 -> conv_out w1 1 s 0 d = Ok w2 ->
  t = false \/ 2 <= B * h1 * w1 ->
  t = false \/ 2 <= B * h2 * w2 ->
  run t [Conv2d c1 c1 k s p d c1; BatchNorm2d c1; SiLU;
         Conv2d c1 c2 1 s 0 d 1; BatchNorm2d c2; SiLU]
      {| sB := B; sC := c1; sH := H; sW := W |}
  = Ok {| sB := B; sC := c2; sH := h2; sW := w2 |}.
Proof.
  intros Hc Hh1 Hw1 Hh2 Hw2 Hbn1 Hbn2.
  change [Conv2d c1 c1 k s p d c1; BatchNorm2d c1; SiLU;
          Conv2d c1 c2 1 s 0 d 1; BatchNorm2d c2; SiLU]
    with ([Conv2d c1 c1 k s p d c1; BatchNorm2d c1; SiLU]
          ++ [Conv2d c1 c2 1 s 0 d 1; BatchNorm2d c2; SiLU]).
  rewrite run_app with (y := {| sB := B; sC := c1; sH := h1; sW := w1 |})
    by (apply run_conv_block; [lia | assumption..]).
  apply run_conv_block; assumption.
Qed.

Lemma cat_channels_4 (B c H W : nat) :
  cat_channels [ {| sB := B; sC := c; sH := H; sW := W |};
                 {| sB := B; sC := c; sH := H; sW := W |};
                 {| sB := B; sC := c; sH := H; sW := W |};
                 {| sB := B; sC := c; sH := H; sW := W |} ]
  = Ok {| sB := B; sC := c * 4; sH := H; sW := W |}.
Proof.
  unfold cat_channels, same_but_channels. cbn [forallb sB sC sH sW map list_sum fold_right].
  rewrite !Nat.eqb_refl. cbn [andb]. do 2 f_equal. lia.
Qed.

Lemma cat_channels_2 (B c1 c2 H W : nat) :
  cat_channels [ {| sB := B; sC := c1; sH := H; sW := W |};
                 {| sB := B; sC := c2; sH := H; sW := W |} ]
  = Ok {| sB := B; sC := c1 + c2; sH := H; sW := W |}.
Proof.
  unfold cat_channels, same_but_channels. cbn [forallb sB sC sH sW map list_sum fold_right].
  rewrite !Nat.eqb_refl. cbn [andb]. do 2 f_equal. lia.
Qed.

Lemma cat_channels_2_mismatch (B c1 c2 H W H' W' : nat) :
  H <> H' \/ W <> W' ->
  cat_channels [ {| sB := B; sC := c1; sH := H; sW := W |};
                 {| sB := B; sC := c2; sH := H'; sW := W' |} ]
  = Err ShapeError.
Proof.
  intro Hne. unfold cat_channels, same_but_channels. cbn [forallb sB sC sH sW].
  assert (Hb : ((H =? H') && (W =? W')) = false).
  { destruct Hne as [Hne|Hne]; apply Nat.eqb_neq in Hne; rewrite Hne;
      [reflexivity | apply andb_false_r]. }
  rewrite Nat.eqb_refl. cbn [andb].
  rewrite <- andb_assoc in *. cbn [andb]. rewrite andb_true_r.
  rewrite Hb. reflexivity.
Qed.

(** ** ELANBlock *)

(** The 3 x 3 stage of a branch, plain or depthwise, keeps the shape. *)
Lemma run_branch_conv (t depthwise : bool) (c B H W : nat) (layers : list layer) :
  Conv c c 3 1 1 1 true depthwise = Ok layers ->
  1 <= c -> 1 <= H -> 1 <= W ->
  t = false \/ 2 <= B * H * W ->
  run t layers {| sB := B; sC := c; sH := H; sW := W |}
  = Ok {| sB := B; sC := c; sH := H; sW := W |}.
Proof.
  intros HC Hc HH HW Hbn. destruct depthwise.
  - rewrite Conv_depthwise in HC by lia. injection HC as <-.
    apply run_conv_dw_block with (h1 := H) (w1 := W);
      auto using conv_out_k3, conv_out_k1.
  - rewrite Conv_plain in HC. injection HC as <-.
    apply run_conv_block; auto using conv_out_k3.
Qed.

Lemma mk_ELANBlock_out_dim
    (depthwise : bool) (in_dim out_dim : nat) (expand_ratio : QArith_base.Q)
    (m : ELANBlock) :
  mk_ELANBlock in_dim out_dim expand_ratio depthwise = Ok m ->
  Z.of_nat out_dim = (4 * int_times in_dim expand_ratio)%Z.
Proof.
  intros Hmk. unfold mk_ELANBlock in Hmk. cbv zeta in Hmk.
  destruct (int_times in_dim expand_ratio <? 0)%Z eqn:Hneg; [discriminate|].
  apply Z.ltb_ge in Hneg.
  set (inter_dim := Z.to_nat (int_times in_dim expand_ratio)) in *.
  rewrite !Conv_plain in Hmk. cbn [rbind] in Hmk.
  destruct (Conv inter_dim inter_dim 3 1 1 1 true depthwise) as [cv|e] eqn:Hcv;
    [|discriminate].
  cbn [rbind] in Hmk.
  destruct (inter_dim * 4 =? out_dim) eqn:Hassert; [|discriminate].
  apply Nat.eqb_eq in Hassert. subst out_dim inter_dim. lia.
Qed.

Lemma ELANBlock_forward_shape
    (t depthwise : bool) (in_dim out_dim : nat) (expand_ratio : QArith_base.Q)
    (m : ELANBlock) (B H W : nat) :
  mk_ELANBlock in_dim out_dim expand_ratio depthwise = Ok m ->
  1 <= out_dim -> 1 <= H -> 1 <= W ->
  t = false \/ 2 <= B * H * W ->
  ELANBlock_forward t m {| sB := B; sC := in_dim; sH := H; sW := W |}
  = Ok {| sB := B; sC := out_dim; sH := H; sW := W |}.
Proof.
  intros Hmk Hout HH HW Hbn. unfold mk_ELANBlock in Hmk. cbv zeta in Hmk.
  destruct (int_times in_dim expand_ratio <? 0)%Z eqn:Hneg; [discriminate|].
  set (inter_dim := Z.to_nat (int_times in_dim expand_ratio)) in *.
  rewrite !Conv_plain in Hmk. cbn [rbind] in Hmk.
  destruct (Conv inter_dim inter_dim 3 1 1 1 true depthwise) as [cv|e] eqn:Hcv;
    [|discriminate].
  cbn [rbind] in Hmk.
  destruct (inter_dim * 4 =? out_dim) eqn:Hassert; [|discriminate].
  apply Nat.eqb_eq in Hassert. cbn [negb rbind] in Hmk. injection Hmk as <-.
  assert (Hinter : 1 <= inter_dim) by lia.
  unfold ELANBlock_forward. cbn [eb_cv1 eb_cv2 eb_cv3 eb_cv4 eb_out].
  rewrite !run_conv_block with (h := H) (w := W)
    by auto using conv_out_k1.
  cbn [rbind].
  rewrite run_app with (y := {| sB := B; sC := inter_dim; sH := H; sW := W |})
    by (apply run_branch_conv with (depthwise := depthwise); assumption).
  rewrite run_branch_conv with (depthwise := depthwise) by assumption.
  cbn [rbind].
  rewrite run_app with (y := {| sB := B; sC := inter_dim; sH := H; sW := W |})
    by (apply run_branch_conv with (depthwise := depthwise); assumption).
  rewrite run_branch_conv with (depthwise := depthwise) by assumption.
  cbn [rbind].
  rewrite cat_channels_4. cbn [rbind].
  rewrite <- Hassert. apply run_conv_block; auto using conv_out_k1. lia.
Qed.

Lemma shiftl_nat_pow2 (k : nat) : Pos.to_nat (Pos.shiftl_nat 1 k) = 2 ^ k.
Proof.
  induction k as [|k IH]; [reflexivity|].
  simpl Pos.shiftl_nat. rewrite Pos2Nat.inj_xO, IH, Nat.pow_succ_r'. reflexivity.
Qed.

(** For a ratio [2^-k] the product of line 55 is [in_dim // 2^k]. *)
Lemma int_times_pow2 (in_dim k : nat) :
  int_times in_dim (QArith_base.Qmake 1 (Pos.shiftl_nat 1 k))
  = Z.of_nat (in_dim / 2 ^ k).
Proof.
  unfold int_times. cbv zeta.
  unfold QArith_base.Qmult, QArith_base.inject_Z, QArith_base.Qle_bool, Qround.Qfloor.
  cbn [QArith_base.Qnum QArith_base.Qden Pos.mul Z.mul].
  rewrite !Z.mul_1_r.
  assert (Hle : (0 <=? Z.of_nat in_dim)%Z = true) by (apply Z.leb_le; lia).
  rewrite Hle.
  rewrite Nat2Z.inj_div. f_equal.
  rewrite <- shiftl_nat_pow2. rewrite positive_nat_Z. reflexivity.
Qed.

(** X17.  For an [ELANBlock] whose ratio is a power of two, [2^-k] (as
    0.5 and 0.25, the ratios of the backbone, are; there the float product
    of line 55 is exact, for [k <= 1022] and [in_dim < 2^53]): whenever the
    block can be built (the assertion [inter_dim*4 == out_dim] holds) and
    has at least one output channel, its [forward] keeps the batch size
    and the spatial size and returns [out_dim] channels, which is
    [4 * (in_dim // 2^k)]: twice the input channels for the ratio 0.5 of
    the docstring, not for every ratio. *)
Theorem ELANBlock_keeps_size
    (t depthwise : bool) (in_dim out_dim k : nat)
    (m : ELANBlock) (B H W : nat) :
  mk_ELANBlock in_dim out_dim (QArith_base.Qmake 1 (Pos.shiftl_nat 1 k)) depthwise
  = Ok m ->
  k <= 1022 -> (Z.of_nat in_dim < 2 ^ 53)%Z ->
  1 <= out_dim -> 1 <= H -> 1 <= W ->
  t = false \/ 2 <= B * H * W ->
  ELANBlock_forward t m {| sB := B; sC := in_dim; sH := H; sW := W |}
  = Ok {| sB := B; sC := out_dim; sH := H; sW := W |} /\
  out_dim = 4 * (in_dim / 2 ^ k).
Proof.
  intros Hmk _ _ Hout HH HW Hbn. split.
  - eapply ELANBlock_forward_shape; eassumption.
  - apply mk_ELANBlock_out_dim in Hmk. rewrite int_times_pow2 in Hmk. lia.
Qed.

Lemma ELANBlock_keeps_size_witness :
  mk_ELANBlock 1024 1024 (QArith_base.Qmake 1 (Pos.shiftl_nat 1 2)) false
  = Ok {| eb_cv1 := [Conv2d 1024 256 1 1 0 1 1; BatchNorm2d 256; SiLU];
          eb_cv2 := [Conv2d 1024 256 1 1 0 1 1; BatchNorm2d 256; SiLU];
          eb_cv3 := [Conv2d 256 256 3 1 1 1 1; BatchNorm2d 256; SiLU;
                     Conv2d 256 256 3 1 1 1 1; BatchNorm2d 256; SiLU];
          eb_cv4 := [Conv2d 256 256 3 1 1 1 1; BatchNorm2d 256; SiLU;
                     Conv2d 256 256 3 1 1 1 1; BatchNorm2d 256; SiLU];
          eb_out := [Conv2d 1024 1024 1 1 0 1 1; BatchNorm2d 1024; SiLU] |} /\
  2 <= 1022 /\ (Z.of_nat 1024 < 2 ^ 53)%Z /\
  1 <= 1024 /\ 1 <= 7 /\ 1 <= 7 /\
  (true = false \/ 2 <= 1 * 7 * 7) /\
  ELANBlock_forward true
    {| eb_cv1 := [Conv2d 1024 256 1 1 0 1 1; BatchNorm2d 256; SiLU];
       eb_cv2 := [Conv2d 1024 256 1 1 0 1 1; BatchNorm2d 256; SiLU];
       eb_cv3 := [Conv2d 256 256 3 1 1 1 1; BatchNorm2d 256; SiLU;
                  Conv2d 256 256 3 1 1 1 1; BatchNorm2d 256; SiLU];
       eb_cv4 := [Conv2d 256 256 3 1 1 1 1; BatchNorm2d 256; SiLU;
                  Conv2d 256 256 3 1 1 1 1; BatchNorm2d 256; SiLU];
       eb_out := [Conv2d 1024 1024 1 1 0 1 1; BatchNorm2d 1024; SiLU] |}
    {| sB := 1; sC := 1024; sH := 7; sW := 7 |}
  = Ok {| sB := 1; sC := 1024; sH := 7; sW := 7 |} /\
  1024 = 4 * (1024 / 2 ^ 2).
Proof.
  assert (Hmk : mk_ELANBlock 1024 1024 (QArith_base.Qmake 1 (Pos.shiftl_nat 1 2)) false
                = Ok {| eb_cv1 := [Conv2d 1024 256 1 1 0 1 1; BatchNorm2d 256; SiLU];
                        eb_cv2 := [Conv2d 1024 256 1 1 0 1 1; BatchNorm2d 256; SiLU];
                        eb_cv3 := [Conv2d 256 256 3 1 1 1 1; BatchNorm2d 256; SiLU;
                                   Conv2d 256 256 3 1 1 1 1; BatchNorm2d 256; SiLU];
                        eb_cv4 := [Conv2d 256 256 3 1 1 1 1; BatchNorm2d 256; SiLU;
                                   Conv2d 256 256 3 1 1 1 1; BatchNorm2d 256; SiLU];
                        eb_out := [Conv2d 1024 1024 1 1 0 1 1; BatchNorm2d 1024; SiLU] |})
    by (vm_compute; reflexivity).
  assert (Hdim : (Z.of_nat 1024 < 2 ^ 53)%Z) by (vm_compute; reflexivity).
  split; [exact Hmk|]. split; [lia|]. split; [exact Hdim|].
  split; [lia|]. split; [lia|]. split; [lia|].
  split; [right; lia|].
  apply (@ELANBlock_keeps_size true false 1024 1024 2 _ 1 7 7 Hmk);
    [lia | exact Hdim | lia | lia | lia | right; lia].
Defined.

(** ** DownSample *)

Lemma mk_DownSample_ok (in_dim : nat) :
  mk_DownSample in_dim
  = Ok {| ds_mp := [MaxPool2d 2 2];
          ds_cv1 := [Conv2d in_dim (in_dim / 2) 1 1 0 1 1; BatchNorm2d (in_dim / 2); SiLU];
          ds_cv2 := [Conv2d in_dim (in_dim / 2) 1 1 0 1 1; BatchNorm2d (in_dim / 2); SiLU]
                    ++ [Conv2d (in_dim / 2) (in_dim / 2) 3 2 1 1 1;
                        BatchNorm2d (in_dim / 2); SiLU] |}.
Proof. unfold mk_DownSample. cbv zeta. rewrite !Conv_plain. reflexivity. Qed.

Lemma maxpool_forward (t : bool) (B c H W h w : nat) :
  pool_out H 2 2 = Ok h -> pool_out W 2 2 = Ok w ->
  run t [MaxPool2d 2 2] {| sB := B; sC := c; sH := H; sW := W |}
  = Ok {| sB := B; sC := c; sH := h; sW := w |}.
Proof.
  intros Hh Hw. cbn [run layer_forward sB sC sH sW]. rewrite Hh, Hw. reflexivity.
Qed.

Lemma maxpool_forward_small (t : bool) (B c H W : nat) :
  H < 2 \/ W < 2 ->
  run t [MaxPool2d 2 2] {| sB := B; sC := c; sH := H; sW := W |} = Err ShapeError.
Proof.
  intros Hs. cbn [run layer_forward sB sC sH sW].
  destruct (Nat.lt_ge_cases H 2) as [HH|HH].
  - rewrite pool_out_small by exact HH. reflexivity.
  - rewrite pool_out_2 by exact HH. cbn [rbind].
    rewrite pool_out_small by lia. reflexivity.
Qed.

Lemma DownSample_forward_shape (t : bool) (in_dim c B H W h w : nat) (m : DownSample) :
  mk_DownSample in_dim = Ok m ->
  c = 2 * (in_dim / 2) -> 2 <= in_dim ->
  H = 2 * h -> W = 2 * w -> 1 <= h -> 1 <= w ->
  t = false \/ 2 <= B * h * w ->
  DownSample_forward t m {| sB := B; sC := in_dim; sH := H; sW := W |}
  = Ok {| sB := B; sC := c; sH := h; sW := w |}.
Proof.
  intros Hmk -> Hin -> -> Hh Hw Hbn.
  rewrite mk_DownSample_ok in Hmk. apply Ok_inj in Hmk. subst m.
  assert (Hinter : 1 <= in_dim / 2) by (apply Nat.div_le_lower_bound; lia).
  unfold DownSample_forward. cbn [ds_mp ds_cv1 ds_cv2].
  rewrite maxpool_forward with (h := h) (w := w)
    by (apply pool_out_half; side Hbn).
  cbn [rbind].
  rewrite run_conv_block with (h := h) (w := w) by auto using conv_out_k1.
  cbn [rbind].
  rewrite run_app
    with (y := {| sB := B; sC := in_dim / 2; sH := 2 * h; sW := 2 * w |})
    by (apply run_conv_block; [lia | apply conv_out_k1; lia | apply conv_out_k1; lia
                              | side Hbn]).
  rewrite run_conv_block with (h := h) (w := w)
    by (first [apply conv_out_half_k3; side Hbn | side Hbn]).
  cbn [rbind]. rewrite cat_channels_2. do 2 f_equal. lia.
Qed.

(** X18.  [DownSample] halves an even spatial size: on an input of
    [in_dim >= 2] channels and size [2h x 2w] it returns [2 * (in_dim // 2)]
    channels of size [h x w] (the input channels again when [in_dim] is
    even).  In training mode the batch normalisations need more than one
    value per channel. *)
Theorem DownSample_halves_even_sizes (t : bool) (in_dim B h w : nat) :
  2 <= in_dim -> 1 <= h -> 1 <= w ->
  t = false \/ 2 <= B * h * w ->
  exists m : DownSample,
    mk_DownSample in_dim = Ok m /\
    DownSample_forward t m {| sB := B; sC := in_dim; sH := 2 * h; sW := 2 * w |}
    = Ok {| sB := B; sC := 2 * (in_dim / 2); sH := h; sW := w |}.
Proof.
  intros Hin Hh Hw Hbn. eexists. split; [apply mk_DownSample_ok|].
  apply DownSample_forward_shape with (in_dim := in_dim);
    first [apply mk_DownSample_ok | side Hbn].
Qed.

Lemma DownSample_halves_even_sizes_witness :
  2 <= 1024 /\ 1 <= 7 /\ 1 <= 7 /\
  (true = false \/ 2 <= 1 * 7 * 7) /\
  exists m : DownSample,
    mk_DownSample 1024 = Ok m /\
    DownSample_forward true m {| sB := 1; sC := 1024; sH := 2 * 7; sW := 2 * 7 |}
    = Ok {| sB := 1; sC := 2 * (1024 / 2); sH := 7; sW := 7 |}.
Proof.
  split; [lia|]. split; [lia|]. split; [lia|]. split; [right; lia|].
  apply (@DownSample_halves_even_sizes true 1024 1 7 7); [lia | lia | lia | right; lia].
Defined.

Lemma odd_half (n : nat) : Nat.odd n = true -> (n + 1) / 2 = n / 2 + 1.
Proof.
  intro Hodd. apply Nat.odd_spec in Hodd. destruct Hodd as [k ->].
  replace (2 * k + 1 + 1) with (2 * (k + 1)) by lia.
  rewrite half_double, half_double_succ. reflexivity.
Qed.

Lemma half_le_ceil (n : nat) : n / 2 <= (n + 1) / 2.
Proof. apply Nat.Div0.div_le_mono. lia. Qed.

(** X19.  [DownSample] refuses an odd spatial size, whatever the docstring
    says about [H//2]: the pooling branch rounds the size down, the
    strided branch rounds it up, and [torch.cat] raises a RuntimeError (so
    do the pooling on a size below 2 and a convolution without output
    channel).  In training mode this is the error as long as the batch
    normalisations before it see more than one value per channel. *)
Theorem DownSample_refuses_odd_sizes (t : bool) (in_dim B H W : nat) (m : DownSample) :
  mk_DownSample in_dim = Ok m ->
  Nat.odd H = true \/ Nat.odd W = true ->
  t = false \/ 2 <= B * (H / 2) * (W / 2) ->
  DownSample_forward t m {| sB := B; sC := in_dim; sH := H; sW := W |}
  = Err ShapeError.
Proof.
  intros Hmk Hodd Hbn.
  rewrite mk_DownSample_ok in Hmk. apply Ok_inj in Hmk. subst m.
  unfold DownSample_forward. cbn [ds_mp ds_cv1 ds_cv2].
  destruct (Nat.lt_ge_cases H 2) as [HH|HH];
    [rewrite maxpool_forward_small by (left; exact HH); reflexivity|].
  destruct (Nat.lt_ge_cases W 2) as [HW|HW];
    [rewrite maxpool_forward_small by (right; exact HW); reflexivity|].
  rewrite maxpool_forward with (h := H / 2) (w := W / 2)
    by (apply pool_out_2; assumption).
  cbn [rbind].
  assert (Hh : 1 <= H / 2) by (apply Nat.div_le_lower_bound; lia).
  assert (Hw : 1 <= W / 2) by (apply Nat.div_le_lower_bound; lia).
  destruct (Nat.lt_ge_cases (in_dim / 2) 1) as [Hin|Hin].
  { replace (in_dim / 2) with 0 by lia. cbn [run].
    rewrite conv_forward_no_channel by lia. reflexivity. }
  rewrite run_conv_block with (h := H / 2) (w := W / 2)
    by auto using conv_out_k1 with arith.
  cbn [rbind].
  pose proof (Nat.Div0.div_le_upper_bound H 2 H) as HhH.
  pose proof (Nat.Div0.div_le_upper_bound W 2 W) as HwW.
  pose proof (half_le_ceil H) as HcH. pose proof (half_le_ceil W) as HcW.
  rewrite run_app
    with (y := {| sB := B; sC := in_dim / 2; sH := H; sW := W |})
    by (apply run_conv_block; [lia | apply conv_out_k1; lia | apply conv_out_k1; lia
                              | eapply bn_mono; [exact Hbn | lia | lia]]).
  rewrite run_conv_block with (h := (H + 1) / 2) (w := (W + 1) / 2)
    by (first [ lia | apply conv_out_k3_s2; lia
              | eapply bn_mono; [exact Hbn | lia | lia] ]).
  cbn [rbind]. apply cat_channels_2_mismatch.
  destruct Hodd as [Ho|Ho]; apply odd_half in Ho; [left|right]; lia.
Qed.

Lemma DownSample_refuses_odd_sizes_witness :
  mk_DownSample 256
  = Ok {| ds_mp := [MaxPool2d 2 2];
          ds_cv1 := [Conv2d 256 128 1 1 0 1 1; BatchNorm2d 128; SiLU];
          ds_cv2 := [Conv2d 256 128 1 1 0 1 1; BatchNorm2d 128; SiLU;
                     Conv2d 128 128 3 2 1 1 1; BatchNorm2d 128; SiLU] |} /\
  (Nat.odd 15 = true \/ Nat.odd 20 = true) /\
  (true = false \/ 2 <= 1 * (15 / 2) * (20 / 2)) /\
  DownSample_forward true
    {| ds_mp := [MaxPool2d 2 2];
       ds_cv1 := [Conv2d 256 128 1 1 0 1 1; BatchNorm2d 128; SiLU];
       ds_cv2 := [Conv2d 256 128 1 1 0 1 1; BatchNorm2d 128; SiLU;
                  Conv2d 128 128 3 2 1 1 1; BatchNorm2d 128; SiLU] |}
    {| sB := 1; sC := 256; sH := 15; sW := 20 |}
  = Err ShapeError.
Proof.
  assert (Hmk : mk_DownSample 256
                = Ok {| ds_mp := [MaxPool2d 2 2];
                        ds_cv1 := [Conv2d 256 128 1 1 0 1 1; BatchNorm2d 128; SiLU];
                        ds_cv2 := [Conv2d 256 128 1 1 0 1 1; BatchNorm2d 128; SiLU;
                                   Conv2d 128 128 3 2 1 1 1; BatchNorm2d 128; SiLU] |})
    by (vm_compute; reflexivity).
  assert (Hbn : true = false \/ 2 <= 1 * (15 / 2) * (20 / 2))
    by (right; vm_compute; lia).
  split; [exact Hmk|]. split; [left; reflexivity|]. split; [exact Hbn|].
  apply (@DownSample_refuses_odd_sizes true 256 1 15 20 _ Hmk);
    [left; reflexivity | exact Hbn].
Defined.

(** ** ELANNet *)

(** The stages after the stem, the same for both variants of the
    backbone: from a [128]-channel map of size [8h x 8w], three rounds of
    [DownSample] and [ELANBlock]. *)
Lemma ELANNet_forward_stages (t dw : bool) (m : ELANNet) (B h w : nat) (x c1 : shape) :
  mk_ELANBlock 128 256 half dw = Ok (layer_2_elan m) ->
  mk_DownSample 256 = Ok (layer_3_down m) ->
  mk_ELANBlock 256 512 half dw = Ok (layer_3_elan m) ->
  mk_DownSample 512 = Ok (layer_4_down m) ->
  mk_ELANBlock 512 1024 half dw = Ok (layer_4_elan m) ->
  mk_DownSample 1024 = Ok (layer_5_down m) ->
  mk_ELANBlock 1024 1024 quarter dw = Ok (layer_5_elan m) ->
  1 <= h -> 1 <= w -> t = false \/ 2 <= B * h * w ->
  run t (layer_1 m) x = Ok c1 ->
  run t (layer_2_conv m) c1 = Ok {| sB := B; sC := 128; sH := 8 * h; sW := 8 * w |} ->
  ELANNet_forward t m x
  = Ok {| out_layer2 := {| sB := B; sC := 512; sH := 4 * h; sW := 4 * w |};
          out_layer3 := {| sB := B; sC := 1024; sH := 2 * h; sW := 2 * w |};
          out_layer4 := {| sB := B; sC := 1024; sH := h; sW := w |} |}.
Proof.
  intros E2 D3 E3 D4 E4 D5 E5 Hh Hw Hbn H1 H2.
  unfold ELANNet_forward. rewrite H1. cbn [rbind]. rewrite H2. cbn [rbind].
  rewrite (@ELANBlock_forward_shape t dw 128 256 half (layer_2_elan m) B (8 * h) (8 * w) E2)
    by side Hbn.
  cbn [rbind].
  rewrite (@DownSample_forward_shape t 256 256 B (8 * h) (8 * w) (4 * h) (4 * w)
             (layer_3_down m) D3) by side Hbn.
  cbn [rbind].
  rewrite (@ELANBlock_forward_shape t dw 256 512 half (layer_3_elan m) B (4 * h) (4 * w) E3)
    by side Hbn.
  cbn [rbind].
  rewrite (@DownSample_forward_shape t 512 512 B (4 * h) (4 * w) (2 * h) (2 * w)
             (layer_4_down m) D4) by side Hbn.
  cbn [rbind].
  rewrite (@ELANBlock_forward_shape t dw 512 1024 half (layer_4_elan m) B (2 * h) (2 * w) E4)
    by side Hbn.
  cbn [rbind].
  rewrite (@DownSample_forward_shape t 1024 1024 B (2 * h) (2 * w) h w
             (layer_5_down m) D5) by side Hbn.
  cbn [rbind].
  rewrite (@ELANBlock_forward_shape t dw 1024 1024 quarter (layer_5_elan m) B h w E5)
    by side Hbn.
  reflexivity.
Qed.

(** A plain 3 x 3 convolution block, stride 1 and stride 2. *)
Lemma run_conv3 (t : bool) (c1 c2 B H W : nat) :
  1 <= c2 -> 1 <= H -> 1 <= W -> t = false \/ 2 <= B * H * W ->
  run t [Conv2d c1 c2 3 1 1 1 1; BatchNorm2d c2; SiLU]
      {| sB := B; sC := c1; sH := H; sW := W |}
  = Ok {| sB := B; sC := c2; sH := H; sW := W |}.
Proof. intros. apply run_conv_block; auto using conv_out_k3. Qed.

Lemma run_conv3_s2 (t : bool) (c1 c2 B H W h w : nat) :
  1 <= c2 -> H = 2 * h -> W = 2 * w -> 1 <= h -> 1 <= w ->
  t = false \/ 2 <= B * h * w ->
  run t [Conv2d c1 c2 3 2 1 1 1; BatchNorm2d c2; SiLU]
      {| sB := B; sC := c1; sH := H; sW := W |}
  = Ok {| sB := B; sC := c2; sH := h; sW := w |}.
Proof. intros. apply run_conv_block; auto using conv_out_half_k3. Qed.

(** The depthwise blocks of the stem: with stride 1 the size is kept, with
    stride 2 it is divided by 4, since both convolutions of the block
    carry the stride. *)
Lemma run_dw3 (t : bool) (c1 c2 B H W : nat) :
  1 <= c2 -> 1 <= H -> 1 <= W -> t = false \/ 2 <= B * H * W ->
  run t [Conv2d c1 c1 3 1 1 1 c1; BatchNorm2d c1; SiLU;
         Conv2d c1 c2 1 1 0 1 1; BatchNorm2d c2; SiLU]
      {| sB := B; sC := c1; sH := H; sW := W |}
  = Ok {| sB := B; sC := c2; sH := H; sW := W |}.
Proof.
  intros. apply run_conv_dw_block with (h1 := H) (w1 := W);
    auto using conv_out_k3, conv_out_k1.
Qed.

Lemma run_dw3_s2 (t : bool) (c1 c2 B H W h w : nat) :
  1 <= c2 -> H = 4 * h -> W = 4 * w -> 1 <= h -> 1 <= w ->
  t = false \/ 2 <= B * h * w ->
  run t [Conv2d c1 c1 3 2 1 1 c1; BatchNorm2d c1; SiLU;
         Conv2d c1 c2 1 2 0 1 1; BatchNorm2d c2; SiLU]
      {| sB := B; sC := c1; sH := H; sW := W |}
  = Ok {| sB := B; sC := c2; sH := h; sW := w |}.
Proof.
  intros Hc -> -> Hh Hw Hbn.
  apply run_conv_dw_block with (h1 := 2 * h) (w1 := 2 * w);
    first [ assumption
          | apply conv_out_half_k3; lia
          | apply conv_out_half_k1; lia
          | side Hbn ].
Qed.

(** X20.  [build_elannet()] (no pretrained weights) succeeds, and the
    backbone it returns maps a batch of images of size [32h x 32w] to three
    feature maps with strides 8, 16 and 32 whose channel counts are the
    [feat_dims] returned beside it: 512 at [4h x 4w], 1024 at [2h x 2w]
    and 1024 at [h x w]. *)
Theorem build_elannet_feature_shapes (t : bool) (B h w : nat) :
  1 <= h -> 1 <= w -> t = false \/ 2 <= B * h * w ->
  exists backbone : ELANNet,
    build_elannet = Ok (backbone, [512; 1024; 1024]) /\
    ELANNet_forward t backbone {| sB := B; sC := 3; sH := 32 * h; sW := 32 * w |}
    = Ok {| out_layer2 := {| sB := B; sC := 512; sH := 4 * h; sW := 4 * w |};
            out_layer3 := {| sB := B; sC := 1024; sH := 2 * h; sW := 2 * w |};
            out_layer4 := {| sB := B; sC := 1024; sH := h; sW := w |} |}.
Proof.
  intros Hh Hw Hbn. unfold build_elannet, mk_ELANNet.
  rewrite !Conv_plain. cbn [rbind].
  destruct (mk_ELANBlock 128 256 half false) as [b2|e] eqn:E2;
    [|vm_compute in E2; discriminate].
  destruct (mk_DownSample 256) as [d3|e] eqn:D3;
    [|rewrite mk_DownSample_ok in D3; discriminate].
  destruct (mk_ELANBlock 256 512 half false) as [b3|e] eqn:E3;
    [|vm_compute in E3; discriminate].
  destruct (mk_DownSample 512) as [d4|e] eqn:D4;
    [|rewrite mk_DownSample_ok in D4; discriminate].
  destruct (mk_ELANBlock 512 1024 half false) as [b4|e] eqn:E4;
    [|vm_compute in E4; discriminate].
  destruct (mk_DownSample 1024) as [d5|e] eqn:D5;
    [|rewrite mk_DownSample_ok in D5; discriminate].
  destruct (mk_ELANBlock 1024 1024 quarter false) as [b5|e] eqn:E5;
    [|vm_compute in E5; discriminate].
  cbn [rbind]. eexists. split; [reflexivity|].
  apply ELANNet_forward_stages
    with (dw := false) (c1 := {| sB := B; sC := 64; sH := 16 * h; sW := 16 * w |});
    cbn [layer_1 layer_2_conv layer_2_elan layer_3_down layer_3_elan
         layer_4_down layer_4_elan layer_5_down layer_5_elan];
    try assumption.
  - rewrite run_app
      with (y := {| sB := B; sC := 32; sH := 32 * h; sW := 32 * w |})
      by (apply run_conv3; side Hbn).
    rewrite run_app
      with (y := {| sB := B; sC := 64; sH := 16 * h; sW := 16 * w |})
      by (apply run_conv3_s2; side Hbn).
    apply run_conv3; side Hbn.
  - apply run_conv3_s2; side Hbn.
Qed.

Lemma build_elannet_feature_shapes_witness :
  1 <= 7 /\ 1 <= 7 /\ (true = false \/ 2 <= 1 * 7 * 7) /\
  exists backbone : ELANNet,
    build_elannet = Ok (backbone, [512; 1024; 1024]) /\
    ELANNet_forward true backbone {| sB := 1; sC := 3; sH := 32 * 7; sW := 32 * 7 |}
    = Ok {| out_layer2 := {| sB := 1; sC := 512; sH := 4 * 7; sW := 4 * 7 |};
            out_layer3 := {| sB := 1; sC := 1024; sH := 2 * 7; sW := 2 * 7 |};
            out_layer4 := {| sB := 1; sC := 1024; sH := 7; sW := 7 |} |}.
Proof.
  split; [lia|]. split; [lia|]. split; [right; lia|].
  apply (@build_elannet_feature_shapes true 1 7 7); [lia | lia | right; lia].
Defined.

(** X21.  [ELANNet(depthwise=True)] can be built, but its strides are 32,
    64 and 128, not 8, 16 and 32: each of the two stride-2 [Conv] blocks
    of the stem hands the stride to its depthwise and to its pointwise
    convolution.  On images of size [128h x 128w] it returns 512 channels
    at [4h x 4w], 1024 at [2h x 2w] and 1024 at [h x w]. *)
Theorem depthwise_backbone_strides (t : bool) (B h w : nat) :
  1 <= h -> 1 <= w -> t = false \/ 2 <= B * h * w ->
  exists backbone : ELANNet,
    mk_ELANNet true = Ok backbone /\
    ELANNet_forward t backbone {| sB := B; sC := 3; sH := 128 * h; sW := 128 * w |}
    = Ok {| out_layer2 := {| sB := B; sC := 512; sH := 4 * h; sW := 4 * w |};
            out_layer3 := {| sB := B; sC := 1024; sH := 2 * h; sW := 2 * w |};
            out_layer4 := {| sB := B; sC := 1024; sH := h; sW := w |} |}.
Proof.
  intros Hh Hw Hbn. unfold mk_ELANNet.
  rewrite !Conv_depthwise by lia. cbn [rbind].
  destruct (mk_ELANBlock 128 256 half true) as [b2|e] eqn:E2;
    [|vm_compute in E2; discriminate].
  destruct (mk_DownSample 256) as [d3|e] eqn:D3;
    [|rewrite mk_DownSample_ok in D3; discriminate].
  destruct (mk_ELANBlock 256 512 half true) as [b3|e] eqn:E3;
    [|vm_compute in E3; discriminate].
  destruct (mk_DownSample 512) as [d4|e] eqn:D4;
    [|rewrite mk_DownSample_ok in D4; discriminate].
  destruct (mk_ELANBlock 512 1024 half true) as [b4|e] eqn:E4;
    [|vm_compute in E4; discriminate].
  destruct (mk_DownSample 1024) as [d5|e] eqn:D5;
    [|rewrite mk_DownSample_ok in D5; discriminate].
  destruct (mk_ELANBlock 1024 1024 quarter true) as [b5|e] eqn:E5;
    [|vm_compute in E5; discriminate].
  cbn [rbind]. eexists. split; [reflexivity|].
  apply ELANNet_forward_stages
    with (dw := true) (c1 := {| sB := B; sC := 64; sH := 32 * h; sW := 32 * w |});
    cbn [layer_1 layer_2_conv layer_2_elan layer_3_down layer_3_elan
         layer_4_down layer_4_elan layer_5_down layer_5_elan];
    try assumption.
  - rewrite run_app
      with (y := {| sB := B; sC := 32; sH := 128 * h; sW := 128 * w |})
      by (apply run_dw3; side Hbn).
    rewrite run_app
      with (y := {| sB := B; sC := 64; sH := 32 * h; sW := 32 * w |})
      by (apply run_dw3_s2; side Hbn).
    apply run_dw3; side Hbn.
  - apply run_dw3_s2; side Hbn.
Qed.

Lemma depthwise_backbone_strides_witness :
  1 <= 2 /\ 1 <= 3 /\ (false = false \/ 2 <= 1 * 2 * 3) /\
  exists backbone : ELANNet,
    mk_ELANNet true = Ok backbone /\
    ELANNet_forward false backbone {| sB := 1; sC := 3; sH := 128 * 2; sW := 128 * 3 |}
    = Ok {| out_layer2 := {| sB := 1; sC := 512; sH := 4 * 2; sW := 4 * 3 |};
            out_layer3 := {| sB := 1; sC := 1024; sH := 2 * 2; sW := 2 * 3 |};
            out_layer4 := {| sB := 1; sC := 1024; sH := 2; sW := 3 |} |}.
Proof.
  split; [lia|]. split; [lia|]. split; [left; reflexivity|].
  apply (@depthwise_backbone_strides false 1 2 3); [lia | lia | left; reflexivity].
Defined.

(** ** The check of a checkpoint *)

Lemma filter_all (A : Type) (f : A -> bool) (l : list A) :
  (forall a, In a l -> f a = true) -> filter f l = l.
Proof.
  induction l as [|a l IH]; intro Hall; simpl; [reflexivity|].
  rewrite (Hall a) by (left; reflexivity).
  rewrite IH by (intros b Hb; apply Hall; right; exact Hb). reflexivity.
Qed.

Lemma filter_twice (A : Type) (f g : A -> bool) (l : list A) :
  filter f (filter g l) = filter (fun a => g a && f a) l.
Proof.
  induction l as [|a l IH]; simpl; [reflexivity|].
  destruct (g a); simpl; [destruct (f a)|]; rewrite IH; reflexivity.
Qed.

Lemma NoDup_keys_filter (d : state_dict) (f : String.string * list nat -> bool) :
  NoDup (map fst d) -> NoDup (map fst (filter f d)).
Proof.
  induction d as [|a d IH]; simpl; intro Hnd; [constructor|].
  inversion Hnd as [|k ks Hnin Hnd']; subst.
  destruct (f a); simpl; [constructor|]; auto.
  intro Hin. apply Hnin. apply in_map_iff in Hin. destruct Hin as [e [He Hin]].
  apply filter_In in Hin. apply in_map_iff. exists e. tauto.
Qed.

(** With distinct names, the entry found under a name is the only one. *)
Lemma find_unique (d : state_dict) (k : String.string) (e0 e : String.string * list nat) :
  NoDup (map fst d) ->
  find (fun e => String.eqb (fst e) k) d = Some e0 ->
  In e d -> fst e = k -> e = e0.
Proof.
  induction d as [|a d IH]; simpl; intros Hnd Hfind Hin Hk; [contradiction|].
  inversion Hnd as [|k' ks Hnin Hnd']; subst.
  destruct (String.eqb (fst a) (fst e)) eqn:Ha.
  - injection Hfind as <-. destruct Hin as [->|Hin]; [reflexivity|].
    apply String.eqb_eq in Ha. exfalso. apply Hnin. rewrite Ha.
    apply in_map. exact Hin.
  - destruct Hin as [->|Hin]; [rewrite String.eqb_refl in Ha; discriminate|].
    apply IH; auto.
Qed.

Lemma check_key_filter (model d : state_dict) (k : String.string) :
  NoDup (map fst d) ->
  check_key model d k
  = filter (fun e => if String.eqb (fst e) k
                     then match dict_get model (fst e) with
                          | Some shape_model => shape_eqb shape_model (snd e)
                          | None => false
                          end
                     else true) d.
Proof.
  intro Hnd. unfold check_key.
  destruct (dict_get model k) as [sm|] eqn:Hm.
  - unfold dict_get at 1.
    destruct (find (fun e => String.eqb (fst e) k) d) as [e0|] eqn:Hfind;
      cbn [option_map].
    + assert (Huniq : forall e, In e d -> String.eqb (fst e) k = true ->
                dict_get model (fst e) = Some sm /\ snd e = snd e0).
      { intros e Hin He. apply String.eqb_eq in He. split; [rewrite He; exact Hm|].
        f_equal. eapply find_unique; eassumption. }
      destruct (shape_eqb sm (snd e0)) eqn:Hs; cbn [negb].
      * symmetry. apply filter_all. intros e Hin.
        destruct (String.eqb (fst e) k) eqn:He; [|reflexivity].
        destruct (Huniq e Hin He) as [-> ->]. exact Hs.
      * unfold dict_pop. apply filter_ext_in. intros e Hin.
        destruct (String.eqb (fst e) k) eqn:He; [|reflexivity].
        destruct (Huniq e Hin He) as [-> ->]. rewrite Hs. reflexivity.
    + symmetry. apply filter_all. intros e Hin.
      rewrite (find_none _ _ Hfind e Hin). reflexivity.
  - unfold dict_pop. apply filter_ext_in. intros e Hin.
    destruct (String.eqb (fst e) k) eqn:He; [|reflexivity].
    apply String.eqb_eq in He. rewrite He, Hm. reflexivity.
Qed.

Lemma check_keys_filter (model : state_dict) (keys : list String.string) :
  forall d : state_dict,
  NoDup (map fst d) ->
  fold_left (check_key model) keys d
  = filter (fun e => if existsb (String.eqb (fst e)) keys
                     then match dict_get model (fst e) with
                          | Some shape_model => shape_eqb shape_model (snd e)
                          | None => false
                          end
                     else true) d.
Proof.
  induction keys as [|k keys IH]; intros d Hnd; cbn [fold_left existsb].
  - symmetry. apply filter_all. reflexivity.
  - rewrite check_key_filter by exact Hnd.
    rewrite IH by (apply NoDup_keys_filter; exact Hnd).
    rewrite filter_twice. apply filter_ext. intro e.
    destruct (String.eqb (fst e) k); destruct (existsb (String.eqb (fst e)) keys);
      destruct (dict_get model (fst e)) as [sm|];
      cbn [orb andb]; try reflexivity;
      destruct (shape_eqb sm (snd e)); reflexivity.
Qed.

(** X22.  The check of [build_elannet] on a checkpoint whose names are
    distinct leaves exactly the entries whose name the model has with the
    same shape, in their order: every other entry is popped, and no entry
    is touched because of another one. *)
Theorem check_checkpoint_keeps_matching (model checkpoint : state_dict) :
  NoDup (map fst checkpoint) ->
  check_checkpoint model checkpoint
  = filter (fun e => match dict_get model (fst e) with
                     | Some shape_model => shape_eqb shape_model (snd e)
                     | None => false
                     end) checkpoint.
Proof.
  intro Hnd. unfold check_checkpoint. rewrite check_keys_filter by exact Hnd.
  apply filter_ext_in. intros e Hin.
  assert (Hex : existsb (String.eqb (fst e)) (map fst checkpoint) = true).
  { apply existsb_exists. exists (fst e). split; [apply in_map; exact Hin|].
    apply String.eqb_refl. }
  rewrite Hex. reflexivity.
Qed.

Lemma check_checkpoint_keeps_matching_witness :
  NoDup (map fst sample_checkpoint) /\
  check_checkpoint sample_model_state sample_checkpoint
  = filter (fun e => match dict_get sample_model_state (fst e) with
                     | Some shape_model => shape_eqb shape_model (snd e)
                     | None => false
                     end) sample_checkpoint.
Proof.
  assert (Hnd : NoDup (map fst sample_checkpoint)).
  { unfold sample_checkpoint. cbn [map fst].
    repeat constructor; cbn [In]; intuition discriminate. }
  split; [exact Hnd|].
  apply (@check_checkpoint_keeps_matching sample_model_state sample_checkpoint Hnd).
Defined.

End ELANFacts.
